(** * A shallow embedding of the password manager (password_mngr.py)

    The development follows the layers of the program:
    - [Py]: the slice of the Python runtime the program relies on (text
      strings as sequences of code points, byte strings, exceptions, the
      UTF-8 codec behind [str.encode()] and [bytes.decode()]);
    - [Base64]: the url-safe base64 codec used for keys and tokens;
    - [Blocks]: padding and byte-wise xor, the block-level parts of the
      Fernet recipe;
    - the Fernet recipe itself, over an abstract block cipher and MAC, and
      the [PasswordManager] class, method by method, in a small
      state-and-exception monad over the file system, the database, the
      terminal input and the standard output.

    Definitions come first, then the facts about them. *)

From Stdlib Require Import NArith ZArith List Bool Lia DecimalString.
From Stdlib.Strings Require Import String Ascii Byte.
From stdpp Require Import gmap.
Import ListNotations.

(** Text strings are sequences of Unicode code points, byte strings
    sequences of octets. *)
Abbreviation str := (list N).
Abbreviation bytes := (list byte).

#[global] Instance byte_eq_decision : EqDecision byte := Byte.byte_eq_dec.

(** ** The Python runtime *)

Module Py.

(** ASCII literals of the source text. *)
Definition lit (s : string) : str :=
  map N_of_ascii (list_ascii_of_string s).

(** The newline character of the source's escapes. *)
Definition nl : str := [10%N].

(** The exceptions that occur in the program and its libraries.  All of
    them derive from [Exception]. *)
Inductive exn :=
| UnicodeEncodeError
| UnicodeDecodeError
| ValueError
| OverflowError
| EOFError
| FileNotFoundError
| InvalidToken
| IntegrityError
| OperationalError
| ProgrammingError.

Inductive result (A : Type) :=
| Ok (a : A)
| Raise (e : exn).
Arguments Ok {A} a.
Arguments Raise {A} e.

Definition of_option {A} (e : exn) (o : option A) : result A :=
  match o with Some a => Ok a | None => Raise e end.

Definition rbind {A B} (r : result A) (k : A -> result B) : result B :=
  match r with Ok a => k a | Raise e => Raise e end.

Definition byte_of_N (n : N) : byte :=
  match Byte.of_N (n mod 256) with Some b => b | None => x00 end.

(** *** [str.encode()]: strict UTF-8 *)

Definition utf8_encode_char (c : N) : option bytes :=
  if (c <? 0x80)%N then Some [byte_of_N c]
  else if (c <? 0x800)%N then
    Some [byte_of_N (0xC0 + c / 64); byte_of_N (0x80 + c mod 64)]
  else if (c <? 0x10000)%N then
    if ((0xD800 <=? c) && (c <=? 0xDFFF))%N then None
    else Some [byte_of_N (0xE0 + c / 4096);
               byte_of_N (0x80 + (c / 64) mod 64);
               byte_of_N (0x80 + c mod 64)]
  else if (c <? 0x110000)%N then
    Some [byte_of_N (0xF0 + c / 262144);
          byte_of_N (0x80 + (c / 4096) mod 64);
          byte_of_N (0x80 + (c / 64) mod 64);
          byte_of_N (0x80 + c mod 64)]
  else None.

Fixpoint utf8_encode (s : str) : option bytes :=
  match s with
  | [] => Some []
  | c :: s' =>
      match utf8_encode_char c, utf8_encode s' with
      | Some b, Some bs => Some (b ++ bs)
      | _, _ => None
      end
  end.

Definition encode (s : str) : result bytes :=
  of_option UnicodeEncodeError (utf8_encode s).

(** *** [bytes.decode()]: strict UTF-8 *)

Definition continuation (b : byte) : option N :=
  let n := Byte.to_N b in
  if ((0x80 <=? n) && (n <? 0xC0))%N then Some (n - 0x80)%N else None.

Definition scalar (c : N) : bool :=
  ((c <? 0xD800) || ((0xE000 <=? c) && (c <? 0x110000)))%N.

Fixpoint utf8_decode (bs : bytes) : option str :=
  match bs with
  | [] => Some []
  | b0 :: r0 =>
      let n0 := Byte.to_N b0 in
      if (n0 <? 0x80)%N then option_map (cons n0) (utf8_decode r0)
      else if (n0 <? 0xC0)%N then None
      else if (n0 <? 0xE0)%N then
        match r0 with
        | b1 :: r1 =>
            match continuation b1 with
            | Some x1 =>
                let c := ((n0 - 0xC0) * 64 + x1)%N in
                if (c <? 0x80)%N then None
                else option_map (cons c) (utf8_decode r1)
            | None => None
            end
        | _ => None
        end
      else if (n0 <? 0xF0)%N then
        match r0 with
        | b1 :: b2 :: r2 =>
            match continuation b1, continuation b2 with
            | Some x1, Some x2 =>
                let c := ((n0 - 0xE0) * 4096 + x1 * 64 + x2)%N in
                if (c <? 0x800)%N || negb (scalar c) then None
                else option_map (cons c) (utf8_decode r2)
            | _, _ => None
            end
        | _ => None
        end
      else if (n0 <? 0xF8)%N then
        match r0 with
        | b1 :: b2 :: b3 :: r3 =>
            match continuation b1, continuation b2, continuation b3 with
            | Some x1, Some x2, Some x3 =>
                let c := ((n0 - 0xF0) * 262144 + x1 * 4096
                          + x2 * 64 + x3)%N in
                if (c <? 0x10000)%N || negb (scalar c) then None
                else option_map (cons c) (utf8_decode r3)
            | _, _, _ => None
            end
        | _ => None
        end
      else None
  end.

Definition decode (bs : bytes) : result str :=
  of_option UnicodeDecodeError (utf8_decode bs).

(** A text string is encodable when it consists of Unicode scalar
    values only (no lone surrogates). *)
Definition encodable (s : str) : bool := forallb scalar s.

Definition ascii_byte (b : byte) : bool := (Byte.to_N b <? 0x80)%N.

(** [int.to_bytes(length, byteorder="big")] and [int.from_bytes]. *)
Fixpoint big_endian (len : nat) (n : N) : bytes :=
  match len with
  | O => []
  | S l => big_endian l (n / 256) ++ [byte_of_N n]
  end.

Definition to_bytes (n : N) (len : nat) : result bytes :=
  if (n <? 256 ^ N.of_nat len)%N then Ok (big_endian len n)
  else Raise OverflowError.

Definition from_bytes (bs : bytes) : N :=
  fold_left (fun acc b => (acc * 256 + Byte.to_N b)%N) bs 0%N.

(** [os.urandom(n)]: the next [n] octets of the entropy source. *)
Definition os_urandom (rng : nat -> byte) (n : nat) : bytes :=
  map rng (seq 0 n).

(** [str(n)] for the attempt counters shown in messages. *)
Definition str_of_nat (n : nat) : str :=
  lit (NilEmpty.string_of_uint (Nat.to_uint n)).

End Py.

(** ** url-safe base64

  [base64.urlsafe_b64encode] is [binascii.b2a_base64] followed by the
  translation of [+/] to [-_]; [base64.urlsafe_b64decode] translates
  back and calls [binascii.a2b_base64] in its lenient mode (as in
  CPython 3.11 and later), which skips bytes outside the alphabet and
  stops at a completed pad sequence. *)

Module Base64.
Import Py.

Definition alphabet : bytes :=
  list_byte_of_string
    "ABCDEFGHIJKLMNOPQRSTUVWXYZabcdefghijklmnopqrstuvwxyz0123456789+/".

Definition pad : byte := "="%byte.

Definition table_b2a (v : N) : byte := nth (N.to_nat v) alphabet pad.

Fixpoint index_of (ch : byte) (l : bytes) (i : N) : option N :=
  match l with
  | [] => None
  | x :: l' => if Byte.eqb ch x then Some i else index_of ch l' (N.succ i)
  end.

Definition table_a2b (ch : byte) : option N := index_of ch alphabet 0%N.

Definition urlsafe_encode_translation (ch : byte) : byte :=
  if Byte.eqb ch "+" then "-"%byte
  else if Byte.eqb ch "/" then "_"%byte else ch.

Definition urlsafe_decode_translation (ch : byte) : byte :=
  if Byte.eqb ch "-" then "+"%byte
  else if Byte.eqb ch "_" then "/"%byte else ch.

(** Three octets make four sextets; a tail of one or two octets is
    padded with [=]. *)
Fixpoint b2a_base64 (bs : bytes) : bytes :=
  match bs with
  | [] => []
  | [a] =>
      let a := Byte.to_N a in
      [table_b2a (a / 4); table_b2a (a mod 4 * 16); pad; pad]
  | [a; b] =>
      let a := Byte.to_N a in
      let b := Byte.to_N b in
      [table_b2a (a / 4); table_b2a (a mod 4 * 16 + b / 16);
       table_b2a (b mod 16 * 4); pad]
  | a :: b :: c :: rest =>
      let a := Byte.to_N a in
      let b := Byte.to_N b in
      let c := Byte.to_N c in
      table_b2a (a / 4) :: table_b2a (a mod 4 * 16 + b / 16)
        :: table_b2a (b mod 16 * 4 + c / 64) :: table_b2a (c mod 64)
        :: b2a_base64 rest
  end.

(** The decoder's loop: [quad_pos] counts the sextets of the current
    quad, [leftchar] holds the bits not yet emitted, [pads] the pad
    bytes seen since the last sextet. *)
Fixpoint a2b_loop (quad_pos : nat) (leftchar : N) (pads : nat)
    (s : bytes) : option bytes :=
  match s with
  | [] => if Nat.eqb quad_pos 0 then Some [] else None
  | ch :: rest =>
      if Byte.eqb ch pad then
        if Nat.leb 2 quad_pos then
          if Nat.leb 4 (quad_pos + S pads) then Some []
          else a2b_loop quad_pos leftchar (S pads) rest
        else a2b_loop quad_pos leftchar pads rest
      else
        match table_a2b ch with
        | None => a2b_loop quad_pos leftchar pads rest
        | Some v =>
            match quad_pos with
            | 0%nat => a2b_loop 1 v 0 rest
            | 1%nat =>
                option_map (cons (byte_of_N (leftchar * 4 + v / 16)))
                  (a2b_loop 2 (v mod 16) 0 rest)
            | 2%nat =>
                option_map (cons (byte_of_N (leftchar * 16 + v / 4)))
                  (a2b_loop 3 (v mod 4) 0 rest)
            | _ =>
                option_map (cons (byte_of_N (leftchar * 64 + v)))
                  (a2b_loop 0 0 0 rest)
            end
        end
  end.

Definition a2b_base64 (s : bytes) : option bytes := a2b_loop 0 0 0 s.

Definition urlsafe_b64encode (bs : bytes) : bytes :=
  map urlsafe_encode_translation (b2a_base64 bs).

Definition urlsafe_b64decode (s : bytes) : option bytes :=
  a2b_base64 (map urlsafe_decode_translation s).

(** The sextet values, and the byte a sextet is read back from. *)
Definition sextets : list N := map N.of_nat (seq 0 64).

Definition symbol (v : N) : byte :=
  urlsafe_decode_translation (urlsafe_encode_translation (table_b2a v)).

End Base64.

(** ** Block-level building blocks of the Fernet recipe *)

Module Blocks.
Import Py.

Definition byte_xor (a b : byte) : byte :=
  let '(a0, (a1, (a2, (a3, (a4, (a5, (a6, a7))))))) := Byte.to_bits a in
  let '(b0, (b1, (b2, (b3, (b4, (b5, (b6, b7))))))) := Byte.to_bits b in
  Byte.of_bits
    (xorb a0 b0, (xorb a1 b1, (xorb a2 b2, (xorb a3 b3,
    (xorb a4 b4, (xorb a5 b5, (xorb a6 b6, xorb a7 b7))))))).

Fixpoint xor_bytes (a b : bytes) : bytes :=
  match a, b with
  | x :: a', y :: b' => byte_xor x y :: xor_bytes a' b'
  | _, _ => []
  end.

Definition block_size : nat := 16.

(** PKCS7: between 1 and 16 bytes are appended, each holding their
    number. *)
Definition pkcs7_pad (data : bytes) : bytes :=
  let n := (block_size - length data mod block_size)%nat in
  data ++ repeat (byte_of_N (N.of_nat n)) n.

Definition pkcs7_unpad (data : bytes) : option bytes :=
  let len := length data in
  if Nat.eqb len 0 || negb (Nat.eqb (len mod block_size) 0) then None
  else
    let p := List.last data x00 in
    let n := N.to_nat (Byte.to_N p) in
    if Nat.leb 1 n && Nat.leb n block_size
       && forallb (Byte.eqb p) (skipn (len - n) data)
    then Some (firstn (len - n) data)
    else None.

(** A stand-in block cipher and MAC with the interface of AES-128 and
    HMAC-SHA256, for running the model on concrete inputs. *)
Definition xor_cipher (key block : bytes) : bytes := xor_bytes block key.

Definition xor_mac (key msg : bytes) : bytes :=
  repeat (fold_right byte_xor x00 (key ++ msg)) 32.

End Blocks.

(** ** The program's data *)

(** A [Fernet] object holds the two halves of the 32-byte key. *)
Record Fernet := {
  _signing_key : bytes;
  _encryption_key : bytes;
}.

(** A row of the table [passwords (id, service, password)]. *)
Record row := {
  row_id : N;
  service : str;
  password : str;
}.

(** A printed line: fixed or formatted text, or text followed by the
    message of an exception (the source's [f"...: {e}"]). *)
Inductive line :=
| Text (s : str)
| TextExn (s : str) (e : Py.exn).

(** What the program acts on: the files it reads and writes by path, the
    [passwords] table of its database (absent until created) with the
    table's AUTOINCREMENT counter, whether the connection is open, the
    lines waiting at the terminal and the lines printed so far. *)
Record world := {
  files : gmap str bytes;
  passwords : option (list row);
  sqlite_sequence : N;
  connected : bool;
  stdin : list str;
  stdout : list line;
}.

Record PasswordManager := {
  db_name : str;
  key_file : str;
  fernet : Fernet;
}.

Definition set_files (w : world) (f : gmap str bytes) : world :=
  {| files := f; passwords := passwords w;
     sqlite_sequence := sqlite_sequence w; connected := connected w;
     stdin := stdin w; stdout := stdout w |}.

Definition set_table (w : world) (t : option (list row)) (n : N) : world :=
  {| files := files w; passwords := t; sqlite_sequence := n;
     connected := connected w; stdin := stdin w; stdout := stdout w |}.

Definition set_connected (w : world) (c : bool) : world :=
  {| files := files w; passwords := passwords w;
     sqlite_sequence := sqlite_sequence w; connected := c;
     stdin := stdin w; stdout := stdout w |}.

Definition set_stdin (w : world) (i : list str) : world :=
  {| files := files w; passwords := passwords w;
     sqlite_sequence := sqlite_sequence w; connected := connected w;
     stdin := i; stdout := stdout w |}.

Definition set_stdout (w : world) (o : list line) : world :=
  {| files := files w; passwords := passwords w;
     sqlite_sequence := sqlite_sequence w; connected := connected w;
     stdin := stdin w; stdout := o |}.

(** ** Effects: state passing with exceptions *)

Import Py.

Definition M (A : Type) : Type := world -> result A * world.

Definition ret {A} (a : A) : M A := fun w => (Ok a, w).

Definition bind {A B} (m : M A) (k : A -> M B) : M B :=
  fun w =>
    match m w with
    | (Ok a, w') => k a w'
    | (Raise e, w') => (Raise e, w')
    end.

Definition lift {A} (r : result A) : M A := fun w => (r, w).

(** [try: body except ...: handler]; every exception of the model is an
    [Exception], the handler picks the clause. *)
Definition try_except {A} (body : M A) (handler : exn -> M A) : M A :=
  fun w =>
    match body w with
    | (Ok a, w') => (Ok a, w')
    | (Raise e, w') => handler e w'
    end.

Notation "'let*' x ':=' m 'in' k" := (bind m (fun x => k))
  (at level 10, x name, m at level 100, k at level 200).

Notation "'let?' x ':=' r 'in' k" := (rbind r (fun x => k))
  (at level 10, x name, r at level 100, k at level 200).

(** *** Terminal

    Printing appends a line and is taken not to fail (the terminal
    accepts every text the program prints). *)

Definition print (s : str) : M unit :=
  fun w => (Ok tt, set_stdout w (stdout w ++ [Text s])).

Definition print_exn (s : str) (e : exn) : M unit :=
  fun w => (Ok tt, set_stdout w (stdout w ++ [TextExn s e])).

Fixpoint print_each (l : list str) : M unit :=
  match l with
  | [] => ret tt
  | s :: l' => let* _ := print s in print_each l'
  end.

(** [getpass.getpass(prompt)]: the next line typed, [EOFError] when the
    input has ended. *)
Definition getpass (prompt : str) : M str :=
  fun w =>
    match stdin w with
    | [] => (Raise EOFError, w)
    | typed :: rest => (Ok typed, set_stdin w rest)
    end.

(** *** Files

    [open(path, "wb")] raises [FileNotFoundError] on the empty path,
    which names no file.  Every other path is taken to name a file that
    can be created: a directory that is not there, permissions and a
    full disk are outside the model, so what is stated of a first run
    is stated of calls that return. *)

Definition os_path_exists (path : str) : M bool :=
  fun w =>
    (Ok match files w !! path with Some _ => true | None => false end, w).

Definition read_file (path : str) : M bytes :=
  fun w => (of_option FileNotFoundError (files w !! path), w).

Definition write_file (path : str) (content : bytes) : M unit :=
  fun w =>
    if bool_decide (path = []) then (Raise FileNotFoundError, w)
    else (Ok tt, set_files w (<[path := content]> (files w))).

(** *** sqlite3

    A statement on a closed connection is a [ProgrammingError], one on a
    missing table an [OperationalError]; text parameters are bound as
    UTF-8, so a lone surrogate is a [UnicodeEncodeError]; the UNIQUE
    constraint on [service] compares exactly (BINARY collation) and makes
    the INSERT an [IntegrityError] that changes nothing: the statement
    is rolled back, the AUTOINCREMENT counter included.

    The world holds one database, the one the program is run on, and
    one connection to it: [sqlite3.connect] opens it whatever the name,
    and is taken not to fail.  The statements that follow the records
    through [close()] and a new connection therefore fix the name and
    ask that it be the name of a file ([persistent] below): the empty
    name and [:memory:] are private databases, gone with the connection
    that opened them. *)

Definition sqlite3_connect (database : str) : M unit :=
  fun w => (Ok tt, set_connected w true).

Definition execute_create_table : M unit :=
  fun w =>
    if connected w then
      match passwords w with
      | Some _ => (Ok tt, w)
      | None => (Ok tt, set_table w (Some []) (sqlite_sequence w))
      end
    else (Raise ProgrammingError, w).

Definition same_service (service_name : str) (r : row) : bool :=
  bool_decide (service r = service_name).

Definition execute_insert (service_name encrypted : str) : M unit :=
  fun w =>
    if connected w then
      match passwords w with
      | None => (Raise OperationalError, w)
      | Some rows =>
          if negb (encodable service_name && encodable encrypted) then
            (Raise UnicodeEncodeError, w)
          else if existsb (same_service service_name) rows then
            (Raise IntegrityError, w)
          else
            let i := N.succ (sqlite_sequence w) in
            (Ok tt,
             set_table w
               (Some (rows ++ [{| row_id := i; service := service_name;
                                  password := encrypted |}])) i)
      end
    else (Raise ProgrammingError, w).

(** [cursor.execute("SELECT service, password ... WHERE service = ?")]
    followed by [cursor.fetchone()]. *)
Definition execute_select (service_name : str) : M (option (str * str)) :=
  fun w =>
    if connected w then
      match passwords w with
      | None => (Raise OperationalError, w)
      | Some rows =>
          if negb (encodable service_name) then (Raise UnicodeEncodeError, w)
          else
            (Ok (option_map (fun r => (service r, password r))
                   (find (same_service service_name) rows)), w)
      end
    else (Raise ProgrammingError, w).

Definition commit : M unit :=
  fun w => if connected w then (Ok tt, w) else (Raise ProgrammingError, w).

(** *** Fernet keys *)

(** [Fernet.generate_key()] *)
Definition generate_key (rng : nat -> byte) : bytes :=
  Base64.urlsafe_b64encode (os_urandom rng 32).

(** [Fernet(key)]: the key is the url-safe base64 text of 32 octets. *)
Definition Fernet__init__ (key : bytes) : result Fernet :=
  match Base64.urlsafe_b64decode key with
  | None => Raise ValueError
  | Some k =>
      if negb (Nat.eqb (length k) 32) then Raise ValueError
      else Ok {| _signing_key := firstn 16 k;
                 _encryption_key := skipn 16 k |}
  end.

(** ** The methods that do not touch the cipher *)

Definition create_table : M unit :=
  let* _ := execute_create_table in
  commit.

Definition _initialize_encryption (key_file : str) (rng : nat -> byte)
  : M Fernet :=
  let* present := os_path_exists key_file in
  let* key :=
    if present then read_file key_file
    else
      let key := generate_key rng in
      let* _ := write_file key_file key in
      ret key
  in
  lift (Fernet__init__ key).

Definition __init__ (db_name key_file : str) (rng : nat -> byte)
  : M PasswordManager :=
  let* _ := sqlite3_connect db_name in
  let* f := _initialize_encryption key_file rng in
  let* _ := create_table in
  ret {| db_name := db_name; key_file := key_file; fernet := f |}.

Definition close : M unit :=
  fun w => (Ok tt, set_connected w false).

(** [re.search] with a pattern that is one character class. *)
Definition re_search (class : N -> bool) (s : str) : bool :=
  existsb class s.

Definition upper (c : N) : bool := ((65 <=? c) && (c <=? 90))%N.
Definition lower (c : N) : bool := ((97 <=? c) && (c <=? 122))%N.

(** The class of the last check, the double quote written by its code. *)
Definition special_characters : str :=
  lit "!@#$%^&*(),.?" ++ [34%N] ++ lit ":{}|<>".

Definition special (c : N) : bool := existsb (N.eqb c) special_characters.

Definition msg_length : str := lit "- At least 8 characters long".
Definition msg_upper : str := lit "- At least one uppercase letter".
Definition msg_lower : str := lit "- At least one lowercase letter".
Definition msg_digit : str := lit "- At least one number".
Definition msg_special : str := lit "- At least one special character ".

(** ** The cipher-dependent part

    AES-128 on one block and HMAC-SHA256 are parameters of the
    development, and so is the table of Unicode decimal digits (category
    Nd) that the pattern [\d] matches. *)

Section Program.

Variable aes_encrypt_block : bytes -> bytes -> bytes.
Variable aes_decrypt_block : bytes -> bytes -> bytes.
Variable hmac_sha256 : bytes -> bytes -> bytes.
Variable isdecimal : N -> bool.

Import Blocks.

(** *** AES in CBC mode *)

Fixpoint cbc_encrypt_blocks (fuel : nat) (key prev data : bytes) : bytes :=
  match fuel with
  | O => []
  | S fuel' =>
      match data with
      | [] => []
      | _ :: _ =>
          let c :=
            aes_encrypt_block key (xor_bytes (firstn block_size data) prev)
          in
          c ++ cbc_encrypt_blocks fuel' key c (skipn block_size data)
      end
  end.

Fixpoint cbc_decrypt_blocks (fuel : nat) (key prev data : bytes) : bytes :=
  match fuel with
  | O => []
  | S fuel' =>
      match data with
      | [] => []
      | _ :: _ =>
          let c := firstn block_size data in
          xor_bytes (aes_decrypt_block key c) prev
            ++ cbc_decrypt_blocks fuel' key c (skipn block_size data)
      end
  end.

(** [Cipher(AES(key), CBC(iv))]: the IV must be one block long, and the
    data a whole number of blocks when the operation is finalized. *)
Definition CBC_encrypt (key iv data : bytes) : result bytes :=
  if negb (Nat.eqb (length iv) block_size) then Raise ValueError
  else if negb (Nat.eqb (length data mod block_size) 0) then Raise ValueError
  else Ok (cbc_encrypt_blocks (length data) key iv data).

Definition CBC_decrypt (key iv data : bytes) : result bytes :=
  if negb (Nat.eqb (length iv) block_size) then Raise ValueError
  else if negb (Nat.eqb (length data mod block_size) 0) then Raise ValueError
  else Ok (cbc_decrypt_blocks (length data) key iv data).

(** *** Fernet tokens

    A token is the url-safe base64 text of: the version octet [0x80], the
    time in 8 octets, the 16-octet IV, the ciphertext, and the 32-octet
    HMAC of all that precedes it. *)

Definition _encrypt_from_parts (f : Fernet) (data : bytes)
    (current_time : N) (iv : bytes) : result bytes :=
  let padded_data := pkcs7_pad data in
  let? ciphertext := CBC_encrypt (_encryption_key f) iv padded_data in
  let? time_bytes := to_bytes current_time 8 in
  let basic_parts := x80 :: time_bytes ++ iv ++ ciphertext in
  let hmac := hmac_sha256 (_signing_key f) basic_parts in
  Ok (Base64.urlsafe_b64encode (basic_parts ++ hmac)).

(** [Fernet.encrypt(data)], at time [now] and with entropy [rng]. *)
Definition Fernet_encrypt (f : Fernet) (now : N) (rng : nat -> byte)
    (data : bytes) : result bytes :=
  let iv := os_urandom rng 16 in
  _encrypt_from_parts f data now iv.

Definition _get_unverified_token_data (token : bytes)
  : result (N * bytes) :=
  match Base64.urlsafe_b64decode token with
  | None => Raise InvalidToken
  | Some data =>
      match data with
      | [] => Raise InvalidToken
      | version :: _ =>
          if negb (Byte.eqb version x80) then Raise InvalidToken
          else if Nat.ltb (length data) 9 then Raise InvalidToken
          else Ok (from_bytes (firstn 8 (skipn 1 data)), data)
      end
  end.

(** [data[:-32]] is signed, [data[-32:]] is the signature. *)
Definition _verify_signature (f : Fernet) (data : bytes) : result unit :=
  let n := (length data - 32)%nat in
  if bool_decide (hmac_sha256 (_signing_key f) (firstn n data)
                  = skipn n data)
  then Ok tt else Raise InvalidToken.

Definition _decrypt_data (f : Fernet) (data : bytes) : result bytes :=
  let? _ := _verify_signature f data in
  let iv := firstn 16 (skipn 9 data) in
  let ciphertext := firstn (length data - 32 - 25) (skipn 25 data) in
  if negb (Nat.eqb (length iv) block_size) then Raise ValueError
  else
    match CBC_decrypt (_encryption_key f) iv ciphertext with
    | Raise _ => Raise InvalidToken
    | Ok plaintext_padded =>
        of_option InvalidToken (pkcs7_unpad plaintext_padded)
    end.

(** [Fernet.decrypt(token)], called without a time-to-live. *)
Definition Fernet_decrypt (f : Fernet) (token : bytes) : result bytes :=
  let? unverified := _get_unverified_token_data token in
  _decrypt_data f (snd unverified).

(** *** The methods of [PasswordManager] *)

Definition encrypt_password (self : PasswordManager) (now : N)
    (rng : nat -> byte) (password : str) : result str :=
  let? data := encode password in
  let? token := Fernet_encrypt (fernet self) now rng data in
  decode token.

Definition decrypt_password (self : PasswordManager)
    (encrypted_password : str) : result str :=
  let? token := encode encrypted_password in
  let? data := Fernet_decrypt (fernet self) token in
  decode data.

Definition validate_password (password : str) : bool * list str :=
  let errors := [] in
  let errors :=
    if Nat.ltb (length password) 8 then errors ++ [msg_length] else errors in
  let errors :=
    if negb (re_search upper password) then errors ++ [msg_upper]
    else errors in
  let errors :=
    if negb (re_search lower password) then errors ++ [msg_lower]
    else errors in
  let errors :=
    if negb (re_search isdecimal password) then errors ++ [msg_digit]
    else errors in
  let errors :=
    if negb (re_search special password) then errors ++ [msg_special]
    else errors in
  (Nat.eqb (length errors) 0, errors).

Definition attempt_message (attempt max_attempts : nat) : str :=
  nl ++ lit "Attempt " ++ str_of_nat attempt ++ lit "/"
     ++ str_of_nat max_attempts ++ lit ". Please try again.".

Definition failed_message (max_attempts : nat) : str :=
  nl ++ lit "Failed after " ++ str_of_nat max_attempts
     ++ lit " attempts. Password not saved.".

Definition saved_message (service_name : str) : str :=
  lit "Password for " ++ service_name ++ lit " saved successfully".

Definition exists_message (service_name : str) : str :=
  lit "Password for " ++ service_name
    ++ lit " already exists. Use update instead.".

(** The confirmation loop of [add_password]: [true] when it is left by
    [break] (or runs out), [false] when it returns from the method. *)
Fixpoint confirm_loop (password : str) (attempts : list nat)
    (max_attempts_confirm : nat) : M bool :=
  match attempts with
  | [] => ret true
  | attempt_confirm :: attempts' =>
      let* confirm := getpass (lit "Confirm password: ") in
      if bool_decide (password = confirm) then ret true
      else
        let* _ := print (lit "Passwords don't match. Please try again.") in
        if Nat.ltb attempt_confirm max_attempts_confirm then
          let* _ :=
            print (attempt_message attempt_confirm max_attempts_confirm) in
          confirm_loop password attempts' max_attempts_confirm
        else
          let* _ := print (failed_message max_attempts_confirm) in
          ret false
  end.

(** The [try] block of [add_password] with its two handlers. *)
Definition save_password (self : PasswordManager) (service_name : str)
    (now : N) (rng : nat -> byte) (password : str) : M unit :=
  try_except
    (let* encrypted := lift (encrypt_password self now rng password) in
     let* _ := execute_insert service_name encrypted in
     let* _ := commit in
     print (saved_message service_name))
    (fun e =>
       match e with
       | IntegrityError => print (exists_message service_name)
       | _ => print_exn (lit "Error saving password: ") e
       end).

Fixpoint add_password_loop (self : PasswordManager) (service_name : str)
    (now : N) (rng : nat -> byte) (attempts : list nat)
    (max_attempts : nat) : M unit :=
  match attempts with
  | [] => ret tt
  | attempt :: attempts' =>
      let* password := getpass (lit "Enter password: ") in
      let '(is_valid, errors) := validate_password password in
      if negb is_valid then
        let* _ := print (nl ++ lit "Password does not meet requirements:") in
        let* _ := print_each errors in
        if Nat.ltb attempt max_attempts then
          let* _ := print (attempt_message attempt max_attempts) in
          add_password_loop self service_name now rng attempts' max_attempts
        else
          let* _ := print (failed_message max_attempts) in
          ret tt
      else
        let max_attempts_confirm := 3%nat in
        let* confirmed :=
          confirm_loop password (seq 1 max_attempts_confirm)
            max_attempts_confirm in
        if confirmed then save_password self service_name now rng password
        else ret tt
  end.

Definition add_password (self : PasswordManager) (service_name : str)
    (now : N) (rng : nat -> byte) : M unit :=
  let max_attempts := 3%nat in
  add_password_loop self service_name now rng (seq 1 max_attempts)
    max_attempts.

Definition get_password (self : PasswordManager) (service_name : str)
  : M (option str) :=
  try_except
    (let* result := execute_select service_name in
     match result with
     | Some (_, encrypted_password) =>
         let* decrypted := lift (decrypt_password self encrypted_password) in
         let* _ := print (nl ++ lit "Service: " ++ service_name) in
         let* _ := print (lit "Password: " ++ decrypted) in
         ret (Some decrypted)
     | None =>
         let* _ := print (lit "No password found for " ++ service_name) in
         ret None
     end)
    (fun e =>
       let* _ := print_exn (lit "Error retrieving password: ") e in
       ret None).

(** ** Vocabulary of the statements *)

(** The five messages of the password policy, in the order of the
    checks. *)
Definition policy_messages : list str :=
  [msg_length; msg_upper; msg_lower; msg_digit; msg_special].

Definition mem (m : str) (l : list str) : bool :=
  existsb (fun e => bool_decide (e = m)) l.

(** Some character of [s] satisfies [P]. *)
Definition contains (P : N -> Prop) (s : str) : Prop :=
  exists c, In c s /\ P c.

(** The part of the world that is the store: files, table, counter and
    connection, as opposed to the terminal. *)
Definition same_store (w w' : world) : Prop :=
  files w' = files w /\ passwords w' = passwords w /\
  sqlite_sequence w' = sqlite_sequence w /\ connected w' = connected w.

(** One record for [service_name] was added at the end of the table, and
    nothing else changed in the store. *)
Definition inserted (service_name : str) (w w' : world) : Prop :=
  exists rows encrypted,
    passwords w = Some rows /\
    existsb (same_service service_name) rows = false /\
    passwords w' =
      Some (rows ++ [{| row_id := N.succ (sqlite_sequence w);
                        service := service_name;
                        password := encrypted |}]) /\
    sqlite_sequence w' = N.succ (sqlite_sequence w) /\
    files w' = files w /\ connected w' = connected w.

Definition put_effect (service_name : str) (w w' : world) : Prop :=
  same_store w w' \/ inserted service_name w w'.

(** At most one record per service name. *)
Definition unique_services (w : world) : Prop :=
  match passwords w with
  | Some rows => NoDup (map service rows)
  | None => True
  end.

(** The operations of the class, as steps between states of the world. *)
Inductive operation : world -> world -> Prop :=
| op_init db_name key_file rng w :
    operation w (snd (__init__ db_name key_file rng w))
| op_add_password self service_name now rng w :
    operation w (snd (add_password self service_name now rng w))
| op_get_password self service_name w :
    operation w (snd (get_password self service_name w))
| op_close w :
    operation w (snd (close w)).

(** The states the program can be in: it starts on a database without
    the table and goes on by its operations. *)
Inductive reachable : world -> Prop :=
| reachable_fresh w : passwords w = None -> reachable w
| reachable_step w w' : reachable w -> operation w w' -> reachable w'.

(** A record that does not decrypt. *)
Definition garbage_row : row :=
  {| row_id := 1; service := lit "svc"; password := lit "garbage" |}.

(** An action that leaves the store as it is, and one that at most
    inserts a record for [service_name]. *)
Definition quiet {A} (m : M A) : Prop :=
  forall w, same_store w (snd (m w)).

Definition puts (service_name : str) {A} (m : M A) : Prop :=
  forall w, put_effect service_name w (snd (m w)).

(** ** Sample inputs

    A key, a manager and a few states of the world on which the model is
    run in the examples below. *)

Definition sample_rng : nat -> byte :=
  fun n => byte_of_N (N.of_nat (7 * n + 3)).

Definition other_rng : nat -> byte :=
  fun n => byte_of_N (N.of_nat (5 * n + 1)).

Definition ascii_digit (c : N) : bool := ((48 <=? c) && (c <=? 57))%N.

Definition sample_key : bytes := generate_key sample_rng.

Definition sample_fernet : Fernet :=
  {| _signing_key := firstn 16 (os_urandom sample_rng 32);
     _encryption_key := skipn 16 (os_urandom sample_rng 32) |}.

Definition sample_manager : PasswordManager :=
  {| db_name := lit "passwords.db"; key_file := lit "encryption.key";
     fernet := sample_fernet |}.

(** Before the first run: no key file, no table, nothing typed. *)
Definition fresh_world : world :=
  {| files := ∅; passwords := None; sqlite_sequence := 0;
     connected := false; stdin := []; stdout := [] |}.

(** An open store with the given rows, and the given lines typed. *)
Definition store (rows : list row) (typed : list str) : world :=
  {| files := {[ lit "encryption.key" := sample_key ]};
     passwords := Some rows; sqlite_sequence := N.of_nat (length rows);
     connected := true; stdin := typed; stdout := [] |}.

(** ** The command loop

    [main] reads its lines with [input()], from the same terminal as
    [getpass]; the choice is stripped of surrounding white space, the
    table of which ([str.isspace]) is a parameter.  Prompts are not part
    of the printed lines.  The loop is given a number of turns it may
    take at most; each turn reads a line, so more turns than there are
    lines typed are never used up. *)

Fixpoint lstrip (isspace : N -> bool) (s : str) : str :=
  match s with
  | [] => []
  | c :: s' => if isspace c then lstrip isspace s' else s
  end.

(** [str.strip()] *)
Definition strip (isspace : N -> bool) (s : str) : str :=
  rev (lstrip isspace (rev (lstrip isspace s))).

(** [input(prompt)]: the next line typed, [EOFError] when the input has
    ended. *)
Definition input (prompt : str) : M str :=
  fun w =>
    match stdin w with
    | [] => (Raise EOFError, w)
    | typed :: rest => (Ok typed, set_stdin w rest)
    end.

Definition advice : str :=
  lit "Password should be at least 8 characters long and include at least one uppercase letter, one lowercase letter, one number, and one special character".

(** The [while True] loop of [main]: [Some tt] when it is left by
    [break], [None] when the turns allowed are used up.  The [turn]-th
    pass of the loop encrypts at time [clock turn] with entropy
    [entropy turn]. *)
Fixpoint main_loop (isspace : N -> bool) (fuel : nat)
    (pm : PasswordManager) (clock : nat -> N)
    (entropy : nat -> nat -> byte) (turn : nat) : M (option unit) :=
  match fuel with
  | O => ret None
  | S fuel' =>
      let* _ := print (nl ++ lit "=== Password Manager ===") in
      let* _ := print (lit "1. Add password") in
      let* _ := print (lit "2. Get password") in
      let* _ := print (lit "3. Exit") in
      let* typed := input (nl ++ lit "Enter choice (1-3): ") in
      let choice := strip isspace typed in
      if bool_decide (choice = lit "1") then
        let* _ := print advice in
        let* service_name :=
          input (lit "Enter service name (e.g., gmail.com): ") in
        let* _ :=
          add_password pm service_name (clock turn) (entropy turn) in
        main_loop isspace fuel' pm clock entropy (S turn)
      else if bool_decide (choice = lit "2") then
        let* service_name :=
          input (lit "Enter service name (e.g., gmail.com): ") in
        let* _ := get_password pm service_name in
        main_loop isspace fuel' pm clock entropy (S turn)
      else if bool_decide (choice = lit "3") then
        let* _ := print (lit "Goodbye!") in
        let* _ := close in
        ret (Some tt)
      else
        let* _ := print (lit "Invalid choice. Try again.") in
        main_loop isspace fuel' pm clock entropy (S turn)
  end.

(** [main()], the key being generated with entropy [rng] when there is
    none yet. *)
Definition main (isspace : N -> bool) (fuel : nat) (rng : nat -> byte)
    (clock : nat -> N) (entropy : nat -> nat -> byte) : M (option unit) :=
  let* pm := __init__ (lit "passwords.db") (lit "encryption.key") rng in
  main_loop isspace fuel pm clock entropy 0.

(** ** More vocabulary *)

(** An action that takes at most [k] of the lines typed and leaves the
    others in place. *)
Definition reads (k : nat) {A} (m : M A) : Prop :=
  forall w,
    exists n,
      (n <= k)%nat /\ (n <= length (stdin w))%nat /\
      stdin (snd (m w)) = skipn n (stdin w).

(** An action whose only exception is [EOFError], raised when no line is
    left. *)
Definition eof_only {A} (m : M A) : Prop :=
  forall w e,
    fst (m w) = Raise e -> e = EOFError /\ stdin (snd (m w)) = [].

Definition never_raises {A} (m : M A) : Prop :=
  forall w e, fst (m w) <> Raise e.

(** What is printed when a password is rejected by the policy. *)
Definition rejection (errors : list str) : list line :=
  Text (nl ++ lit "Password does not meet requirements:") :: map Text errors.

Definition mismatch : line :=
  Text (lit "Passwords don't match. Please try again.").

(** Nothing is taken away: the records are kept in place, new ones come
    after them, and every file keeps its content. *)
Definition grows (w w' : world) : Prop :=
  (forall rows,
     passwords w = Some rows ->
     exists more, passwords w' = Some (rows ++ more)) /\
  (forall path content,
     files w !! path = Some content -> files w' !! path = Some content).



(** An action that takes nothing away and keeps the service names of
    the table distinct. *)
Definition keeps_store {A} (m : M A) : Prop :=
  forall w,
    grows w (snd (m w)) /\
    (unique_services w -> unique_services (snd (m w))).

(** How a run of the command loop ends: by the choice of leaving, with
    the connection closed, or by the end of the input. *)
Definition ended (r : result (option unit) * world) : Prop :=
  (fst r = Ok (Some tt) /\ connected (snd r) = false /\
   exists out, stdout (snd r) = out ++ [Text (lit "Goodbye!")]) \/
  (fst r = Raise EOFError /\ stdin (snd r) = []).

(** White space of the ASCII range. *)
Definition ascii_space (c : N) : bool :=
  (((9 <=? c) && (c <=? 13)) || ((28 <=? c) && (c <=? 32)))%N.

Definition sample_clock : nat -> N :=
  fun turn => (1700000000 + N.of_nat turn)%N.

Definition sample_entropy : nat -> nat -> byte :=
  fun turn n => byte_of_N (N.of_nat (11 * turn + 7 * n + 5)).


(** The characters of a token or key: the url-safe base64 alphabet and
    the pad character. *)
Definition token_byte (b : byte) : bool :=
  let c := Byte.to_N b in
  (upper c || lower c || ((48 <=? c) && (c <=? 57))
   || (c =? 45) || (c =? 95) || (c =? 61))%N.

(** The number of characters of the token of [n] octets of data: version,
    time, IV, the padded data and the signature, in base64. *)
Definition token_length (n : nat) : nat :=
  (4 * ((57 + 16 * (n / 16 + 1) + 2) / 3))%nat.

(** The four lines of the menu. *)
Definition menu : list line :=
  [Text (nl ++ lit "=== Password Manager ==="); Text (lit "1. Add password");
   Text (lit "2. Get password"); Text (lit "3. Exit")].
(** ** What is assumed of the primitives *)

Hypothesis aes_block_length :
  forall key block,
    length key = 16%nat -> length block = 16%nat ->
    length (aes_encrypt_block key block) = 16%nat.

Hypothesis aes_decrypt_encrypt :
  forall key block,
    length key = 16%nat -> length block = 16%nat ->
    aes_decrypt_block key (aes_encrypt_block key block) = block.

Hypothesis hmac_length :
  forall key msg, length (hmac_sha256 key msg) = 32%nat.

(** On ASCII, [\d] matches the digits 0 to 9 and nothing else. *)
Hypothesis isdecimal_ascii :
  forall c, (c < 128)%N -> isdecimal c = ((48 <=? c) && (c <=? 57))%N.

Ltac Zify.zify_post_hook ::= Z.to_euclidean_division_equations.

(** ** Facts about the runtime layers *)

Import Base64.

Lemma to_N_byte_of_N n : Byte.to_N (byte_of_N n) = (n mod 256)%N.
Proof.
  unfold byte_of_N.
  destruct (Byte.of_N (n mod 256)) as [b|] eqn:E.
  - now apply Byte.to_of_N.
  - apply Byte.of_N_None_iff in E. lia.
Qed.

Lemma byte_of_N_to_N b : byte_of_N (Byte.to_N b) = b.
Proof.
  unfold byte_of_N. pose proof (Byte.to_N_bounded b).
  rewrite N.mod_small by lia. now rewrite Byte.of_to_N.
Qed.

Lemma to_N_inj a b : Byte.to_N a = Byte.to_N b -> a = b.
Proof.
  intros H. rewrite <- (byte_of_N_to_N a), <- (byte_of_N_to_N b).
  now rewrite H.
Qed.

Lemma to_N_byte_of_N_small n :
  (n < 256)%N -> Byte.to_N (byte_of_N n) = n.
Proof. intros H. rewrite to_N_byte_of_N. now apply N.mod_small. Qed.

Ltac split_tests :=
  repeat match goal with
         | |- context [N.ltb ?a ?b] =>
             destruct (N.ltb_spec a b); try lia
         | |- context [N.leb ?a ?b] =>
             destruct (N.leb_spec a b); try lia
         | |- _ => progress cbn [andb orb negb]
         end.

(** A code point below 2^21 splits into the payloads of its octets. *)
Lemma payloads c :
  (c < 0x200000)%N ->
  exists x y z t,
    (c = x * 262144 + y * 4096 + z * 64 + t /\ x < 8 /\ y < 64 /\ z < 64
     /\ t < 64 /\ c / 262144 = x /\ (c / 4096) mod 64 = y
     /\ c / 4096 = x * 64 + y /\ c / 64 = x * 4096 + y * 64 + z
     /\ (c / 64) mod 64 = z /\ c mod 64 = t)%N.
Proof.
  intros H.
  exists (c / 262144)%N, ((c / 4096) mod 64)%N, ((c / 64) mod 64)%N,
    (c mod 64)%N.
  repeat split; lia.
Qed.

Lemma utf8_decode_encode_char c b rest :
  utf8_encode_char c = Some b ->
  utf8_decode (b ++ rest) = option_map (cons c) (utf8_decode rest).
Proof.
  unfold utf8_encode_char. intros Henc.
  destruct (N.ltb_spec c 0x80).
  { injection Henc as <-. cbn [app utf8_decode].
    rewrite to_N_byte_of_N_small by lia. split_tests. reflexivity. }
  assert (Hc : (c < 0x200000)%N).
  { destruct (N.lt_ge_cases c 0x110000); [lia|]. exfalso. revert Henc.
    split_tests; intros; discriminate. }
  destruct (payloads c Hc)
    as (x & y & z & t & E & Hx & Hy & Hz & Ht & E1 & E2 & E3 & E4 & E5 & E6).
  rewrite ?E1, ?E2, ?E3, ?E4, ?E5, ?E6 in Henc.
  clear E1 E2 E3 E4 E5 E6. subst c. revert Henc.
  split_tests; intros Henc; try discriminate; injection Henc as <-;
    cbn [app utf8_decode]; unfold continuation, scalar;
    rewrite !to_N_byte_of_N_small by lia; split_tests;
    do 2 f_equal; lia.
Qed.

Lemma utf8_decode_encode s b :
  utf8_encode s = Some b -> utf8_decode b = Some s.
Proof.
  revert b. induction s as [|c s IH]; intros b H; cbn [utf8_encode] in H.
  - now injection H as <-.
  - destruct (utf8_encode_char c) as [bc|] eqn:Ec; [|discriminate].
    destruct (utf8_encode s) as [bs|]; [|discriminate].
    injection H as <-.
    rewrite (utf8_decode_encode_char _ _ _ Ec), (IH bs eq_refl).
    reflexivity.
Qed.

Lemma utf8_encode_char_scalar c :
  scalar c = true <-> exists b, utf8_encode_char c = Some b.
Proof.
  unfold scalar, utf8_encode_char.
  split; [intros H | intros [b H]]; revert H;
    split_tests; try discriminate; eauto.
Qed.

(** [str.encode()] succeeds exactly on the encodable strings. *)
Lemma utf8_encode_encodable s :
  encodable s = true <-> exists b, utf8_encode s = Some b.
Proof.
  induction s as [|c s IH]; cbn [encodable forallb utf8_encode].
  - split; eauto.
  - fold (encodable s). rewrite andb_true_iff, IH, utf8_encode_char_scalar.
    split.
    + intros [[b ->] [bs ->]]. eauto.
    + intros [b H]. destruct (utf8_encode_char c); [|discriminate].
      destruct (utf8_encode s); [|discriminate]. eauto.
Qed.

(** ASCII data: one octet per code point, both ways. *)
Lemma utf8_decode_ascii bs :
  forallb ascii_byte bs = true ->
  utf8_decode bs = Some (map Byte.to_N bs).
Proof.
  induction bs as [|b bs IH]; [reflexivity|].
  cbn [forallb map utf8_decode]. intros H.
  apply andb_true_iff in H as [Hb H]. unfold ascii_byte in Hb.
  now rewrite Hb, (IH H).
Qed.

Lemma utf8_encode_ascii bs :
  forallb ascii_byte bs = true ->
  utf8_encode (map Byte.to_N bs) = Some bs.
Proof.
  induction bs as [|b bs IH]; [reflexivity|].
  cbn [forallb map utf8_encode]. intros H.
  apply andb_true_iff in H as [Hb H]. unfold ascii_byte in Hb.
  unfold utf8_encode_char. now rewrite Hb, (IH H), byte_of_N_to_N.
Qed.

(** Decoding what was encoded gives the text back. *)
Lemma decode_encode s b : encode s = Ok b -> decode b = Ok s.
Proof.
  unfold encode, decode. destruct (utf8_encode s) as [b'|] eqn:E;
    cbn [of_option]; intros H; [|discriminate].
  injection H as <-. now rewrite (utf8_decode_encode _ _ E).
Qed.

Lemma in_sextets v : (v < 64)%N -> In v sextets.
Proof.
  intros H. unfold sextets. apply in_map_iff. exists (N.to_nat v).
  split; [apply N2Nat.id | apply in_seq; lia].
Qed.

Lemma symbol_spec v :
  (v < 64)%N ->
  Byte.eqb (symbol v) pad = false /\ table_a2b (symbol v) = Some v.
Proof.
  intros H.
  assert (C : forallb (fun v =>
                negb (Byte.eqb (symbol v) pad) &&
                match table_a2b (symbol v) with
                | Some w => N.eqb w v
                | None => false
                end) sextets = true) by (vm_compute; reflexivity).
  rewrite forallb_forall in C. specialize (C v (in_sextets v H)).
  apply andb_true_iff in C as [C1 C2].
  split; [now apply negb_true_iff in C1|].
  destruct (table_a2b (symbol v)); [|discriminate].
  now apply N.eqb_eq in C2 as ->.
Qed.

Lemma a2b_loop_symbol q l p v rest :
  (v < 64)%N ->
  a2b_loop q l p (symbol v :: rest) =
  match q with
  | 0%nat => a2b_loop 1 v 0 rest
  | 1%nat => option_map (cons (byte_of_N (l * 4 + v / 16)))
               (a2b_loop 2 (v mod 16) 0 rest)
  | 2%nat => option_map (cons (byte_of_N (l * 16 + v / 4)))
               (a2b_loop 3 (v mod 4) 0 rest)
  | _ => option_map (cons (byte_of_N (l * 64 + v))) (a2b_loop 0 0 0 rest)
  end.
Proof.
  intros H. destruct (symbol_spec v H) as [E1 E2].
  cbn [a2b_loop]. now rewrite E1, E2.
Qed.

Ltac same_byte x :=
  match goal with
  | |- context [byte_of_N ?e] =>
      replace e with (Byte.to_N x) by lia; rewrite (byte_of_N_to_N x)
  end.

Lemma a2b_b2a_upto n bs :
  (length bs <= n)%nat ->
  a2b_loop 0 0 0
    (map urlsafe_decode_translation
       (map urlsafe_encode_translation (b2a_base64 bs))) = Some bs.
Proof.
  revert bs. induction n as [|n IH]; intros bs Hn.
  { destruct bs; [reflexivity | cbn in Hn; lia]. }
  destruct bs as [|a [|b [|c rest]]]; [reflexivity | | |].
  - pose proof (Byte.to_N_bounded a).
    cbn [b2a_base64 map]. fold (symbol (Byte.to_N a / 4)).
    fold (symbol (Byte.to_N a mod 4 * 16)).
    rewrite !a2b_loop_symbol by lia. cbn [option_map].
    same_byte a. reflexivity.
  - pose proof (Byte.to_N_bounded a). pose proof (Byte.to_N_bounded b).
    cbn [b2a_base64 map]. fold (symbol (Byte.to_N a / 4)).
    fold (symbol (Byte.to_N a mod 4 * 16 + Byte.to_N b / 16)).
    fold (symbol (Byte.to_N b mod 16 * 4)).
    rewrite !a2b_loop_symbol by lia. cbn [option_map].
    same_byte a. same_byte b. reflexivity.
  - pose proof (Byte.to_N_bounded a). pose proof (Byte.to_N_bounded b).
    pose proof (Byte.to_N_bounded c).
    cbn [b2a_base64 map]. fold (symbol (Byte.to_N a / 4)).
    fold (symbol (Byte.to_N a mod 4 * 16 + Byte.to_N b / 16)).
    fold (symbol (Byte.to_N b mod 16 * 4 + Byte.to_N c / 64)).
    fold (symbol (Byte.to_N c mod 64)).
    rewrite !a2b_loop_symbol by lia.
    rewrite IH by (cbn in Hn; lia). cbn [option_map].
    same_byte a. same_byte b. same_byte c. reflexivity.
Qed.

(** Decoding inverts encoding. *)
Lemma urlsafe_b64decode_encode bs :
  urlsafe_b64decode (urlsafe_b64encode bs) = Some bs.
Proof. apply (a2b_b2a_upto (length bs)). lia. Qed.

Lemma urlsafe_b64encode_inj bs bs' :
  urlsafe_b64encode bs = urlsafe_b64encode bs' -> bs = bs'.
Proof.
  intros H. apply (f_equal urlsafe_b64decode) in H.
  rewrite !urlsafe_b64decode_encode in H. congruence.
Qed.

(** The encoder emits ASCII only. *)
Lemma table_b2a_ascii v :
  ascii_byte (urlsafe_encode_translation (table_b2a v)) = true.
Proof.
  destruct (N.lt_ge_cases v 64) as [H|H].
  - assert (C : forallb (fun v => ascii_byte
                 (urlsafe_encode_translation (table_b2a v))) sextets = true)
      by (vm_compute; reflexivity).
    rewrite forallb_forall in C. apply C, in_sextets, H.
  - unfold table_b2a. rewrite nth_overflow; [reflexivity|].
    change (length alphabet) with 64%nat. lia.
Qed.

Lemma urlsafe_b64encode_ascii bs :
  forallb ascii_byte (urlsafe_b64encode bs) = true.
Proof.
  unfold urlsafe_b64encode.
  assert (G : forall n bs, (length bs <= n)%nat ->
            forallb ascii_byte
              (map urlsafe_encode_translation (b2a_base64 bs)) = true).
  { clear bs. induction n as [|n IH]; intros bs Hn.
    { destruct bs; [reflexivity | cbn in Hn; lia]. }
    destruct bs as [|a [|b [|c rest]]]; [reflexivity | | |];
      cbn [b2a_base64 map forallb]; rewrite ?table_b2a_ascii;
      [reflexivity | reflexivity |].
    rewrite IH by (cbn in Hn; lia). reflexivity. }
  apply (G (length bs)). lia.
Qed.

Lemma byte_xor_cancel a b : byte_xor (byte_xor a b) b = a.
Proof.
  unfold byte_xor.
  rewrite <- (Byte.of_bits_to_bits a) at 2.
  destruct (Byte.to_bits a)
    as (a0 & a1 & a2 & a3 & a4 & a5 & a6 & a7).
  destruct (Byte.to_bits b)
    as (b0 & b1 & b2 & b3 & b4 & b5 & b6 & b7).
  rewrite Byte.to_bits_of_bits.
  rewrite !xorb_assoc, !xorb_nilpotent, !xorb_false_r. reflexivity.
Qed.

Lemma xor_bytes_length a b :
  length a = length b -> length (xor_bytes a b) = length a.
Proof.
  revert b. induction a as [|x a IH]; intros [|y b] H;
    cbn in *; try lia. now rewrite IH by lia.
Qed.

Lemma xor_bytes_cancel a b :
  length a = length b -> xor_bytes (xor_bytes a b) b = a.
Proof.
  revert b. induction a as [|x a IH]; intros [|y b] H;
    cbn in *; try lia; [reflexivity|].
  now rewrite byte_xor_cancel, IH by lia.
Qed.

Lemma pkcs7_pad_length data :
  exists m, length (pkcs7_pad data) = (block_size * S m)%nat.
Proof.
  unfold pkcs7_pad, block_size. rewrite length_app, repeat_length.
  exists (length data / 16)%nat.
  pose proof (Nat.div_mod_eq (length data) 16).
  pose proof (Nat.mod_upper_bound (length data) 16). lia.
Qed.

Lemma last_app_repeat (l : bytes) x n d :
  List.last (l ++ repeat x (S n)) d = x.
Proof.
  cbn [repeat]. rewrite repeat_cons, app_assoc. apply last_last.
Qed.

Lemma pkcs7_unpad_pad data : pkcs7_unpad (pkcs7_pad data) = Some data.
Proof.
  destruct (pkcs7_pad_length data) as [m Hm].
  unfold pkcs7_unpad. rewrite Hm.
  replace (block_size * S m)%nat with (S m * block_size)%nat by lia.
  rewrite Nat.Div0.mod_mul.
  replace (Nat.eqb (S m * block_size) 0) with false
    by (symmetry; apply Nat.eqb_neq; unfold block_size; lia).
  cbn [orb negb Nat.eqb].
  unfold pkcs7_pad in *. unfold block_size in *.
  pose proof (Nat.mod_upper_bound (length data) 16).
  set (n := (16 - length data mod 16)%nat) in *.
  assert (Hn : (1 <= n <= 16)%nat) by lia.
  destruct n as [|n']; [lia|]. rewrite last_app_repeat.
  rewrite to_N_byte_of_N_small by lia. rewrite Nat2N.id.
  rewrite length_app, repeat_length in Hm.
  replace (S m * 16 - S n')%nat with (length data) by lia.
  rewrite drop_app_length, take_app_length.
  replace (Nat.leb 1 (S n') && Nat.leb (S n') 16) with true
    by (symmetry; apply andb_true_iff; split; apply Nat.leb_le; lia).
  replace (forallb _ _) with true; [reflexivity|].
  symmetry. apply forallb_forall. intros x Hx.
  apply repeat_spec in Hx as ->. now apply Byte.byte_dec_lb.
Qed.

(** ** The Fernet recipe *)

Lemma os_urandom_length rng n : length (os_urandom rng n) = n.
Proof. unfold os_urandom. now rewrite length_map, length_seq. Qed.

Lemma big_endian_length len n : length (big_endian len n) = len.
Proof.
  revert n. induction len as [|len IH]; intros n; cbn [big_endian].
  - reflexivity.
  - rewrite length_app, IH. cbn. lia.
Qed.

Lemma cbc_encrypt_blocks_step fuel key prev d data :
  cbc_encrypt_blocks (S fuel) key prev (d :: data) =
  aes_encrypt_block key (xor_bytes (firstn block_size (d :: data)) prev)
    ++ cbc_encrypt_blocks fuel key
         (aes_encrypt_block key
            (xor_bytes (firstn block_size (d :: data)) prev))
         (skipn block_size (d :: data)).
Proof. reflexivity. Qed.

Lemma cbc_decrypt_blocks_step fuel key prev d data :
  cbc_decrypt_blocks (S fuel) key prev (d :: data) =
  xor_bytes (aes_decrypt_block key (firstn block_size (d :: data))) prev
    ++ cbc_decrypt_blocks fuel key (firstn block_size (d :: data))
         (skipn block_size (d :: data)).
Proof. reflexivity. Qed.

(** Decrypting the blocks of a CBC encryption gives the data back, block
    for block. *)
Lemma cbc_blocks_inverse m :
  forall fuel fuel' key prev data,
    length key = 16%nat -> length prev = 16%nat ->
    length data = (16 * m)%nat -> (m <= fuel)%nat -> (m <= fuel')%nat ->
    length (cbc_encrypt_blocks fuel key prev data) = length data /\
    cbc_decrypt_blocks fuel' key prev
      (cbc_encrypt_blocks fuel key prev data) = data.
Proof using aes_block_length aes_decrypt_encrypt.
  induction m as [|m IH]; intros fuel fuel' key prev data Hk Hp Hd Hf Hf'.
  - destruct data; [|cbn in Hd; lia].
    destruct fuel; cbn [cbc_encrypt_blocks]; destruct fuel'; auto.
  - destruct fuel as [|fuel]; [lia|]. destruct fuel' as [|fuel']; [lia|].
    destruct data as [|d data]; [cbn in Hd; lia|].
    rewrite cbc_encrypt_blocks_step. unfold block_size.
    set (p := firstn 16 (d :: data)). set (rest := skipn 16 (d :: data)).
    assert (Hlp : length p = 16%nat)
      by (unfold p; rewrite length_take; lia).
    assert (Hlr : length rest = (16 * m)%nat)
      by (unfold rest; rewrite length_drop; lia).
    assert (Hx : length (xor_bytes p prev) = 16%nat)
      by (rewrite xor_bytes_length; lia).
    set (c := aes_encrypt_block key (xor_bytes p prev)).
    assert (Hc : length c = 16%nat) by (apply aes_block_length; lia).
    destruct (IH fuel fuel' key c rest Hk Hc Hlr) as [IH1 IH2]; [lia..|].
    split.
    + rewrite length_app, IH1, Hc, Hlr, Hd. lia.
    + destruct c as [|c0 c'] eqn:Ec; [cbn in Hc; lia|].
      cbn [app]. rewrite cbc_decrypt_blocks_step. unfold block_size.
      change (c0 :: c' ++ ?t) with ((c0 :: c') ++ t).
      rewrite <- Ec in *.
      rewrite take_app_length', drop_app_length' by lia.
      unfold c at 1. rewrite aes_decrypt_encrypt by lia.
      rewrite xor_bytes_cancel by lia. rewrite IH2.
      apply take_drop.
Qed.

Lemma CBC_decrypt_encrypt key iv data m :
  length key = 16%nat -> length iv = 16%nat ->
  length data = (16 * m)%nat ->
  exists ciphertext,
    CBC_encrypt key iv data = Ok ciphertext /\
    length ciphertext = length data /\
    CBC_decrypt key iv ciphertext = Ok data.
Proof using aes_block_length aes_decrypt_encrypt.
  intros Hk Hiv Hd.
  destruct (cbc_blocks_inverse m (length data) (length data) key iv data)
    as [H1 H2]; [lia..|].
  assert (Hmod : (length data mod block_size = 0)%nat).
  { unfold block_size. rewrite Hd, Nat.mul_comm. apply Nat.Div0.mod_mul. }
  exists (cbc_encrypt_blocks (length data) key iv data).
  unfold CBC_encrypt, CBC_decrypt.
  rewrite Hiv, H1, Hmod, H2. cbn [block_size Nat.eqb negb]. auto.
Qed.

(** A key accepted by the constructor has two halves of 16 octets. *)
Lemma Fernet__init__halves key f :
  Fernet__init__ key = Ok f ->
  length (_signing_key f) = 16%nat /\ length (_encryption_key f) = 16%nat.
Proof.
  unfold Fernet__init__.
  destruct (urlsafe_b64decode key) as [k|]; [|discriminate].
  destruct (Nat.eqb_spec (length k) 32); cbn [negb]; [|discriminate].
  intros [= <-]. cbn [_signing_key _encryption_key].
  rewrite length_take, length_drop. lia.
Qed.

Lemma to_bytes_8 now :
  (now < 2 ^ 64)%N ->
  exists time_bytes,
    to_bytes now 8 = Ok time_bytes /\ length time_bytes = 8%nat.
Proof.
  intros H. unfold to_bytes.
  change (256 ^ N.of_nat 8)%N with (2 ^ 64)%N.
  apply N.ltb_lt in H. rewrite H.
  eexists. split; [reflexivity | apply big_endian_length].
Qed.

(** What [Fernet.encrypt] returns, [Fernet.decrypt] reads back; the token
    is ASCII text and carries the IV in clear. *)
Lemma Fernet_decrypt_encrypt f now rng data :
  length (_encryption_key f) = 16%nat ->
  (now < 2 ^ 64)%N ->
  exists time_bytes ciphertext,
    length time_bytes = 8%nat /\
    Fernet_encrypt f now rng data =
      Ok (urlsafe_b64encode
            ((x80 :: time_bytes ++ os_urandom rng 16 ++ ciphertext)
               ++ hmac_sha256 (_signing_key f)
                    (x80 :: time_bytes ++ os_urandom rng 16 ++ ciphertext)))
    /\ Fernet_decrypt f
         (urlsafe_b64encode
            ((x80 :: time_bytes ++ os_urandom rng 16 ++ ciphertext)
               ++ hmac_sha256 (_signing_key f)
                    (x80 :: time_bytes ++ os_urandom rng 16 ++ ciphertext)))
       = Ok data.
Proof using aes_block_length aes_decrypt_encrypt hmac_length.
  intros Hk Hnow.
  destruct (to_bytes_8 now Hnow) as (ts & Ets & Hts).
  destruct (pkcs7_pad_length data) as [m Hm].
  pose proof (os_urandom_length rng 16) as Hiv.
  destruct (CBC_decrypt_encrypt (_encryption_key f) (os_urandom rng 16)
              (pkcs7_pad data) (S m) Hk Hiv Hm) as (ct & Ect & Hct & Dct).
  exists ts, ct. split; [exact Hts|].
  unfold Fernet_encrypt, _encrypt_from_parts.
  rewrite Ect, Ets. cbn [rbind]. split; [reflexivity|].
  set (iv := os_urandom rng 16) in *.
  set (basic := x80 :: ts ++ iv ++ ct).
  set (mac := hmac_sha256 (_signing_key f) basic).
  assert (Hmac : length mac = 32%nat) by apply hmac_length.
  assert (Hbasic : length basic = (25 + length ct)%nat).
  { unfold basic. cbn [length]. rewrite !length_app. lia. }
  unfold Fernet_decrypt, _get_unverified_token_data.
  rewrite urlsafe_b64decode_encode.
  assert (Hlen : length (basic ++ mac) = (57 + length ct)%nat)
    by (rewrite length_app; lia).
  unfold basic at 1. cbn [app]. fold basic.
  change (x80 :: (ts ++ iv ++ ct) ++ mac) with (basic ++ mac).
  replace (Nat.ltb (length (basic ++ mac)) 9) with false
    by (symmetry; apply Nat.ltb_ge; lia).
  replace (Byte.eqb x80 x80) with true by reflexivity.
  cbn [negb rbind snd].
  unfold _decrypt_data, _verify_signature.
  rewrite take_app_length', drop_app_length' by lia.
  fold mac. rewrite bool_decide_true by reflexivity. cbn [rbind].
  replace (basic ++ mac) with ((x80 :: ts) ++ iv ++ ct ++ mac)
    by (unfold basic; cbn [app]; now rewrite <- !app_assoc).
  replace (drop 9 ((x80 :: ts) ++ iv ++ ct ++ mac)) with (iv ++ ct ++ mac)
    by (symmetry; apply drop_app_length'; cbn [length]; lia).
  rewrite (take_app_length' iv) by lia.
  replace (drop 25 ((x80 :: ts) ++ iv ++ ct ++ mac)) with (ct ++ mac).
  2:{ rewrite (app_assoc (x80 :: ts) iv). symmetry.
      apply drop_app_length'. rewrite length_app. cbn [length]. lia. }
  rewrite take_app_length'.
  2:{ rewrite !length_app. cbn [length]. lia. }
  rewrite Hiv. cbn [block_size Nat.eqb negb].
  rewrite Dct. cbn [of_option]. now rewrite pkcs7_unpad_pad.
Qed.

(** Token text: [bytes.decode()] maps it octet by octet, and
    [str.encode()] maps it back. *)
Lemma token_text bs :
  decode (urlsafe_b64encode bs) = Ok (map Byte.to_N (urlsafe_b64encode bs))
  /\ encode (map Byte.to_N (urlsafe_b64encode bs))
     = Ok (urlsafe_b64encode bs).
Proof.
  pose proof (urlsafe_b64encode_ascii bs) as H. unfold decode, encode.
  now rewrite (utf8_decode_ascii _ H), (utf8_encode_ascii _ H).
Qed.

Lemma map_to_N_inj (a b : bytes) :
  map Byte.to_N a = map Byte.to_N b -> a = b.
Proof.
  revert b. induction a as [|x a IH]; intros [|y b] H; try discriminate.
  - reflexivity.
  - cbn in H. injection H as Hxy Hab.
    f_equal; [now apply to_N_inj | now apply IH].
Qed.

(** ** Encrypting and decrypting a password *)

(** The text [encrypt_password] returns for an encodable password, with
    the parts of the token it encodes, and what [decrypt_password] makes
    of it. *)
Lemma encrypt_password_token key self now rng P :
  Fernet__init__ key = Ok (fernet self) ->
  encodable P = true ->
  (now < 2 ^ 64)%N ->
  exists time_bytes rest,
    length time_bytes = 8%nat /\
    encrypt_password self now rng P =
      Ok (map Byte.to_N
            (urlsafe_b64encode
               (x80 :: time_bytes ++ os_urandom rng 16 ++ rest))) /\
    decrypt_password self
      (map Byte.to_N
         (urlsafe_b64encode
            (x80 :: time_bytes ++ os_urandom rng 16 ++ rest))) = Ok P.
Proof.
  intros Hkey HP Hnow.
  apply Fernet__init__halves in Hkey as [_ Hk].
  apply utf8_encode_encodable in HP as [data Hdata].
  destruct (Fernet_decrypt_encrypt (fernet self) now rng data Hk Hnow)
    as (ts & ct & Hts & Enc & Dec).
  set (basic := x80 :: ts ++ os_urandom rng 16 ++ ct) in *.
  set (mac := hmac_sha256 (_signing_key (fernet self)) basic) in *.
  exists ts, (ct ++ mac). split; [exact Hts|].
  replace (x80 :: ts ++ os_urandom rng 16 ++ ct ++ mac) with (basic ++ mac)
    by (unfold basic; cbn [app]; now rewrite <- !app_assoc).
  destruct (token_text (basic ++ mac)) as [Hdec Henc].
  unfold encrypt_password, decrypt_password, encode at 1.
  rewrite Hdata. cbn [of_option rbind].
  rewrite Enc. cbn [rbind]. split; [exact Hdec|].
  rewrite Henc. cbn [rbind]. rewrite Dec. cbn [rbind].
  unfold decode. now rewrite (utf8_decode_encode _ _ Hdata).
Qed.

(** C1.  Round trip: for a manager holding a key accepted by [Fernet],
    every encodable password, once encrypted (at any time and with any
    entropy), decrypts to itself. *)
Theorem decrypt_encrypt_password key self now rng P :
  Fernet__init__ key = Ok (fernet self) ->
  encodable P = true ->
  (now < 2 ^ 64)%N ->
  exists E,
    encrypt_password self now rng P = Ok E /\
    decrypt_password self E = Ok P.
Proof.
  intros Hkey HP Hnow.
  destruct (encrypt_password_token key self now rng P Hkey HP Hnow)
    as (ts & rest & _ & Enc & Dec).
  eauto.
Qed.

(** C4.  Nonce freshness: two encryptions of the same password under the
    same key whose 16-octet IV draws differ give different ciphertexts,
    and both decrypt to the password. *)
Theorem encrypt_password_fresh key self now1 now2 rng1 rng2 P :
  Fernet__init__ key = Ok (fernet self) ->
  encodable P = true ->
  (now1 < 2 ^ 64)%N -> (now2 < 2 ^ 64)%N ->
  os_urandom rng1 16 <> os_urandom rng2 16 ->
  exists E1 E2,
    encrypt_password self now1 rng1 P = Ok E1 /\
    encrypt_password self now2 rng2 P = Ok E2 /\
    E1 <> E2 /\
    decrypt_password self E1 = Ok P /\
    decrypt_password self E2 = Ok P.
Proof.
  intros Hkey HP Hnow1 Hnow2 Hiv.
  destruct (encrypt_password_token key self now1 rng1 P Hkey HP Hnow1)
    as (ts1 & rest1 & Hts1 & Enc1 & Dec1).
  destruct (encrypt_password_token key self now2 rng2 P Hkey HP Hnow2)
    as (ts2 & rest2 & Hts2 & Enc2 & Dec2).
  do 2 eexists. repeat split; [exact Enc1 | exact Enc2 | | exact Dec1
                              | exact Dec2].
  intros E. apply map_to_N_inj, urlsafe_b64encode_inj in E.
  assert (E' : ts1 ++ os_urandom rng1 16 ++ rest1
               = ts2 ++ os_urandom rng2 16 ++ rest2) by congruence.
  destruct (app_inj_1 ts1 ts2 _ _ (eq_trans Hts1 (eq_sym Hts2)) E')
    as [_ E''].
  destruct (app_inj_1 (os_urandom rng1 16) (os_urandom rng2 16) rest1 rest2)
    as [E3 _]; [now rewrite !os_urandom_length | exact E'' |].
  contradiction.
Qed.

(** ** The key file *)

Lemma generate_key_accepted rng :
  Fernet__init__ (generate_key rng) =
  Ok {| _signing_key := firstn 16 (os_urandom rng 32);
        _encryption_key := skipn 16 (os_urandom rng 32) |}.
Proof.
  unfold Fernet__init__, generate_key.
  now rewrite urlsafe_b64decode_encode, os_urandom_length.
Qed.

Lemma b2a_base64_nonempty b bs : b2a_base64 (b :: bs) <> [].
Proof. destruct bs as [|c [|d bs]]; discriminate. Qed.

Lemma generate_key_nonempty rng : generate_key rng <> [].
Proof.
  unfold generate_key, urlsafe_b64encode, os_urandom.
  cbn [seq map]. intros H. apply map_eq_nil in H.
  now apply b2a_base64_nonempty in H.
Qed.


(** With no file at a path that names one, a key is generated, written
    and loaded. *)
Lemma key_created key_file rng w :
  files w !! key_file = None ->
  key_file <> [] ->
  _initialize_encryption key_file rng w =
  (Ok {| _signing_key := firstn 16 (os_urandom rng 32);
         _encryption_key := skipn 16 (os_urandom rng 32) |},
   set_files w (<[key_file := generate_key rng]> (files w))).
Proof.
  intros H Hne.
  unfold _initialize_encryption, bind, os_path_exists, write_file, ret, lift.
  cbv beta iota. rewrite H. cbv beta iota.
  rewrite bool_decide_false by exact Hne.
  now rewrite generate_key_accepted.
Qed.

(** The empty path names no file: the key that was generated cannot be
    written, and the error of [open] is what the call raises. *)
Lemma key_not_written rng w :
  files w !! [] = None ->
  _initialize_encryption [] rng w = (Raise FileNotFoundError, w).
Proof.
  intros H.
  unfold _initialize_encryption, bind, os_path_exists, write_file, ret, lift.
  cbv beta iota. rewrite H. cbv beta iota.
  now rewrite bool_decide_true by reflexivity.
Qed.

(** A first call that returns has written the key it returns. *)
Lemma key_created_inv key_file rng w f w1 :
  files w !! key_file = None ->
  _initialize_encryption key_file rng w = (Ok f, w1) ->
  key_file <> [] /\
  f = {| _signing_key := firstn 16 (os_urandom rng 32);
         _encryption_key := skipn 16 (os_urandom rng 32) |} /\
  w1 = set_files w (<[key_file := generate_key rng]> (files w)).
Proof.
  intros E H. destruct (decide (key_file = [])) as [->|Hne].
  - rewrite (key_not_written _ _ E) in H. discriminate.
  - rewrite (key_created _ _ _ E Hne) in H. injection H as <- <-. auto.
Qed.

(** With a file at the path, its content is what [Fernet] is given, and
    nothing is written. *)
Lemma key_loaded key_file rng w content :
  files w !! key_file = Some content ->
  _initialize_encryption key_file rng w = (Fernet__init__ content, w).
Proof.
  intros H.
  unfold _initialize_encryption, bind, os_path_exists, read_file, lift.
  cbv beta iota. rewrite H. cbv beta iota. rewrite H. reflexivity.
Qed.

(** The key a manager is constructed with is one [Fernet] accepted. *)
Lemma initialize_encryption_key key_file rng w f w1 :
  _initialize_encryption key_file rng w = (Ok f, w1) ->
  exists key, Fernet__init__ key = Ok f.
Proof.
  intros H. destruct (files w !! key_file) as [content|] eqn:E.
  - rewrite (key_loaded _ _ _ _ E) in H. injection H as H _. eauto.
  - destruct (key_created_inv _ _ _ _ _ E H) as (_ & -> & _).
    eexists. apply generate_key_accepted.
Qed.

Lemma init_key_accepted db_name key_file rng w self w' :
  __init__ db_name key_file rng w = (Ok self, w') ->
  exists key, Fernet__init__ key = Ok (fernet self).
Proof.
  unfold __init__, bind, sqlite3_connect.
  destruct (_initialize_encryption key_file rng (set_connected w true))
    as [[f|e] w2] eqn:E; [|discriminate].
  destruct (create_table w2) as [[[]|e] w3]; [|discriminate].
  unfold ret. intros [= <- _]. cbn [fernet].
  now apply (initialize_encryption_key _ _ _ _ _ E).
Qed.


(** C6, as amended.  A key file is read as the url-safe base64 text of the
    key: loading succeeds when the text decodes to exactly 32 octets, and
    raises [ValueError], leaving the file as it is, in every other
    case. *)
Theorem corrupt_key_file_detected key_file rng w content :
  files w !! key_file = Some content ->
  ((exists k, urlsafe_b64decode content = Some k /\ length k = 32%nat) ->
   exists f, _initialize_encryption key_file rng w = (Ok f, w)) /\
  (~ (exists k, urlsafe_b64decode content = Some k /\ length k = 32%nat) ->
   _initialize_encryption key_file rng w = (Raise ValueError, w)).
Proof.
  intros H. rewrite (key_loaded _ _ _ _ H). unfold Fernet__init__.
  split.
  - intros (k & -> & Hk). rewrite Hk. cbn. eauto.
  - intros Hno. destruct (urlsafe_b64decode content) as [k|]; [|reflexivity].
    destruct (Nat.eqb_spec (length k) 32); [|reflexivity].
    exfalso. eauto.
Qed.

(** ** The password policy *)

Lemma mem_In m l : In m l <-> mem m l = true.
Proof.
  unfold mem. rewrite existsb_exists. split.
  - intros H. exists m. split; [exact H | now apply bool_decide_true].
  - intros (e & He & Hm). now apply bool_decide_eq_true in Hm as <-.
Qed.

Lemma re_search_contains class s :
  re_search class s = true <-> contains (fun c => class c = true) s.
Proof. unfold re_search, contains. apply existsb_exists. Qed.

Lemma re_search_absent class s :
  re_search class s = false <-> ~ contains (fun c => class c = true) s.
Proof.
  rewrite <- re_search_contains. now destruct (re_search class s).
Qed.

Lemma upper_range c : upper c = true <-> (65 <= c <= 90)%N.
Proof. unfold upper. rewrite andb_true_iff, !N.leb_le. tauto. Qed.

Lemma lower_range c : lower c = true <-> (97 <= c <= 122)%N.
Proof. unfold lower. rewrite andb_true_iff, !N.leb_le. tauto. Qed.

Lemma special_listed c : special c = true <-> In c special_characters.
Proof.
  unfold special. rewrite existsb_exists. split.
  - intros (x & Hx & E). now apply N.eqb_eq in E as ->.
  - intros H. exists c. split; [exact H | apply N.eqb_refl].
Qed.

Lemma contains_iff (P Q : N -> Prop) s :
  (forall c, P c <-> Q c) -> contains P s <-> contains Q s.
Proof.
  intros H. unfold contains.
  split; intros (c & Hc & Hp); exists c; split; auto; now apply H.
Qed.

(** On ASCII text the parameter [isdecimal] is the test for 0 to 9. *)
Lemma re_search_isdecimal_ascii s :
  forallb (fun c => (c <? 128)%N) s = true ->
  re_search isdecimal s = re_search ascii_digit s.
Proof using isdecimal_ascii.
  unfold re_search. induction s as [|c s IH]; [reflexivity|].
  cbn [forallb existsb]. intros H. apply andb_true_iff in H as [Hc Hs].
  apply N.ltb_lt in Hc. now rewrite (isdecimal_ascii c Hc), (IH Hs).
Qed.

Ltac settle_messages :=
  repeat split; rewrite ?mem_In; vm_compute; intuition congruence.

(** The error list of [validate_password], check by check. *)
Lemma validate_password_errors password :
  let '(ok, errors) := validate_password password in
  (ok = true <-> errors = []) /\
  (In msg_length errors <-> Nat.ltb (length password) 8 = true) /\
  (In msg_upper errors <-> re_search upper password = false) /\
  (In msg_lower errors <-> re_search lower password = false) /\
  (In msg_digit errors <-> re_search isdecimal password = false) /\
  (In msg_special errors <-> re_search special password = false).
Proof.
  unfold validate_password.
  destruct (Nat.ltb (length password) 8), (re_search upper password),
    (re_search lower password), (re_search isdecimal password),
    (re_search special password); cbn [negb app]; settle_messages.
Qed.

Lemma validate_password_order password :
  sublist (snd (validate_password password)) policy_messages.
Proof.
  unfold validate_password, policy_messages.
  destruct (Nat.ltb (length password) 8), (re_search upper password),
    (re_search lower password), (re_search isdecimal password),
    (re_search special password); cbn [negb app snd];
    repeat first [ apply sublist_nil | apply sublist_skip
                 | apply sublist_cons ].
Qed.

Lemma validate_password_ascii s :
  forallb (fun c => (c <? 128)%N) s = true ->
  validate_password s =
  (Nat.eqb
     (length
        ((if Nat.ltb (length s) 8 then [msg_length] else [])
           ++ (if re_search upper s then [] else [msg_upper])
           ++ (if re_search lower s then [] else [msg_lower])
           ++ (if re_search ascii_digit s then [] else [msg_digit])
           ++ (if re_search special s then [] else [msg_special]))) 0,
   (if Nat.ltb (length s) 8 then [msg_length] else [])
     ++ (if re_search upper s then [] else [msg_upper])
     ++ (if re_search lower s then [] else [msg_lower])
     ++ (if re_search ascii_digit s then [] else [msg_digit])
     ++ (if re_search special s then [] else [msg_special])).
Proof using isdecimal_ascii.
  intros H. unfold validate_password.
  rewrite (re_search_isdecimal_ascii s H).
  destruct (Nat.ltb (length s) 8), (re_search upper s),
    (re_search lower s), (re_search ascii_digit s),
    (re_search special s); reflexivity.
Qed.

Lemma validate_password_samples :
  validate_password (lit "Ab1!") = (false, [msg_length]) /\
  validate_password (lit "mypass123!") = (false, [msg_upper]) /\
  validate_password (lit "MYPASS123!") = (false, [msg_lower]) /\
  validate_password (lit "MyPassword!") = (false, [msg_digit]) /\
  validate_password (lit "MyPassword123") = (false, [msg_special]) /\
  validate_password (lit "MyPass123!") = (true, []).
Proof using isdecimal_ascii.
  rewrite !validate_password_ascii by (vm_compute; reflexivity).
  vm_compute. tauto.
Qed.

Lemma no_message errors :
  sublist errors policy_messages ->
  errors = [] <->
  ~ In msg_length errors /\ ~ In msg_upper errors /\
  ~ In msg_lower errors /\ ~ In msg_digit errors /\
  ~ In msg_special errors.
Proof.
  intros Ho. split; [intros ->; cbn [In]; tauto|].
  intros (N1 & N2 & N3 & N4 & N5).
  destruct errors as [|e errors]; [reflexivity|]. exfalso.
  assert (He : In e policy_messages).
  { apply list_elem_of_In. eapply elem_of_sublist; [|exact Ho].
    apply list_elem_of_In. now left. }
  unfold policy_messages in He. cbn [In] in He.
  destruct He as [<-|[<-|[<-|[<-|[<-|[]]]]]];
    [apply N1 | apply N2 | apply N3 | apply N4 | apply N5]; now left.
Qed.

Lemma contains_or_not class s :
  contains (fun c => class c = true) s \/
  ~ contains (fun c => class c = true) s.
Proof.
  destruct (re_search class s) eqn:E;
    [left; now apply re_search_contains | right; now apply re_search_absent].
Qed.

(** C9.  The policy validator: it accepts exactly the passwords of at
    least 8 characters with an uppercase letter, a lowercase letter, a
    decimal digit and a character of the punctuation set; each failed
    check contributes its message, and the messages always come in the
    order of the checks; the six sample passwords behave as listed. *)
Theorem validate_password_policy password :
  let '(ok, errors) := validate_password password in
  (ok = true <-> errors = []) /\
  (ok = true <->
     (8 <= length password)%nat /\
     contains (fun c => (65 <= c <= 90)%N) password /\
     contains (fun c => (97 <= c <= 122)%N) password /\
     contains (fun c => isdecimal c = true) password /\
     contains (fun c => In c special_characters) password) /\
  sublist errors policy_messages /\
  (In msg_length errors <-> (length password < 8)%nat) /\
  (In msg_upper errors <->
     ~ contains (fun c => (65 <= c <= 90)%N) password) /\
  (In msg_lower errors <->
     ~ contains (fun c => (97 <= c <= 122)%N) password) /\
  (In msg_digit errors <->
     ~ contains (fun c => isdecimal c = true) password) /\
  (In msg_special errors <->
     ~ contains (fun c => In c special_characters) password) /\
  validate_password (lit "Ab1!") = (false, [msg_length]) /\
  validate_password (lit "mypass123!") = (false, [msg_upper]) /\
  validate_password (lit "MYPASS123!") = (false, [msg_lower]) /\
  validate_password (lit "MyPassword!") = (false, [msg_digit]) /\
  validate_password (lit "MyPassword123") = (false, [msg_special]) /\
  validate_password (lit "MyPass123!") = (true, []).
Proof using isdecimal_ascii.
  pose proof (validate_password_errors password) as He.
  pose proof (validate_password_order password) as Ho.
  pose proof validate_password_samples as Hs.
  destruct (validate_password password) as [ok errors].
  cbn [snd] in Ho.
  destruct He as (Hok & H1 & H2 & H3 & H4 & H5).
  rewrite Nat.ltb_lt in H1.
  rewrite re_search_absent in H2, H3, H4, H5.
  pose proof (contains_or_not upper password) as D2.
  pose proof (contains_or_not lower password) as D3.
  pose proof (contains_or_not isdecimal password) as D4.
  pose proof (contains_or_not special password) as D5.
  rewrite (contains_iff _ _ _ upper_range) in H2, D2.
  rewrite (contains_iff _ _ _ lower_range) in H3, D3.
  rewrite (contains_iff _ _ _ special_listed) in H5, D5.
  pose proof (no_message errors Ho) as Hempty.
  split; [exact Hok|].
  split; [|split; [exact Ho|]].
  - rewrite Hok, Hempty, H1, H2, H3, H4, H5.
    split; [intros (N1 & N2 & N3 & N4 & N5) | intros (L & C2 & C3 & C4 & C5)].
    + split; [lia | tauto].
    + split; [lia | tauto].
  - split; [exact H1|]. split; [exact H2|]. split; [exact H3|].
    split; [exact H4|]. split; [exact H5|]. exact Hs.
Qed.

(** ** Which actions touch the store *)

Lemma same_store_refl w : same_store w w.
Proof. now repeat split. Qed.

Lemma same_store_trans w1 w2 w3 :
  same_store w1 w2 -> same_store w2 w3 -> same_store w1 w3.
Proof.
  intros (F1 & P1 & S1 & C1) (F2 & P2 & S2 & C2).
  repeat split; congruence.
Qed.

Lemma same_then_put S w1 w2 w3 :
  same_store w1 w2 -> put_effect S w2 w3 -> put_effect S w1 w3.
Proof.
  intros H12 [H23|H23]; [left; eapply same_store_trans; eauto|].
  destruct H12 as (F1 & P1 & S1 & C1).
  destruct H23 as (rows & E & Hp & Hn & Hp' & Hs & Hf & Hc).
  right. exists rows, E. rewrite <- S1. repeat split; congruence.
Qed.

Lemma put_then_same S w1 w2 w3 :
  put_effect S w1 w2 -> same_store w2 w3 -> put_effect S w1 w3.
Proof.
  intros [H12|H12] H23; [left; eapply same_store_trans; eauto|].
  destruct H23 as (F2 & P2 & S2 & C2).
  destruct H12 as (rows & E & Hp & Hn & Hp' & Hs & Hf & Hc).
  right. exists rows, E. repeat split; congruence.
Qed.

Lemma quiet_ret {A} (a : A) : quiet (ret a).
Proof. intros w. apply same_store_refl. Qed.

Lemma quiet_lift {A} (r : result A) : quiet (lift r).
Proof. intros w. apply same_store_refl. Qed.

Lemma quiet_print s : quiet (print s).
Proof. intros w. now repeat split. Qed.

Lemma quiet_print_exn s e : quiet (print_exn s e).
Proof. intros w. now repeat split. Qed.

Lemma quiet_getpass prompt : quiet (getpass prompt).
Proof.
  intros w. unfold getpass. destruct (stdin w); now repeat split.
Qed.

Lemma quiet_commit : quiet commit.
Proof.
  intros w. unfold commit. destruct (connected w); apply same_store_refl.
Qed.

Lemma quiet_execute_select S : quiet (execute_select S).
Proof.
  intros w. unfold execute_select.
  destruct (connected w), (passwords w), (encodable S);
    apply same_store_refl.
Qed.

Lemma quiet_bind {A B} (m : M A) (k : A -> M B) :
  quiet m -> (forall a, quiet (k a)) -> quiet (bind m k).
Proof.
  intros Hm Hk w. unfold bind. specialize (Hm w).
  destruct (m w) as [[a|e] w']; cbn [snd] in *; [|exact Hm].
  eapply same_store_trans; [exact Hm | apply Hk].
Qed.

Lemma quiet_try {A} (m : M A) (h : exn -> M A) :
  quiet m -> (forall e, quiet (h e)) -> quiet (try_except m h).
Proof.
  intros Hm Hh w. unfold try_except. specialize (Hm w).
  destruct (m w) as [[a|e] w']; cbn [snd] in *; [exact Hm|].
  eapply same_store_trans; [exact Hm | apply Hh].
Qed.

Lemma quiet_print_each l : quiet (print_each l).
Proof.
  induction l as [|s l IH]; cbn [print_each]; [apply quiet_ret|].
  apply quiet_bind; [apply quiet_print | intros _; exact IH].
Qed.

Lemma quiet_confirm_loop password attempts max_attempts_confirm :
  quiet (confirm_loop password attempts max_attempts_confirm).
Proof.
  induction attempts as [|a attempts IH]; cbn [confirm_loop];
    [apply quiet_ret|].
  apply quiet_bind; [apply quiet_getpass | intros confirm].
  destruct (bool_decide (password = confirm)); [apply quiet_ret|].
  apply quiet_bind; [apply quiet_print | intros _].
  destruct (Nat.ltb a max_attempts_confirm);
    (apply quiet_bind; [apply quiet_print | intros _]);
    [exact IH | apply quiet_ret].
Qed.

Lemma puts_quiet S {A} (m : M A) : quiet m -> puts S m.
Proof. intros H w. left. apply H. Qed.

Lemma puts_after_quiet S {A B} (m : M A) (k : A -> M B) :
  quiet m -> (forall a, puts S (k a)) -> puts S (bind m k).
Proof.
  intros Hm Hk w. unfold bind. specialize (Hm w).
  destruct (m w) as [[a|e] w']; cbn [snd] in *; [|now left].
  eapply same_then_put; [exact Hm | apply Hk].
Qed.

Lemma puts_before_quiet S {A B} (m : M A) (k : A -> M B) :
  puts S m -> (forall a, quiet (k a)) -> puts S (bind m k).
Proof.
  intros Hm Hk w. unfold bind. specialize (Hm w).
  destruct (m w) as [[a|e] w']; cbn [snd] in *; [|exact Hm].
  eapply put_then_same; [exact Hm | apply Hk].
Qed.

Lemma puts_try S {A} (m : M A) (h : exn -> M A) :
  puts S m -> (forall e, quiet (h e)) -> puts S (try_except m h).
Proof.
  intros Hm Hh w. unfold try_except. specialize (Hm w).
  destruct (m w) as [[a|e] w']; cbn [snd] in *; [exact Hm|].
  eapply put_then_same; [exact Hm | apply Hh].
Qed.

Lemma puts_execute_insert S E : puts S (execute_insert S E).
Proof.
  intros w. unfold execute_insert.
  destruct (connected w); [|left; apply same_store_refl].
  destruct (passwords w) as [rows|] eqn:Hp; [|left; apply same_store_refl].
  destruct (negb (encodable S && encodable E));
    [left; apply same_store_refl|].
  destruct (existsb (same_service S) rows) eqn:Hn;
    [left; apply same_store_refl|].
  right. exists rows, E. cbn. now repeat split.
Qed.

Lemma puts_save_password self S now rng password :
  puts S (save_password self S now rng password).
Proof.
  unfold save_password. apply puts_try.
  - apply puts_after_quiet; [apply quiet_lift | intros encrypted].
    apply puts_before_quiet; [apply puts_execute_insert | intros _].
    apply quiet_bind; [apply quiet_commit | intros _; apply quiet_print].
  - intros []; first [apply quiet_print | apply quiet_print_exn].
Qed.

Lemma puts_add_password_loop self S now rng attempts max_attempts :
  puts S (add_password_loop self S now rng attempts max_attempts).
Proof.
  induction attempts as [|a attempts IH]; cbn [add_password_loop];
    [apply puts_quiet, quiet_ret|].
  apply puts_after_quiet; [apply quiet_getpass | intros password].
  destruct (validate_password password) as [[|] errors]; cbn [negb].
  - apply puts_after_quiet; [apply quiet_confirm_loop | intros [|]];
      [apply puts_save_password | apply puts_quiet, quiet_ret].
  - apply puts_after_quiet; [apply quiet_print | intros _].
    apply puts_after_quiet; [apply quiet_print_each | intros _].
    destruct (Nat.ltb a max_attempts);
      (apply puts_after_quiet; [apply quiet_print | intros _]);
      [exact IH | apply puts_quiet, quiet_ret].
Qed.

(** Whatever is typed, [add_password] leaves the store as it is or adds
    one record for the service; [get_password] leaves it as it is. *)
Lemma puts_add_password self S now rng :
  puts S (add_password self S now rng).
Proof. apply puts_add_password_loop. Qed.

Lemma quiet_get_password self S : quiet (get_password self S).
Proof.
  unfold get_password. apply quiet_try.
  - apply quiet_bind; [apply quiet_execute_select | intros [[s p]|]].
    + apply quiet_bind; [apply quiet_lift | intros decrypted].
      apply quiet_bind; [apply quiet_print | intros _].
      apply quiet_bind; [apply quiet_print | intros _; apply quiet_ret].
    + apply quiet_bind; [apply quiet_print | intros _; apply quiet_ret].
  - intros e. apply quiet_bind;
      [apply quiet_print_exn | intros _; apply quiet_ret].
Qed.

(** ** Running the methods *)

Lemma bind_ok {A B} (m : M A) (k : A -> M B) w a w' :
  m w = (Ok a, w') -> bind m k w = k a w'.
Proof. intros H. unfold bind. now rewrite H. Qed.

Lemma getpass_typed prompt (w : world) typed rest :
  stdin w = typed :: rest ->
  getpass prompt w = (Ok typed, set_stdin w rest).
Proof. intros H. unfold getpass. now rewrite H. Qed.

(** The confirmation succeeds at once when the same text is typed. *)
Lemma confirm_loop_same Y attempt attempts max (w : world) rest :
  stdin w = Y :: rest ->
  confirm_loop Y (attempt :: attempts) max w = (Ok true, set_stdin w rest).
Proof.
  intros H. cbn [confirm_loop].
  rewrite (bind_ok _ _ _ _ _ (getpass_typed _ _ _ _ H)).
  now rewrite bool_decide_true by reflexivity.
Qed.

(** A valid password typed and then typed again: the method goes to its
    [try] block with the two lines consumed. *)
Lemma add_password_confirmed self S now rng (w : world) Y rest errors :
  stdin w = Y :: Y :: rest ->
  validate_password Y = (true, errors) ->
  add_password self S now rng w =
  save_password self S now rng Y (set_stdin w rest).
Proof.
  intros Hin Hv. unfold add_password. cbn [seq add_password_loop].
  rewrite (bind_ok _ _ _ _ _ (getpass_typed _ _ _ _ Hin)).
  rewrite Hv. cbn [negb].
  rewrite (bind_ok _ _ _ true (set_stdin (set_stdin w (Y :: rest)) rest));
    [reflexivity | now apply confirm_loop_same].
Qed.

Lemma encodable_ascii bs :
  forallb ascii_byte bs = true -> encodable (map Byte.to_N bs) = true.
Proof.
  intros H. apply utf8_encode_encodable. exists bs.
  now apply utf8_encode_ascii.
Qed.

(** The ciphertext of an encodable password is itself encodable. *)
Lemma encrypt_password_encodable key self now rng P :
  Fernet__init__ key = Ok (fernet self) ->
  encodable P = true ->
  (now < 2 ^ 64)%N ->
  exists E,
    encrypt_password self now rng P = Ok E /\ encodable E = true /\
    decrypt_password self E = Ok P.
Proof.
  intros Hkey HP Hnow.
  destruct (encrypt_password_token key self now rng P Hkey HP Hnow)
    as (ts & rest & _ & Enc & Dec).
  eexists. split; [exact Enc|]. split; [|exact Dec].
  apply encodable_ascii, urlsafe_b64encode_ascii.
Qed.

Lemma save_password_duplicate self S now rng Y E (w : world) rows :
  connected w = true -> passwords w = Some rows ->
  encodable S = true -> encodable E = true ->
  existsb (same_service S) rows = true ->
  encrypt_password self now rng Y = Ok E ->
  save_password self S now rng Y w =
  (Ok tt, set_stdout w (stdout w ++ [Text (exists_message S)])).
Proof.
  intros Hc Hp HS HE Hdup Henc.
  unfold save_password, try_except, bind, lift, execute_insert.
  rewrite Henc, Hc, Hp, HS, HE, Hdup. reflexivity.
Qed.

Lemma save_password_new self S now rng Y E (w : world) rows :
  connected w = true -> passwords w = Some rows ->
  encodable S = true -> encodable E = true ->
  existsb (same_service S) rows = false ->
  encrypt_password self now rng Y = Ok E ->
  save_password self S now rng Y w =
  (Ok tt,
   {| files := files w;
      passwords :=
        Some (rows ++ [{| row_id := N.succ (sqlite_sequence w);
                          service := S; password := E |}]);
      sqlite_sequence := N.succ (sqlite_sequence w);
      connected := true;
      stdin := stdin w;
      stdout := stdout w ++ [Text (saved_message S)] |}).
Proof.
  intros Hc Hp HS HE Hnew Henc.
  unfold save_password, try_except, bind, lift, execute_insert, commit.
  rewrite Henc, Hc, Hp, HS, HE, Hnew.
  cbn [negb andb connected set_table]. rewrite Hc.
  unfold print, set_stdout.
  cbn [connected set_table files passwords sqlite_sequence stdin stdout].
  now rewrite Hc.
Qed.

(** The four ways [get_password] ends. *)
Lemma get_password_found self S (w : world) rows r p :
  connected w = true -> passwords w = Some rows -> encodable S = true ->
  find (same_service S) rows = Some r ->
  decrypt_password self (password r) = Ok p ->
  get_password self S w =
  (Ok (Some p),
   set_stdout w
     ((stdout w ++ [Text (nl ++ lit "Service: " ++ S)])
        ++ [Text (lit "Password: " ++ p)])).
Proof.
  intros Hc Hp HS Hf Hd.
  unfold get_password, try_except, bind, execute_select, lift.
  rewrite Hc, Hp, HS, Hf. cbn [negb option_map]. rewrite Hd. reflexivity.
Qed.

Lemma get_password_undecryptable self S (w : world) rows r e :
  connected w = true -> passwords w = Some rows -> encodable S = true ->
  find (same_service S) rows = Some r ->
  decrypt_password self (password r) = Raise e ->
  get_password self S w =
  (Ok None,
   set_stdout w
     (stdout w ++ [TextExn (lit "Error retrieving password: ") e])).
Proof.
  intros Hc Hp HS Hf Hd.
  unfold get_password, try_except, bind, execute_select, lift.
  rewrite Hc, Hp, HS, Hf. cbn [negb option_map]. rewrite Hd. reflexivity.
Qed.

Lemma get_password_absent self S (w : world) rows :
  connected w = true -> passwords w = Some rows -> encodable S = true ->
  find (same_service S) rows = None ->
  get_password self S w =
  (Ok None,
   set_stdout w (stdout w ++ [Text (lit "No password found for " ++ S)])).
Proof.
  intros Hc Hp HS Hf.
  unfold get_password, try_except, bind, execute_select, lift.
  rewrite Hc, Hp, HS, Hf. reflexivity.
Qed.

Lemma get_password_lookup_error self S (w : world) :
  connected w = false \/ passwords w = None \/ encodable S = false ->
  exists e,
    get_password self S w =
    (Ok None,
     set_stdout w
       (stdout w ++ [TextExn (lit "Error retrieving password: ") e])).
Proof.
  intros H.
  unfold get_password, try_except, bind, execute_select.
  destruct (connected w); [|eauto].
  destruct (passwords w); [|eauto].
  destruct (encodable S); [|eauto].
  destruct H as [H|[H|H]]; discriminate.
Qed.

(** The value [get_password] returns depends on the store only. *)
Lemma get_password_same_store self S w w' :
  same_store w w' ->
  fst (get_password self S w') = fst (get_password self S w).
Proof.
  intros (_ & Hp & _ & Hc).
  unfold get_password, try_except, bind, execute_select, lift.
  rewrite Hp, Hc.
  destruct (connected w); [|reflexivity].
  destruct (passwords w) as [rows|]; [|reflexivity].
  destruct (encodable S); [|reflexivity]. cbn [negb].
  destruct (find (same_service S) rows) as [r|]; [|reflexivity].
  cbn [option_map].
  destruct (decrypt_password self (password r)); reflexivity.
Qed.

Lemma same_service_spec S r : same_service S r = true <-> service r = S.
Proof. unfold same_service. apply bool_decide_eq_true. Qed.

Lemma stored_iff S rows :
  existsb (same_service S) rows = true <->
  exists r, In r rows /\ service r = S.
Proof.
  rewrite existsb_exists.
  split; intros (r & Hr & E); exists r; split; auto;
    now apply same_service_spec.
Qed.

Lemma not_stored_iff S rows :
  existsb (same_service S) rows = false <-> ~ In S (map service rows).
Proof.
  rewrite in_map_iff. split.
  - intros H (r & E & Hr).
    assert (existsb (same_service S) rows = true)
      by (apply stored_iff; eauto).
    congruence.
  - intros H. destruct (existsb (same_service S) rows) eqn:E; auto.
    apply stored_iff in E as (r & Hr & E). exfalso. eauto.
Qed.

(** Under the uniqueness of service names the lookup returns the record
    of the service. *)
Lemma find_unique S rows r :
  NoDup (map service rows) -> In r rows -> service r = S ->
  find (same_service S) rows = Some r.
Proof.
  induction rows as [|r0 rows IH]; intros Hnd Hin Hs; [destruct Hin|].
  cbn [map] in Hnd. apply NoDup_cons in Hnd as [Hfresh Hnd].
  cbn [find]. destruct (same_service S r0) eqn:E.
  - destruct Hin as [->|Hin]; [reflexivity|]. exfalso.
    apply same_service_spec in E. apply Hfresh.
    apply list_elem_of_In, in_map_iff. exists r. split; [congruence|auto].
  - destruct Hin as [->|Hin]; [|now apply IH].
    apply same_service_spec in Hs. congruence.
Qed.

(** ** The uniqueness invariant *)

Lemma unique_same_store w w' :
  same_store w w' -> unique_services w -> unique_services w'.
Proof. intros (_ & Hp & _) H. unfold unique_services. now rewrite Hp. Qed.

Lemma unique_inserted S w w' :
  inserted S w w' -> unique_services w -> unique_services w'.
Proof.
  intros (rows & E & Hp & Hn & Hp' & _) H. unfold unique_services in *.
  rewrite Hp in H. rewrite Hp'. rewrite map_app. cbn [map service].
  apply NoDup_app. split; [exact H|]. split; [|apply NoDup_singleton].
  intros s Hs Hs'. apply list_elem_of_In in Hs.
  apply list_elem_of_singleton in Hs' as ->.
  now apply not_stored_iff in Hn.
Qed.

Lemma unique_put_effect S w w' :
  put_effect S w w' -> unique_services w -> unique_services w'.
Proof.
  intros [H|H]; [now apply unique_same_store | now apply (unique_inserted S)].
Qed.

(** [__init__] keeps the table, or creates it empty. *)
Lemma init_table db_name key_file rng w :
  passwords (snd (__init__ db_name key_file rng w)) = passwords w \/
  passwords (snd (__init__ db_name key_file rng w)) = Some [].
Proof.
  unfold __init__.
  rewrite (bind_ok _ _ w tt (set_connected w true)) by reflexivity.
  set (w1 := set_connected w true).
  assert (H : passwords (snd (_initialize_encryption key_file rng w1))
              = passwords w /\
              connected (snd (_initialize_encryption key_file rng w1))
              = true).
  { destruct (files w1 !! key_file) as [content|] eqn:E.
    - now rewrite (key_loaded _ _ _ _ E).
    - destruct (decide (key_file = [])) as [->|Hne].
      + now rewrite (key_not_written _ _ E).
      + now rewrite (key_created _ _ _ E Hne). }
  destruct (_initialize_encryption key_file rng w1) as [[f|e] w2] eqn:E;
    cbn [snd] in H; destruct H as [Hq Hc].
  - rewrite (bind_ok _ _ _ _ _ E).
    unfold create_table, execute_create_table, commit, ret, bind.
    rewrite Hc, Hq. destruct (passwords w) as [rows|] eqn:Hp.
    + rewrite Hc. cbn [snd]. left. congruence.
    + cbn [connected set_table]. rewrite Hc. cbn [snd passwords set_table].
      now right.
  - unfold bind. rewrite E. cbn [snd]. now left.
Qed.

Lemma operation_preserves w w' :
  unique_services w -> operation w w' -> unique_services w'.
Proof.
  intros H Hop. destruct Hop.
  - unfold unique_services in *.
    destruct (init_table db_name0 key_file0 rng w) as [-> | ->];
      [exact H | apply NoDup_nil_2].
  - eapply unique_put_effect; [apply puts_add_password | exact H].
  - eapply unique_same_store; [apply quiet_get_password | exact H].
  - exact H.
Qed.

(** ** Storing and retrieving *)

Lemma find_app_new S rows r :
  existsb (same_service S) rows = false -> service r = S ->
  find (same_service S) (rows ++ [r]) = Some r.
Proof.
  intros Hn Hs. induction rows as [|r0 rows IH]; cbn [app find existsb] in *.
  - now rewrite (proj2 (same_service_spec S r) Hs).
  - apply orb_false_iff in Hn as [-> Hn]. now apply IH.
Qed.

(** A record put under a free name is the one [get_password] decrypts:
    the password comes back as it was typed. *)
Lemma put_then_get key self S now rng (w : world) rows Y rest :
  Fernet__init__ key = Ok (fernet self) ->
  connected w = true -> passwords w = Some rows ->
  existsb (same_service S) rows = false ->
  encodable S = true ->
  stdin w = Y :: Y :: rest ->
  fst (validate_password Y) = true ->
  encodable Y = true ->
  (now < 2 ^ 64)%N ->
  fst (get_password self S (snd (add_password self S now rng w)))
  = Ok (Some Y).
Proof.
  intros Hkey Hc Hp Hn HS Hin Hv HY Hnow.
  destruct (validate_password Y) as [ok errors] eqn:Ev.
  cbn [fst] in Hv. subst ok.
  destruct (encrypt_password_encodable key self now rng Y Hkey HY Hnow)
    as (E & Enc & HE & Dec).
  rewrite (add_password_confirmed _ _ _ _ _ _ _ _ Hin Ev).
  rewrite (save_password_new self S now rng Y E (set_stdin w rest) rows
             Hc Hp HS HE Hn Enc).
  cbn [snd].
  erewrite get_password_found; [reflexivity | reflexivity | reflexivity
                               | exact HS | |].
  - now apply find_app_new.
  - exact Dec.
Qed.

(** C2.  Duplicate put: when a record for the service exists, whatever is
    typed, [add_password] leaves files, table, counter and connection
    exactly as they were, so [get_password] returns what it returned
    before: the plaintext of the stored record.  When a valid password is
    typed and confirmed, the method ends normally having printed only
    that the password already exists. *)
Theorem duplicate_put_no_mutation key self S now rng (w : world) rows :
  Fernet__init__ key = Ok (fernet self) ->
  connected w = true ->
  passwords w = Some rows ->
  (exists r, In r rows /\ service r = S) ->
  same_store w (snd (add_password self S now rng w)) /\
  fst (get_password self S (snd (add_password self S now rng w)))
  = fst (get_password self S w) /\
  (forall r X,
     NoDup (map service rows) -> In r rows -> service r = S ->
     encodable S = true ->
     decrypt_password self (password r) = Ok X ->
     fst (get_password self S (snd (add_password self S now rng w)))
     = Ok (Some X)) /\
  (forall Y rest,
     stdin w = Y :: Y :: rest ->
     fst (validate_password Y) = true ->
     encodable Y = true -> encodable S = true -> (now < 2 ^ 64)%N ->
     add_password self S now rng w =
     (Ok tt,
      set_stdout (set_stdin w rest)
        (stdout w ++ [Text (exists_message S)]))).
Proof.
  intros Hkey Hc Hp Hex.
  assert (Hdup : existsb (same_service S) rows = true)
    by now apply stored_iff.
  assert (Hsame : same_store w (snd (add_password self S now rng w))).
  { destruct (puts_add_password self S now rng w) as [H|H]; [exact H|].
    destruct H as (rows' & E & Hp' & Hn & _). congruence. }
  pose proof (get_password_same_store self S _ _ Hsame) as Hget.
  split; [exact Hsame|]. split; [exact Hget|]. split.
  - intros r X Hnd Hr Hs HS Hd. rewrite Hget.
    now rewrite (get_password_found self S w rows r X Hc Hp HS
                   (find_unique S rows r Hnd Hr Hs) Hd).
  - intros Y rest Hin Hv HY HS Hnow.
    destruct (validate_password Y) as [ok errors] eqn:Ev.
    cbn [fst] in Hv. subst ok.
    destruct (encrypt_password_encodable key self now rng Y Hkey HY Hnow)
      as (E & Enc & HE & _).
    rewrite (add_password_confirmed _ _ _ _ _ _ _ _ Hin Ev).
    now rewrite (save_password_duplicate self S now rng Y E
                   (set_stdin w rest) rows Hc Hp HS HE Hdup Enc).
Qed.

(** A put, then a put of another password under the same name: the
    second one changes nothing in the store and [get_password] returns
    the first password. *)
Lemma second_put_keeps_first key self S now1 rng1 now2 rng2 (w : world)
    rows X Y rest :
  Fernet__init__ key = Ok (fernet self) ->
  connected w = true -> passwords w = Some rows ->
  NoDup (map service rows) ->
  ~ (exists r, In r rows /\ service r = S) ->
  encodable S = true ->
  stdin w = X :: X :: Y :: Y :: rest ->
  fst (validate_password X) = true -> fst (validate_password Y) = true ->
  encodable X = true -> encodable Y = true ->
  (now1 < 2 ^ 64)%N -> (now2 < 2 ^ 64)%N ->
  same_store (snd (add_password self S now1 rng1 w))
    (snd (add_password self S now2 rng2
            (snd (add_password self S now1 rng1 w)))) /\
  stdout (snd (add_password self S now2 rng2
                 (snd (add_password self S now1 rng1 w))))
  = stdout w ++ [Text (saved_message S); Text (exists_message S)] /\
  fst (get_password self S
         (snd (add_password self S now2 rng2
                 (snd (add_password self S now1 rng1 w)))))
  = Ok (Some X).
Proof.
  intros Hkey Hc Hp Hnd Hno HS Hin HvX HvY HX HY Hnow1 Hnow2.
  assert (Hn : existsb (same_service S) rows = false).
  { destruct (existsb (same_service S) rows) eqn:E; [|reflexivity].
    apply stored_iff in E. contradiction. }
  destruct (validate_password X) as [okX errsX] eqn:EvX.
  destruct (validate_password Y) as [okY errsY] eqn:EvY.
  cbn [fst] in HvX, HvY. subst okX okY.
  destruct (encrypt_password_encodable key self now1 rng1 X Hkey HX Hnow1)
    as (E1 & Enc1 & HE1 & Dec1).
  destruct (encrypt_password_encodable key self now2 rng2 Y Hkey HY Hnow2)
    as (E2 & Enc2 & HE2 & _).
  rewrite (add_password_confirmed _ _ _ _ _ _ _ _ Hin EvX).
  rewrite (save_password_new self S now1 rng1 X E1
             (set_stdin w (Y :: Y :: rest)) rows Hc Hp HS HE1 Hn Enc1).
  cbn [snd].
  set (r1 := {| row_id := N.succ (sqlite_sequence w); service := S;
                password := E1 |}).
  set (w1 := {| files := _; passwords := _; sqlite_sequence := _;
                connected := _; stdin := _; stdout := _ |}).
  assert (Hdup : existsb (same_service S) (rows ++ [r1]) = true).
  { apply stored_iff. exists r1. split; [|reflexivity].
    apply in_or_app. right. now left. }
  rewrite (add_password_confirmed self S now2 rng2 w1 Y rest errsY
             eq_refl EvY).
  rewrite (save_password_duplicate self S now2 rng2 Y E2 (set_stdin w1 rest)
             (rows ++ [r1]) eq_refl eq_refl HS HE2 Hdup Enc2).
  cbn [snd]. split; [now repeat split|]. split.
  - cbn [stdout set_stdout set_stdin w1]. now rewrite <- app_assoc.
  - erewrite get_password_found;
      [reflexivity | reflexivity | reflexivity | exact HS
      | exact (find_app_new S rows r1 Hn eq_refl) | exact Dec1].
Qed.

(** C7, as amended.  No check of the service name: for any encodable
    name without a record, the empty name included, a valid password
    typed and confirmed is encrypted and inserted under that name, and
    reported as saved. *)
Theorem add_password_any_service key self S now rng (w : world) rows Y rest :
  Fernet__init__ key = Ok (fernet self) ->
  connected w = true ->
  passwords w = Some rows ->
  ~ (exists r, In r rows /\ service r = S) ->
  encodable S = true ->
  stdin w = Y :: Y :: rest ->
  fst (validate_password Y) = true ->
  encodable Y = true ->
  (now < 2 ^ 64)%N ->
  exists E,
    encrypt_password self now rng Y = Ok E /\
    add_password self S now rng w =
    (Ok tt,
     {| files := files w;
        passwords :=
          Some (rows ++ [{| row_id := N.succ (sqlite_sequence w);
                            service := S; password := E |}]);
        sqlite_sequence := N.succ (sqlite_sequence w);
        connected := true;
        stdin := rest;
        stdout := stdout w ++ [Text (saved_message S)] |}).
Proof.
  intros Hkey Hc Hp Hno HS Hin Hv HY Hnow.
  assert (Hn : existsb (same_service S) rows = false).
  { destruct (existsb (same_service S) rows) eqn:E; [|reflexivity].
    apply stored_iff in E. contradiction. }
  destruct (validate_password Y) as [ok errors] eqn:Ev.
  cbn [fst] in Hv. subst ok.
  destruct (encrypt_password_encodable key self now rng Y Hkey HY Hnow)
    as (E & Enc & HE & _).
  exists E. split; [exact Enc|].
  rewrite (add_password_confirmed _ _ _ _ _ _ _ _ Hin Ev).
  now rewrite (save_password_new self S now rng Y E (set_stdin w rest) rows
                 Hc Hp HS HE Hn Enc).
Qed.

(** C8.  Uniqueness: every state the program reaches holds at most one
    record per service name, names being compared exactly, and each
    operation keeps that property from any state that has it. *)
Theorem unique_services_invariant :
  (forall w, reachable w -> unique_services w) /\
  (forall w w', unique_services w -> operation w w' -> unique_services w').
Proof.
  split; [|exact operation_preserves].
  intros w H. induction H as [w Hp | w w' _ IH Hop].
  - unfold unique_services. now rewrite Hp.
  - now apply (operation_preserves w).
Qed.

(** C5, as amended.  A record that does not decrypt: the exception is
    caught inside [get_password], which prints it after the words "Error
    retrieving password" and returns [None], the value it also returns
    for a service without record. *)
Theorem decryption_failure_reported self S (w : world) rows r e :
  connected w = true -> passwords w = Some rows ->
  NoDup (map service rows) -> In r rows -> service r = S ->
  encodable S = true ->
  decrypt_password self (password r) = Raise e ->
  get_password self S w =
  (Ok None,
   set_stdout w
     (stdout w ++ [TextExn (lit "Error retrieving password: ") e])).
Proof.
  intros Hc Hp Hnd Hr Hs HS Hd.
  apply (get_password_undecryptable self S w rows r e Hc Hp HS); [|exact Hd].
  now apply find_unique.
Qed.

(** C10.  [get_password] always returns and never raises; it leaves the
    store as it is; it returns the plaintext when the record of the
    service exists and decrypts, and [None] when the record does not
    decrypt, when there is no record, and when the lookup itself fails
    (closed connection, missing table, name that cannot be bound). *)
Theorem get_password_total self S (w : world) :
  exists v,
    fst (get_password self S w) = Ok v /\
    same_store w (snd (get_password self S w)) /\
    (forall rows r,
       connected w = true -> passwords w = Some rows ->
       NoDup (map service rows) -> In r rows -> service r = S ->
       encodable S = true ->
       match decrypt_password self (password r) with
       | Ok p => v = Some p
       | Raise _ => v = None
       end) /\
    (forall rows,
       passwords w = Some rows ->
       ~ (exists r, In r rows /\ service r = S) -> v = None) /\
    (connected w = false \/ passwords w = None \/ encodable S = false ->
     v = None).
Proof.
  assert (Hq := quiet_get_password self S w).
  destruct (connected w) eqn:Hc; [destruct (passwords w) as [rows|] eqn:Hp;
    [destruct (encodable S) eqn:HS|]|].
  - destruct (find (same_service S) rows) as [r|] eqn:Hf.
    + destruct (decrypt_password self (password r)) as [p|e] eqn:Hd.
      * rewrite (get_password_found self S w rows r p Hc Hp HS Hf Hd) in *.
        exists (Some p). cbn [fst]. split; [reflexivity|].
        split; [exact Hq|]. split; [|split].
        -- intros rows' r' _ [= <-] Hnd Hr' Hs' _.
           rewrite (find_unique S rows r' Hnd Hr' Hs') in Hf.
           injection Hf as ->. now rewrite Hd.
        -- intros rows' [= <-] Hno. exfalso. apply Hno.
           apply find_some in Hf as [Hin Hs]. exists r.
           split; [exact Hin | now apply same_service_spec].
        -- intros [H|[H|H]]; discriminate.
      * rewrite (get_password_undecryptable self S w rows r e Hc Hp HS Hf Hd)
          in *.
        exists None. cbn [fst]. split; [reflexivity|].
        split; [exact Hq|]. split; [|split]; [|reflexivity..].
        intros rows' r' _ [= <-] Hnd Hr' Hs' _.
        rewrite (find_unique S rows r' Hnd Hr' Hs') in Hf.
        injection Hf as ->. now rewrite Hd.
    + rewrite (get_password_absent self S w rows Hc Hp HS Hf) in *.
      exists None. cbn [fst]. split; [reflexivity|].
      split; [exact Hq|]. split; [|split]; [|reflexivity..].
      intros rows' r' _ [= <-] Hnd Hr' Hs' _.
      rewrite (find_unique S rows r' Hnd Hr' Hs') in Hf. discriminate.
  - destruct (get_password_lookup_error self S w) as [e He];
      [right; right; exact HS|].
    rewrite He in *. exists None. cbn [fst]. split; [reflexivity|].
    split; [exact Hq|]. split; [|split]; [|reflexivity..].
    intros rows' r' _ _ _ _ _ [=].
  - destruct (get_password_lookup_error self S w) as [e He];
      [right; left; exact Hp|].
    rewrite He in *. exists None. cbn [fst]. split; [reflexivity|].
    split; [exact Hq|]. split; [|split]; [|reflexivity..].
    intros rows' r' _ [=].
  - destruct (get_password_lookup_error self S w) as [e He];
      [left; exact Hc|].
    rewrite He in *. exists None. cbn [fst]. split; [reflexivity|].
    split; [exact Hq|]. split; [|split]; [|reflexivity..].
    intros rows' r' [=].
Qed.


(** ** What the methods do at the terminal *)

Lemma reads_le {A} (m : M A) k k' :
  reads k m -> (k <= k')%nat -> reads k' m.
Proof.
  intros H Hk w. destruct (H w) as (n & H1 & H2 & H3).
  exists n. repeat split; [lia | exact H2 | exact H3].
Qed.

Lemma reads_nothing {A} (m : M A) :
  (forall w, stdin (snd (m w)) = stdin w) -> reads 0 m.
Proof. intros H w. exists 0%nat. rewrite H. repeat split; lia. Qed.

Lemma reads_ret {A} (a : A) : reads 0 (ret a).
Proof. now apply reads_nothing. Qed.

Lemma reads_lift {A} (r : result A) : reads 0 (lift r).
Proof. now apply reads_nothing. Qed.

Lemma reads_print s : reads 0 (print s).
Proof. now apply reads_nothing. Qed.

Lemma reads_print_exn s e : reads 0 (print_exn s e).
Proof. now apply reads_nothing. Qed.

Lemma reads_close : reads 0 close.
Proof. now apply reads_nothing. Qed.

Lemma reads_commit : reads 0 commit.
Proof.
  apply reads_nothing. intros w. unfold commit. now destruct (connected w).
Qed.

Lemma reads_execute_select S : reads 0 (execute_select S).
Proof.
  apply reads_nothing. intros w. unfold execute_select.
  now destruct (connected w), (passwords w), (encodable S).
Qed.

Lemma reads_execute_insert S E : reads 0 (execute_insert S E).
Proof.
  apply reads_nothing. intros w. unfold execute_insert.
  destruct (connected w); [|reflexivity].
  destruct (passwords w) as [rows|]; [|reflexivity].
  destruct (negb (encodable S && encodable E)); [reflexivity|].
  now destruct (existsb (same_service S) rows).
Qed.

Lemma reads_getpass prompt : reads 1 (getpass prompt).
Proof.
  intros w. unfold getpass. destruct (stdin w) as [|typed rest] eqn:E.
  - exists 0%nat. cbn [snd]. rewrite E. cbn. repeat split; lia.
  - exists 1%nat. cbn [snd stdin set_stdin]. cbn. repeat split; lia.
Qed.

Lemma reads_input prompt : reads 1 (input prompt).
Proof. exact (reads_getpass prompt). Qed.

Lemma reads_bind {A B} (m : M A) (k : A -> M B) k1 k2 :
  reads k1 m -> (forall a, reads k2 (k a)) -> reads (k1 + k2) (bind m k).
Proof.
  intros Hm Hk w. unfold bind. destruct (Hm w) as (n1 & L1 & B1 & E1).
  destruct (m w) as [[a|e] w1]; cbn [snd] in *.
  - destruct (Hk a w1) as (n2 & L2 & B2 & E2).
    rewrite E1, length_drop in B2. exists (n1 + n2)%nat.
    repeat split; [lia | lia |]. rewrite E2, E1, drop_drop. reflexivity.
  - exists n1. repeat split; [lia | exact B1 | exact E1].
Qed.

Lemma reads_try {A} (m : M A) (h : exn -> M A) k1 k2 :
  reads k1 m -> (forall e, reads k2 (h e)) ->
  reads (k1 + k2) (try_except m h).
Proof.
  intros Hm Hh w. unfold try_except. destruct (Hm w) as (n1 & L1 & B1 & E1).
  destruct (m w) as [[a|e] w1]; cbn [snd] in *.
  - exists n1. repeat split; [lia | exact B1 | exact E1].
  - destruct (Hh e w1) as (n2 & L2 & B2 & E2).
    rewrite E1, length_drop in B2. exists (n1 + n2)%nat.
    repeat split; [lia | lia |]. rewrite E2, E1, drop_drop. reflexivity.
Qed.

Lemma reads_print_each l : reads 0 (print_each l).
Proof.
  induction l as [|s l IH]; cbn [print_each]; [apply reads_ret|].
  apply (reads_bind _ _ 0 0); [apply reads_print | intros _; exact IH].
Qed.

Lemma reads_confirm_loop password attempts max :
  reads (length attempts) (confirm_loop password attempts max).
Proof.
  induction attempts as [|a attempts IH]; cbn [confirm_loop length];
    [apply reads_ret|].
  apply (reads_bind _ _ 1 (length attempts));
    [apply reads_getpass | intros confirm].
  destruct (bool_decide (password = confirm));
    [eapply reads_le; [apply reads_ret | lia]|].
  apply (reads_bind _ _ 0); [apply reads_print | intros _].
  destruct (Nat.ltb a max).
  - apply (reads_bind _ _ 0); [apply reads_print | intros _; exact IH].
  - eapply reads_le; [|apply Nat.le_0_l].
    apply (reads_bind _ _ 0 0); [apply reads_print | intros _].
    apply reads_ret.
Qed.

Lemma reads_save_password self S now rng password :
  reads 0 (save_password self S now rng password).
Proof.
  unfold save_password. apply (reads_try _ _ 0 0).
  - apply (reads_bind _ _ 0 0); [apply reads_lift | intros encrypted].
    apply (reads_bind _ _ 0 0); [apply reads_execute_insert | intros _].
    apply (reads_bind _ _ 0 0); [apply reads_commit | intros _].
    apply reads_print.
  - intros []; first [apply reads_print | apply reads_print_exn].
Qed.

Lemma reads_add_password_loop self S now rng attempts max :
  reads (length attempts + 3)
    (add_password_loop self S now rng attempts max).
Proof.
  induction attempts as [|a attempts IH]; cbn [add_password_loop length].
  { eapply reads_le; [apply reads_ret | lia]. }
  apply (reads_bind _ _ 1 (length attempts + 3));
    [apply reads_getpass | intros password].
  destruct (validate_password password) as [[|] errors]; cbn [negb].
  - eapply reads_le with (k := (3 + 0)%nat); [|lia].
    apply reads_bind; [apply (reads_confirm_loop _ (seq 1 3)) | intros [|]];
      [apply reads_save_password | apply reads_ret].
  - apply (reads_bind _ _ 0); [apply reads_print | intros _].
    apply (reads_bind _ _ 0); [apply reads_print_each | intros _].
    destruct (Nat.ltb a max).
    + apply (reads_bind _ _ 0); [apply reads_print | intros _; exact IH].
    + eapply reads_le; [|apply Nat.le_0_l].
      apply (reads_bind _ _ 0 0); [apply reads_print | intros _].
      apply reads_ret.
Qed.

Lemma reads_get_password self S : reads 0 (get_password self S).
Proof.
  unfold get_password. apply (reads_try _ _ 0 0).
  - apply (reads_bind _ _ 0 0);
      [apply reads_execute_select | intros [[s p]|]].
    + apply (reads_bind _ _ 0 0); [apply reads_lift | intros decrypted].
      apply (reads_bind _ _ 0 0); [apply reads_print | intros _].
      apply (reads_bind _ _ 0 0); [apply reads_print | intros _].
      apply reads_ret.
    + apply (reads_bind _ _ 0 0); [apply reads_print | intros _].
      apply reads_ret.
  - intros e. apply (reads_bind _ _ 0 0);
      [apply reads_print_exn | intros _; apply reads_ret].
Qed.

(** *** Exceptions *)

Lemma never_raises_ret {A} (a : A) : never_raises (ret a).
Proof. intros w e. discriminate. Qed.

Lemma never_raises_print s : never_raises (print s).
Proof. intros w e. discriminate. Qed.

Lemma never_raises_print_exn s e : never_raises (print_exn s e).
Proof. intros w e'. discriminate. Qed.

Lemma never_raises_bind {A B} (m : M A) (k : A -> M B) :
  never_raises m -> (forall a, never_raises (k a)) ->
  never_raises (bind m k).
Proof.
  intros Hm Hk w e. unfold bind. specialize (Hm w).
  destruct (m w) as [[a|e'] w1]; [apply Hk|].
  exfalso. now apply (Hm e').
Qed.

Lemma never_raises_try {A} (m : M A) (h : exn -> M A) :
  (forall e, never_raises (h e)) -> never_raises (try_except m h).
Proof.
  intros Hh w e. unfold try_except.
  destruct (m w) as [[a|e'] w1]; [discriminate | apply Hh].
Qed.

Lemma never_raises_print_each l : never_raises (print_each l).
Proof.
  induction l as [|s l IH]; cbn [print_each]; [apply never_raises_ret|].
  apply never_raises_bind; [apply never_raises_print | intros _; exact IH].
Qed.

Lemma never_raises_save_password self S now rng password :
  never_raises (save_password self S now rng password).
Proof.
  unfold save_password. apply never_raises_try.
  intros []; first [apply never_raises_print | apply never_raises_print_exn].
Qed.

Lemma never_raises_get_password self S : never_raises (get_password self S).
Proof.
  unfold get_password. apply never_raises_try. intros e.
  apply never_raises_bind;
    [apply never_raises_print_exn | intros _; apply never_raises_ret].
Qed.

Lemma eof_only_quietly {A} (m : M A) : never_raises m -> eof_only m.
Proof. intros H w e He. exfalso. now apply (H w e). Qed.

Lemma eof_only_getpass prompt : eof_only (getpass prompt).
Proof.
  intros w e. unfold getpass. destruct (stdin w) eqn:E; [|discriminate].
  cbn. intros [= <-]. auto.
Qed.

Lemma eof_only_input prompt : eof_only (input prompt).
Proof. exact (eof_only_getpass prompt). Qed.

Lemma eof_only_bind {A B} (m : M A) (k : A -> M B) :
  eof_only m -> (forall a, eof_only (k a)) -> eof_only (bind m k).
Proof.
  intros Hm Hk w e. unfold bind. specialize (Hm w).
  destruct (m w) as [[a|e'] w1]; [apply Hk|].
  cbn [fst snd] in *. intros [= <-]. now apply Hm.
Qed.

Lemma eof_only_confirm_loop password attempts max :
  eof_only (confirm_loop password attempts max).
Proof.
  induction attempts as [|a attempts IH]; cbn [confirm_loop];
    [apply eof_only_quietly, never_raises_ret|].
  apply eof_only_bind; [apply eof_only_getpass | intros confirm].
  destruct (bool_decide (password = confirm));
    [apply eof_only_quietly, never_raises_ret|].
  apply eof_only_bind;
    [apply eof_only_quietly, never_raises_print | intros _].
  destruct (Nat.ltb a max);
    (apply eof_only_bind;
       [apply eof_only_quietly, never_raises_print | intros _]);
    [exact IH | apply eof_only_quietly, never_raises_ret].
Qed.

Lemma eof_only_add_password_loop self S now rng attempts max :
  eof_only (add_password_loop self S now rng attempts max).
Proof.
  induction attempts as [|a attempts IH]; cbn [add_password_loop];
    [apply eof_only_quietly, never_raises_ret|].
  apply eof_only_bind; [apply eof_only_getpass | intros password].
  destruct (validate_password password) as [[|] errors]; cbn [negb].
  - apply eof_only_bind; [apply eof_only_confirm_loop | intros [|]];
      apply eof_only_quietly;
      [apply never_raises_save_password | apply never_raises_ret].
  - apply eof_only_bind;
      [apply eof_only_quietly, never_raises_print | intros _].
    apply eof_only_bind;
      [apply eof_only_quietly, never_raises_print_each | intros _].
    destruct (Nat.ltb a max);
      (apply eof_only_bind;
         [apply eof_only_quietly, never_raises_print | intros _]);
      [exact IH | apply eof_only_quietly, never_raises_ret].
Qed.

(** X1.  [add_password] ends normally whatever goes wrong while saving;
    the one exception it lets through is [EOFError], and only when the
    typed input has run out at a prompt. *)
Theorem add_password_raises_only_eof self S now rng w :
  fst (add_password self S now rng w) = Ok tt \/
  (fst (add_password self S now rng w) = Raise EOFError /\
   stdin (snd (add_password self S now rng w)) = []).
Proof.
  pose proof (eof_only_add_password_loop self S now rng (seq 1 3) 3 w) as H.
  unfold add_password.
  destruct (fst (add_password_loop self S now rng (seq 1 3) 3 w))
    as [[]|e] eqn:E; [now left | right].
  destruct (H e eq_refl) as [-> Hin]. auto.
Qed.

(** X2.  [add_password] takes at most six of the lines typed (three
    passwords and three confirmations at the very most) and leaves the
    lines after them untouched. *)
Theorem add_password_reads_six self S now rng w :
  exists n,
    (n <= 6)%nat /\ (n <= length (stdin w))%nat /\
    stdin (snd (add_password self S now rng w)) = skipn n (stdin w).
Proof. exact (reads_add_password_loop self S now rng (seq 1 3) 3 w). Qed.

(** ** Rejected passwords and failed confirmations *)

Lemma set_stdout_same w : set_stdout w (stdout w) = w.
Proof. now destruct w. Qed.

Lemma print_run s w :
  print s w = (Ok tt, set_stdout w (stdout w ++ [Text s])).
Proof. reflexivity. Qed.

Lemma print_each_run l w :
  print_each l w = (Ok tt, set_stdout w (stdout w ++ map Text l)).
Proof.
  revert w. induction l as [|s l IH]; intros w; cbn [print_each map].
  - unfold ret. now rewrite app_nil_r, set_stdout_same.
  - rewrite (bind_ok _ _ _ _ _ (print_run s w)), IH.
    cbn [stdout set_stdout]. now rewrite <- app_assoc.
Qed.

(** One pass of the password loop on a text the policy rejects. *)
Lemma add_password_loop_rejected self S now rng a attempts max
    (w : world) p rest :
  stdin w = p :: rest ->
  fst (validate_password p) = false ->
  add_password_loop self S now rng (a :: attempts) max w =
  if Nat.ltb a max then
    add_password_loop self S now rng attempts max
      (set_stdout (set_stdin w rest)
         (stdout w ++ rejection (snd (validate_password p))
            ++ [Text (attempt_message a max)]))
  else
    (Ok tt,
     set_stdout (set_stdin w rest)
       (stdout w ++ rejection (snd (validate_password p))
          ++ [Text (failed_message max)])).
Proof.
  intros Hin Hv. cbn [add_password_loop].
  rewrite (bind_ok _ _ _ _ _ (getpass_typed _ _ _ _ Hin)).
  destruct (validate_password p) as [ok errors]. cbn [fst snd] in *.
  subst ok. cbn [negb].
  rewrite (bind_ok _ _ _ _ _ (print_run _ _)).
  rewrite (bind_ok _ _ _ _ _ (print_each_run _ _)).
  destruct (Nat.ltb a max);
    rewrite (bind_ok _ _ _ _ _ (print_run _ _));
    unfold rejection, ret; cbn [stdout set_stdout set_stdin app];
    rewrite <- !app_assoc; reflexivity.
Qed.

(** One pass of the password loop on a text the policy accepts. *)
Lemma add_password_loop_accepted self S now rng a attempts max
    (w : world) Y rest :
  stdin w = Y :: rest ->
  fst (validate_password Y) = true ->
  add_password_loop self S now rng (a :: attempts) max w =
  bind (confirm_loop Y (seq 1 3) 3)
    (fun confirmed =>
       if confirmed then save_password self S now rng Y else ret tt)
    (set_stdin w rest).
Proof.
  intros Hin Hv. cbn [add_password_loop].
  rewrite (bind_ok _ _ _ _ _ (getpass_typed _ _ _ _ Hin)).
  destruct (validate_password Y) as [ok errors]. cbn [fst] in Hv.
  subst ok. reflexivity.
Qed.

(** One pass of the confirmation loop on a text that differs. *)
Lemma confirm_loop_differs Y a attempts max (w : world) c rest :
  stdin w = c :: rest ->
  c <> Y ->
  confirm_loop Y (a :: attempts) max w =
  if Nat.ltb a max then
    confirm_loop Y attempts max
      (set_stdout (set_stdin w rest)
         (stdout w ++ [mismatch; Text (attempt_message a max)]))
  else
    (Ok false,
     set_stdout (set_stdin w rest)
       (stdout w ++ [mismatch; Text (failed_message max)])).
Proof.
  intros Hin Hc. cbn [confirm_loop].
  rewrite (bind_ok _ _ _ _ _ (getpass_typed _ _ _ _ Hin)).
  rewrite bool_decide_false by congruence.
  rewrite (bind_ok _ _ _ _ _ (print_run _ _)).
  destruct (Nat.ltb a max);
    rewrite (bind_ok _ _ _ _ _ (print_run _ _));
    unfold mismatch, ret; cbn [stdout set_stdout set_stdin app];
    rewrite <- !app_assoc; reflexivity.
Qed.

(** X3.  Three passwords in a row that the policy rejects: [add_password]
    gives up after the third, having read exactly these three lines and
    printed each rejection; files, table and connection are as before. *)
Theorem add_password_gives_up_on_policy self S now rng (w : world)
    p1 p2 p3 rest :
  stdin w = p1 :: p2 :: p3 :: rest ->
  fst (validate_password p1) = false ->
  fst (validate_password p2) = false ->
  fst (validate_password p3) = false ->
  add_password self S now rng w =
  (Ok tt,
   set_stdout (set_stdin w rest)
     (stdout w
        ++ rejection (snd (validate_password p1))
        ++ [Text (attempt_message 1 3)]
        ++ rejection (snd (validate_password p2))
        ++ [Text (attempt_message 2 3)]
        ++ rejection (snd (validate_password p3))
        ++ [Text (failed_message 3)])).
Proof.
  intros Hin H1 H2 H3. unfold add_password. cbn [seq].
  rewrite (add_password_loop_rejected _ _ _ _ _ _ _ _ _ _ Hin H1).
  cbn [Nat.ltb Nat.leb].
  erewrite add_password_loop_rejected; [|reflexivity | exact H2].
  cbn [Nat.ltb Nat.leb].
  erewrite add_password_loop_rejected; [|reflexivity | exact H3].
  cbn [Nat.ltb Nat.leb stdout set_stdout set_stdin].
  rewrite <- !app_assoc. reflexivity.
Qed.

(** X4.  A valid password whose confirmation fails three times:
    [add_password] gives up without asking for the password again and
    without saving anything. *)
Theorem add_password_gives_up_on_confirmation self S now rng (w : world)
    Y c1 c2 c3 rest :
  stdin w = Y :: c1 :: c2 :: c3 :: rest ->
  fst (validate_password Y) = true ->
  c1 <> Y -> c2 <> Y -> c3 <> Y ->
  add_password self S now rng w =
  (Ok tt,
   set_stdout (set_stdin w rest)
     (stdout w
        ++ [mismatch; Text (attempt_message 1 3);
            mismatch; Text (attempt_message 2 3);
            mismatch; Text (failed_message 3)])).
Proof.
  intros Hin Hv H1 H2 H3. unfold add_password. cbn [seq].
  rewrite (add_password_loop_accepted _ _ _ _ _ _ _ _ _ _ Hin Hv).
  erewrite bind_ok.
  2:{ cbn [seq]. erewrite confirm_loop_differs; [|reflexivity | exact H1].
      cbn [Nat.ltb Nat.leb].
      erewrite confirm_loop_differs; [|reflexivity | exact H2].
      cbn [Nat.ltb Nat.leb].
      erewrite confirm_loop_differs; [|reflexivity | exact H3].
      cbn [Nat.ltb Nat.leb]. reflexivity. }
  unfold ret. cbn [stdout set_stdout set_stdin].
  rewrite <- !app_assoc. reflexivity.
Qed.

(** The confirmation succeeds after at most two texts that differ. *)
Lemma confirm_loop_retries Y (w : world) wrong rest :
  stdin w = wrong ++ Y :: rest ->
  (length wrong <= 2)%nat ->
  Forall (fun c => c <> Y) wrong ->
  exists out,
    confirm_loop Y (seq 1 3) 3 w =
    (Ok true, set_stdout (set_stdin w rest) (stdout w ++ out)).
Proof.
  intros Hin Hlen Hw. cbn [seq].
  destruct wrong as [|c1 [|c2 [|c3 wrong]]]; [| | |cbn in Hlen; lia].
  - exists []. rewrite (confirm_loop_same Y 1 _ 3 w rest Hin).
    rewrite app_nil_r. now destruct w.
  - apply Forall_cons in Hw as [H1 _]. eexists.
    rewrite (confirm_loop_differs Y 1 _ 3 _ c1 (Y :: rest) Hin H1).
    cbn [Nat.ltb Nat.leb].
    erewrite confirm_loop_same; [|reflexivity]. reflexivity.
  - apply Forall_cons in Hw as [H1 Hw]. apply Forall_cons in Hw as [H2 _].
    exists [mismatch; Text (attempt_message 1 3);
            mismatch; Text (attempt_message 2 3)].
    rewrite (confirm_loop_differs Y 1 _ 3 _ c1 (c2 :: Y :: rest) Hin H1).
    cbn [Nat.ltb Nat.leb].
    erewrite confirm_loop_differs; [|reflexivity | exact H2].
    cbn [Nat.ltb Nat.leb].
    erewrite confirm_loop_same; [|reflexivity].
    cbn [stdout set_stdout set_stdin]. now rewrite <- !app_assoc.
Qed.

(** After at most two rejected passwords and at most two failed
    confirmations the method reaches its [try] block. *)
Lemma add_password_reaches_save self S now rng (w : world)
    bad wrong Y rest :
  stdin w = bad ++ Y :: wrong ++ Y :: rest ->
  (length bad <= 2)%nat ->
  Forall (fun p => fst (validate_password p) = false) bad ->
  (length wrong <= 2)%nat ->
  Forall (fun c => c <> Y) wrong ->
  fst (validate_password Y) = true ->
  exists out,
    add_password self S now rng w =
    save_password self S now rng Y
      (set_stdout (set_stdin w rest) (stdout w ++ out)).
Proof.
  intros Hin Hlb Hb Hlw Hw Hv. unfold add_password. cbn [seq].
  assert (Accept : forall a attempts (w1 : world),
            stdin w1 = Y :: wrong ++ Y :: rest ->
            exists out,
              add_password_loop self S now rng (a :: attempts) 3 w1 =
              save_password self S now rng Y
                (set_stdout (set_stdin w1 rest) (stdout w1 ++ out))).
  { intros a attempts w1 H1.
    rewrite (add_password_loop_accepted _ _ _ _ _ _ _ _ _ _ H1 Hv).
    destruct (confirm_loop_retries Y (set_stdin w1 (wrong ++ Y :: rest))
                wrong rest eq_refl Hlw Hw) as [out Hc].
    exists out. rewrite (bind_ok _ _ _ _ _ Hc). reflexivity. }
  destruct bad as [|b1 [|b2 [|b3 bad]]]; [| | |cbn in Hlb; lia].
  - exact (Accept 1%nat _ w Hin).
  - apply Forall_cons in Hb as [H1 _].
    rewrite (add_password_loop_rejected _ _ _ _ _ _ _ _ _ _ Hin H1).
    cbn [Nat.ltb Nat.leb].
    match goal with
    | |- exists out, add_password_loop _ _ _ _ (?a :: ?l) _ ?w1 = _ =>
        destruct (Accept a l w1 eq_refl) as [out ->]
    end.
    eexists. cbn [stdout set_stdout set_stdin].
    rewrite <- !app_assoc. reflexivity.
  - apply Forall_cons in Hb as [H1 Hb]. apply Forall_cons in Hb as [H2 _].
    rewrite (add_password_loop_rejected _ _ _ _ _ _ _ _ _ _ Hin H1).
    cbn [Nat.ltb Nat.leb].
    erewrite add_password_loop_rejected; [|reflexivity | exact H2].
    cbn [Nat.ltb Nat.leb].
    match goal with
    | |- exists out, add_password_loop _ _ _ _ (?a :: ?l) _ ?w1 = _ =>
        destruct (Accept a l w1 eq_refl) as [out ->]
    end.
    eexists. cbn [stdout set_stdout set_stdin].
    rewrite <- !app_assoc. reflexivity.
Qed.

(** X5.  Retrying works: after at most two rejected passwords and at
    most two failed confirmations, a valid password typed and confirmed
    is saved under a free name, and what comes after it on the terminal
    is left unread. *)
Theorem add_password_after_retries key self S now rng (w : world) rows
    bad wrong Y rest :
  Fernet__init__ key = Ok (fernet self) ->
  connected w = true ->
  passwords w = Some rows ->
  ~ (exists r, In r rows /\ service r = S) ->
  encodable S = true ->
  stdin w = bad ++ Y :: wrong ++ Y :: rest ->
  (length bad <= 2)%nat ->
  Forall (fun p => fst (validate_password p) = false) bad ->
  (length wrong <= 2)%nat ->
  Forall (fun c => c <> Y) wrong ->
  fst (validate_password Y) = true ->
  encodable Y = true ->
  (now < 2 ^ 64)%N ->
  exists E out,
    encrypt_password self now rng Y = Ok E /\
    add_password self S now rng w =
    (Ok tt,
     {| files := files w;
        passwords :=
          Some (rows ++ [{| row_id := N.succ (sqlite_sequence w);
                            service := S; password := E |}]);
        sqlite_sequence := N.succ (sqlite_sequence w);
        connected := true;
        stdin := rest;
        stdout := stdout w ++ out ++ [Text (saved_message S)] |}).
Proof.
  intros Hkey Hc Hp Hno HS Hin Hlb Hb Hlw Hw Hv HY Hnow.
  assert (Hn : existsb (same_service S) rows = false).
  { destruct (existsb (same_service S) rows) eqn:E; [|reflexivity].
    apply stored_iff in E. contradiction. }
  destruct (encrypt_password_encodable key self now rng Y Hkey HY Hnow)
    as (E & Enc & HE & _).
  destruct (add_password_reaches_save self S now rng w bad wrong Y rest
              Hin Hlb Hb Hlw Hw Hv) as [out ->].
  exists E, out. split; [exact Enc|].
  rewrite (save_password_new self S now rng Y E
             (set_stdout (set_stdin w rest) (stdout w ++ out)) rows
             Hc Hp HS HE Hn Enc).
  cbn [files passwords sqlite_sequence stdin stdout set_stdout set_stdin].
  now rewrite <- app_assoc.
Qed.

(** ** When saving fails *)

Lemma encrypt_password_unencodable self now rng Y :
  encodable Y = false ->
  encrypt_password self now rng Y = Raise UnicodeEncodeError.
Proof.
  intros H. unfold encrypt_password, encode.
  destruct (utf8_encode Y) as [b|] eqn:E; [|reflexivity].
  assert (encodable Y = true) by (apply utf8_encode_encodable; eauto).
  congruence.
Qed.

Lemma save_password_closed self S now rng Y E (w : world) :
  connected w = false ->
  encrypt_password self now rng Y = Ok E ->
  save_password self S now rng Y w =
  (Ok tt,
   set_stdout w
     (stdout w ++ [TextExn (lit "Error saving password: ")
                     ProgrammingError])).
Proof.
  intros Hc Henc.
  unfold save_password, try_except, bind, lift, execute_insert.
  now rewrite Henc, Hc.
Qed.

Lemma save_password_unencodable self S now rng Y (w : world) :
  encodable Y = false ->
  save_password self S now rng Y w =
  (Ok tt,
   set_stdout w
     (stdout w ++ [TextExn (lit "Error saving password: ")
                     UnicodeEncodeError])).
Proof.
  intros HY. unfold save_password, try_except, bind, lift.
  now rewrite (encrypt_password_unencodable self now rng Y HY).
Qed.

Lemma save_password_unencodable_service self S now rng Y E (w : world) rows :
  connected w = true -> passwords w = Some rows ->
  encodable S = false ->
  encrypt_password self now rng Y = Ok E ->
  save_password self S now rng Y w =
  (Ok tt,
   set_stdout w
     (stdout w ++ [TextExn (lit "Error saving password: ")
                     UnicodeEncodeError])).
Proof.
  intros Hc Hp HS Henc.
  unfold save_password, try_except, bind, lift, execute_insert.
  now rewrite Henc, Hc, Hp, HS.
Qed.

(** X6.  After [close()]: [get_password] finds nothing and says why,
    [add_password] still asks for the password and then reports that it
    cannot save; neither raises, neither changes the store; closing
    again changes nothing. *)
Theorem use_after_close key self S now rng (w : world) :
  Fernet__init__ key = Ok (fernet self) ->
  snd (close (snd (close w))) = snd (close w) /\
  get_password self S (snd (close w)) =
  (Ok None,
   set_stdout (snd (close w))
     (stdout w ++ [TextExn (lit "Error retrieving password: ")
                     ProgrammingError])) /\
  (forall Y rest,
     stdin w = Y :: Y :: rest ->
     fst (validate_password Y) = true ->
     encodable Y = true -> (now < 2 ^ 64)%N ->
     add_password self S now rng (snd (close w)) =
     (Ok tt,
      set_stdout (set_stdin (snd (close w)) rest)
        (stdout w ++ [TextExn (lit "Error saving password: ")
                        ProgrammingError]))).
Proof.
  intros Hkey. split; [reflexivity|]. split; [reflexivity|].
  intros Y rest Hin Hv HY Hnow.
  destruct (validate_password Y) as [ok errors] eqn:Ev.
  cbn [fst] in Hv. subst ok.
  destruct (encrypt_password_encodable key self now rng Y Hkey HY Hnow)
    as (E & Enc & _).
  rewrite (add_password_confirmed self S now rng (snd (close w)) Y rest
             errors Hin Ev).
  now rewrite (save_password_closed self S now rng Y E
                 (set_stdin (snd (close w)) rest) eq_refl Enc).
Qed.

(** X7.  Text that cannot be written as UTF-8 (a lone surrogate) is not
    saved: a password that passes the policy but cannot be encoded, or a
    service name that cannot be bound, ends in "Error saving password"
    with the store as it was. *)
Theorem unencodable_text_not_saved key self S now rng (w : world) rows
    Y rest :
  stdin w = Y :: Y :: rest ->
  fst (validate_password Y) = true ->
  (encodable Y = false \/
   (encodable S = false /\ encodable Y = true /\ (now < 2 ^ 64)%N /\
    Fernet__init__ key = Ok (fernet self) /\
    connected w = true /\ passwords w = Some rows)) ->
  add_password self S now rng w =
  (Ok tt,
   set_stdout (set_stdin w rest)
     (stdout w ++ [TextExn (lit "Error saving password: ")
                     UnicodeEncodeError])).
Proof.
  intros Hin Hv Hcase.
  destruct (validate_password Y) as [ok errors] eqn:Ev.
  cbn [fst] in Hv. subst ok.
  rewrite (add_password_confirmed self S now rng w Y rest errors Hin Ev).
  destruct Hcase as [HY | (HS & HY & Hnow & Hkey & Hc & Hp)].
  - now rewrite (save_password_unencodable self S now rng Y _ HY).
  - destruct (encrypt_password_encodable key self now rng Y Hkey HY Hnow)
      as (E & Enc & _).
    now rewrite (save_password_unencodable_service self S now rng Y E
                   (set_stdin w rest) rows Hc Hp HS Enc).
Qed.

(** ** One service does not disturb another *)

Lemma find_app_other S' (rows : list row) r :
  service r <> S' ->
  find (same_service S') (rows ++ [r]) = find (same_service S') rows.
Proof.
  intros Hr. induction rows as [|r0 rows IH]; cbn [app find].
  - destruct (same_service S' r) eqn:E; [|reflexivity].
    now apply same_service_spec in E.
  - now rewrite IH.
Qed.

(** X8.  No cross-contamination: whatever [add_password] does for one
    service name, [get_password] for any other name returns what it
    returned before. *)
Theorem put_leaves_other_services self self' S S' now rng (w : world) :
  S <> S' ->
  fst (get_password self' S' (snd (add_password self S now rng w)))
  = fst (get_password self' S' w).
Proof.
  intros Hne.
  destruct (puts_add_password self S now rng w) as [H|H];
    [now apply get_password_same_store|].
  destruct H as (rows & E & Hp & _ & Hp' & _ & _ & Hc).
  unfold get_password, try_except, bind, execute_select, lift.
  rewrite Hp', Hc, Hp.
  destruct (connected w); [|reflexivity].
  destruct (encodable S'); [|reflexivity]. cbn [negb].
  rewrite find_app_other by (cbn [service]; exact Hne).
  destruct (find (same_service S') rows) as [r|]; [|reflexivity].
  cbn [option_map].
  destruct (decrypt_password self' (password r)); reflexivity.
Qed.

(** ** Opening the store *)

Lemma create_table_run (w : world) :
  connected w = true ->
  create_table w =
  (Ok tt,
   match passwords w with
   | Some _ => w
   | None => set_table w (Some []) (sqlite_sequence w)
   end).
Proof.
  intros Hc. unfold create_table, execute_create_table, commit, bind.
  rewrite Hc. destruct (passwords w); [now rewrite Hc|].
  cbn [connected set_table]. now rewrite Hc.
Qed.

Lemma init_first_run db kf rng (w : world) :
  files w !! kf = None ->
  kf <> [] ->
  __init__ db kf rng w =
  (Ok {| db_name := db; key_file := kf;
         fernet := {| _signing_key := firstn 16 (os_urandom rng 32);
                      _encryption_key := skipn 16 (os_urandom rng 32) |} |},
   match passwords w with
   | Some _ =>
       set_files (set_connected w true)
         (<[kf := generate_key rng]> (files w))
   | None =>
       set_table
         (set_files (set_connected w true)
            (<[kf := generate_key rng]> (files w)))
         (Some []) (sqlite_sequence w)
   end).
Proof.
  intros Hk Hne. unfold __init__.
  rewrite (bind_ok _ _ w tt (set_connected w true)) by reflexivity.
  rewrite (bind_ok _ _ _ _ _
             (key_created kf rng (set_connected w true) Hk Hne)).
  erewrite bind_ok; [|now apply create_table_run].
  cbn [passwords set_files set_connected]. unfold ret.
  now destruct (passwords w).
Qed.

Lemma init_existing_key db kf rng (w : world) content f :
  files w !! kf = Some content ->
  Fernet__init__ content = Ok f ->
  __init__ db kf rng w =
  (Ok {| db_name := db; key_file := kf; fernet := f |},
   match passwords w with
   | Some _ => set_connected w true
   | None => set_table (set_connected w true) (Some []) (sqlite_sequence w)
   end).
Proof.
  intros Hk Hf. unfold __init__.
  rewrite (bind_ok _ _ w tt (set_connected w true)) by reflexivity.
  rewrite (bind_ok _ _ _ f (set_connected w true))
    by (rewrite (key_loaded kf rng (set_connected w true) content Hk);
        now rewrite Hf).
  erewrite bind_ok; [|now apply create_table_run].
  cbn [passwords set_connected]. unfold ret.
  now destruct (passwords w).
Qed.

Lemma init_corrupt_key db kf rng (w : world) content e :
  files w !! kf = Some content ->
  Fernet__init__ content = Raise e ->
  __init__ db kf rng w = (Raise e, set_connected w true).
Proof.
  intros Hk Hf. unfold __init__.
  rewrite (bind_ok _ _ w tt (set_connected w true)) by reflexivity.
  unfold bind at 1.
  rewrite (key_loaded kf rng (set_connected w true) content Hk).
  now rewrite Hf.
Qed.

Lemma init_no_key_path db rng (w : world) :
  files w !! [] = None ->
  __init__ db [] rng w = (Raise FileNotFoundError, set_connected w true).
Proof.
  intros Hk. unfold __init__.
  rewrite (bind_ok _ _ w tt (set_connected w true)) by reflexivity.
  unfold bind at 1.
  now rewrite (key_not_written rng (set_connected w true) Hk).
Qed.

Lemma Fernet__init__ValueError key e :
  Fernet__init__ key = Raise e -> e = ValueError.
Proof.
  unfold Fernet__init__. destruct (urlsafe_b64decode key) as [k|].
  - destruct (negb (Nat.eqb (length k) 32)); [|discriminate]. congruence.
  - congruence.
Qed.


(** X10.  A key file that does not hold a key makes the constructor
    raise [ValueError] after the connection is opened and before the
    table is created: the file is left as it is, no table appears, and
    the connection stays open. *)
Theorem init_corrupt_key_file db kf rng (w : world) content :
  files w !! kf = Some content ->
  ~ (exists k, urlsafe_b64decode content = Some k /\ length k = 32%nat) ->
  fst (__init__ db kf rng w) = Raise ValueError /\
  files (snd (__init__ db kf rng w)) = files w /\
  passwords (snd (__init__ db kf rng w)) = passwords w /\
  connected (snd (__init__ db kf rng w)) = true.
Proof.
  intros Hk Hno.
  destruct (Fernet__init__ content) as [f|e] eqn:Hf.
  - exfalso. apply Hno. unfold Fernet__init__ in Hf.
    destruct (urlsafe_b64decode content) as [k|]; [|discriminate].
    destruct (Nat.eqb_spec (length k) 32); [eauto | discriminate].
  - rewrite (init_corrupt_key db kf rng w content e Hk Hf).
    apply Fernet__init__ValueError in Hf as ->. now repeat split.
Qed.

(** ** Nothing is taken away *)


Lemma grows_trans w1 w2 w3 : grows w1 w2 -> grows w2 w3 -> grows w1 w3.
Proof.
  intros [P1 F1] [P2 F2]. split.
  - intros rows H. destruct (P1 rows H) as [m1 H1].
    destruct (P2 _ H1) as [m2 H2]. exists (m1 ++ m2).
    now rewrite app_assoc.
  - auto.
Qed.

Lemma grows_same_store w w' : same_store w w' -> grows w w'.
Proof.
  intros (Hf & Hp & _). split.
  - intros rows H. exists []. now rewrite Hp, app_nil_r.
  - intros path content H. now rewrite Hf.
Qed.

Lemma grows_put_effect S w w' : put_effect S w w' -> grows w w'.
Proof.
  intros [H|H]; [now apply grows_same_store|].
  destruct H as (rows & E & Hp & _ & Hp' & _ & Hf & _). split.
  - intros rows' H. rewrite Hp in H. injection H as <-. eauto.
  - intros path content H. now rewrite Hf.
Qed.

Lemma grows_init db kf rng w : grows w (snd (__init__ db kf rng w)).
Proof.
  destruct (files w !! kf) as [content|] eqn:Hk.
  - destruct (Fernet__init__ content) as [f|e] eqn:Hf.
    + rewrite (init_existing_key db kf rng w content f Hk Hf). cbn [snd].
      destruct (passwords w) as [rows|] eqn:Hp; split;
        cbn [passwords files set_table set_connected]; auto.
      * intros rows' H. rewrite Hp in H. injection H as <-.
        exists []. now rewrite app_nil_r.
      * intros rows' H. congruence.
    + rewrite (init_corrupt_key db kf rng w content e Hk Hf). cbn [snd].
      split; cbn [passwords files set_connected]; auto.
      intros rows H. exists []. now rewrite app_nil_r.
  - destruct (decide (kf = [])) as [->|Hne].
    { rewrite (init_no_key_path db rng w Hk). cbn [snd].
      split; cbn [passwords files set_connected]; auto.
      intros rows H. exists []. now rewrite app_nil_r. }
    rewrite (init_first_run db kf rng w Hk Hne). cbn [snd].
    assert (Hfiles : forall path content,
              files w !! path = Some content ->
              <[kf := generate_key rng]> (files w) !! path = Some content).
    { intros path content H. rewrite lookup_insert_ne; [exact H|].
      intros <-. congruence. }
    destruct (passwords w) as [rows|] eqn:Hp; split;
      cbn [passwords files set_table set_files set_connected]; auto.
    + intros rows' H. rewrite Hp in H. injection H as <-.
      exists []. now rewrite app_nil_r.
    + intros rows' H. congruence.
Qed.

Lemma grows_operation w w' : operation w w' -> grows w w'.
Proof.
  intros []; [apply grows_init | | |].
  - eapply grows_put_effect, puts_add_password.
  - apply grows_same_store, quiet_get_password.
  - split; cbn [snd close passwords files set_connected]; auto.
    intros rows H. exists []. now rewrite app_nil_r.
Qed.




(** ** The shape of keys and tokens *)

Lemma b2a_base64_length bs :
  length (b2a_base64 bs) = (4 * ((length bs + 2) / 3))%nat.
Proof.
  assert (G : forall n bs, (length bs <= n)%nat ->
            length (b2a_base64 bs) = (4 * ((length bs + 2) / 3))%nat).
  { clear bs. induction n as [|n IH]; intros bs Hn.
    { destruct bs; [reflexivity | cbn in Hn; lia]. }
    destruct bs as [|a [|b [|c rest]]]; [reflexivity..|].
    cbn [b2a_base64 length]. rewrite IH by (cbn in Hn; lia).
    replace (S (S (S (length rest))) + 2)%nat
      with (length rest + 2 + 1 * 3)%nat by lia.
    rewrite Nat.div_add by lia. lia. }
  apply (G (length bs)). lia.
Qed.

Lemma urlsafe_b64encode_length bs :
  length (urlsafe_b64encode bs) = (4 * ((length bs + 2) / 3))%nat.
Proof. unfold urlsafe_b64encode. now rewrite length_map, b2a_base64_length. Qed.

Lemma table_b2a_token_byte v :
  token_byte (urlsafe_encode_translation (table_b2a v)) = true.
Proof.
  destruct (N.lt_ge_cases v 64) as [H|H].
  - assert (C : forallb (fun v => token_byte
                 (urlsafe_encode_translation (table_b2a v))) sextets = true)
      by (vm_compute; reflexivity).
    rewrite forallb_forall in C. apply C, in_sextets, H.
  - unfold table_b2a. rewrite nth_overflow; [reflexivity|].
    change (length alphabet) with 64%nat. lia.
Qed.

Lemma urlsafe_b64encode_token_bytes bs :
  forallb token_byte (urlsafe_b64encode bs) = true.
Proof.
  unfold urlsafe_b64encode.
  assert (G : forall n bs, (length bs <= n)%nat ->
            forallb token_byte
              (map urlsafe_encode_translation (b2a_base64 bs)) = true).
  { clear bs. induction n as [|n IH]; intros bs Hn.
    { destruct bs; [reflexivity | cbn in Hn; lia]. }
    destruct bs as [|a [|b [|c rest]]]; [reflexivity | | |];
      cbn [b2a_base64 map forallb]; rewrite ?table_b2a_token_byte;
      [reflexivity | reflexivity |].
    rewrite IH by (cbn in Hn; lia). reflexivity. }
  apply (G (length bs)). lia.
Qed.

Lemma pkcs7_pad_length_exact data :
  length (pkcs7_pad data) = (16 * (length data / 16 + 1))%nat.
Proof.
  unfold pkcs7_pad, block_size. rewrite length_app, repeat_length.
  pose proof (Nat.div_mod_eq (length data) 16).
  pose proof (Nat.mod_upper_bound (length data) 16). lia.
Qed.

Lemma utf8_encode_length s b :
  utf8_encode s = Some b -> (length s <= length b)%nat.
Proof.
  revert b. induction s as [|c s IH]; intros b H.
  - cbn; lia.
  - cbn [utf8_encode] in H.
    destruct (utf8_encode_char c) as [bc|] eqn:Ec; [|discriminate].
    destruct (utf8_encode s) as [bs|]; [|discriminate].
    injection H as <-. specialize (IH bs eq_refl).
    assert (1 <= length bc)%nat.
    { unfold utf8_encode_char in Ec. revert Ec.
      split_tests; intros [= <-]; cbn; lia. }
    rewrite length_app. cbn [length]. lia.
Qed.

(** The token of [Fernet.encrypt]: the base64 text of 57 octets and the
    padded data. *)
Lemma Fernet_encrypt_shape f now rng data :
  length (_encryption_key f) = 16%nat ->
  (now < 2 ^ 64)%N ->
  exists body,
    Fernet_encrypt f now rng data = Ok (urlsafe_b64encode body) /\
    length body = (57 + 16 * (length data / 16 + 1))%nat.
Proof using aes_block_length aes_decrypt_encrypt hmac_length.
  intros Hk Hnow.
  destruct (to_bytes_8 now Hnow) as (ts & Ets & Hts).
  pose proof (pkcs7_pad_length_exact data) as Hm.
  pose proof (os_urandom_length rng 16) as Hiv.
  destruct (CBC_decrypt_encrypt (_encryption_key f) (os_urandom rng 16)
              (pkcs7_pad data) (length data / 16 + 1) Hk Hiv Hm)
    as (ct & Ect & Hct & _).
  unfold Fernet_encrypt, _encrypt_from_parts.
  rewrite Ect, Ets. cbn [rbind]. eexists. split; [reflexivity|].
  rewrite length_app, hmac_length. cbn [length].
  rewrite !length_app, Hts, Hiv, Hct, Hm. lia.
Qed.

(** X13.  What [encrypt_password] returns for an encodable password is
    text over the url-safe base64 alphabet, of a length fixed by the
    length of the encoded password: never fewer than 100 characters,
    always more than the password has, so it is never the password
    itself. *)
Theorem ciphertext_shape key self now rng P :
  Fernet__init__ key = Ok (fernet self) ->
  encodable P = true ->
  (now < 2 ^ 64)%N ->
  exists E data,
    encrypt_password self now rng P = Ok E /\
    encode P = Ok data /\
    (exists token, E = map Byte.to_N token /\
                   forallb token_byte token = true) /\
    length E = token_length (length data) /\
    (100 <= length E)%nat /\
    (length P < length E)%nat /\
    E <> P.
Proof using aes_block_length aes_decrypt_encrypt hmac_length.
  intros Hkey HP Hnow.
  apply Fernet__init__halves in Hkey as [_ Hk].
  apply utf8_encode_encodable in HP as [data Hdata].
  destruct (Fernet_encrypt_shape (fernet self) now rng data Hk Hnow)
    as (body & Enc & Hbody).
  destruct (token_text body) as [Hdec _].
  pose proof (utf8_encode_length P data Hdata) as Hlen.
  exists (map Byte.to_N (urlsafe_b64encode body)), data.
  assert (HE : length (map Byte.to_N (urlsafe_b64encode body))
               = token_length (length data)).
  { rewrite length_map, urlsafe_b64encode_length, Hbody. reflexivity. }
  assert (Hbig : (100 <= token_length (length data))%nat /\
                 (length data < token_length (length data))%nat).
  { unfold token_length.
    pose proof (Nat.div_mod_eq (length data) 16).
    pose proof (Nat.mod_upper_bound (length data) 16).
    set (q := (length data / 16)%nat) in *.
    pose proof (Nat.div_mod_eq (57 + 16 * (q + 1) + 2) 3).
    pose proof (Nat.mod_upper_bound (57 + 16 * (q + 1) + 2) 3).
    lia. }
  split.
  { unfold encrypt_password, encode. rewrite Hdata. cbn [of_option rbind].
    rewrite Enc. cbn [rbind]. exact Hdec. }
  split; [unfold encode; now rewrite Hdata|].
  split; [eexists; split;
          [reflexivity | apply urlsafe_b64encode_token_bytes]|].
  split; [exact HE|]. rewrite HE.
  split; [lia|]. split; [lia|].
  intros Heq. apply (f_equal (@length N)) in Heq. rewrite HE in Heq. lia.
Qed.

(** ** What [decrypt_password] raises and what it accepts *)

Lemma Fernet_decrypt_raises f token e :
  Fernet_decrypt f token = Raise e -> e = InvalidToken.
Proof using hmac_length.
  unfold Fernet_decrypt, _get_unverified_token_data.
  destruct (urlsafe_b64decode token) as [data|]; [|cbn; congruence].
  destruct data as [|version data]; [cbn; congruence|].
  destruct (negb (Byte.eqb version x80)); [cbn; congruence|].
  destruct (Nat.ltb (length (version :: data)) 9); [cbn; congruence|].
  cbn [rbind snd]. set (d := version :: data).
  unfold _decrypt_data, _verify_signature.
  destruct (bool_decide _) eqn:Hs; [|cbn; congruence].
  apply bool_decide_eq_true in Hs. cbn [rbind].
  apply (f_equal (@length byte)) in Hs.
  rewrite hmac_length, length_drop in Hs.
  replace (Nat.eqb (length (firstn 16 (skipn 9 d))) block_size) with true
    by (symmetry; apply Nat.eqb_eq; unfold block_size;
        rewrite length_take, length_drop; lia).
  cbn [negb].
  destruct (CBC_decrypt _ _ _) as [pt|]; [|congruence].
  destruct (pkcs7_unpad pt); cbn; congruence.
Qed.

(** X14.  [decrypt_password] raises nothing but [UnicodeEncodeError] (the
    stored text has a lone surrogate), [InvalidToken] (it is not a token
    signed with the key, or its payload is not padded data) and
    [UnicodeDecodeError] (the payload is not UTF-8); the [ValueError] of
    the cipher is never seen. *)
Theorem decrypt_password_raises self E e :
  decrypt_password self E = Raise e ->
  (e = UnicodeEncodeError /\ encodable E = false) \/
  (e = InvalidToken /\
   exists token,
     encode E = Ok token /\
     Fernet_decrypt (fernet self) token = Raise InvalidToken) \/
  (e = UnicodeDecodeError /\
   exists token data,
     encode E = Ok token /\
     Fernet_decrypt (fernet self) token = Ok data /\
     utf8_decode data = None).
Proof using hmac_length.
  unfold decrypt_password, encode.
  destruct (utf8_encode E) as [token|] eqn:Et; cbn [of_option rbind].
  - destruct (Fernet_decrypt (fernet self) token) as [data|e'] eqn:Ed;
      cbn [rbind].
    + unfold decode. destruct (utf8_decode data) eqn:Eu; [discriminate|].
      cbn [of_option]. intros [= <-]. right. right. eauto 6.
    + intros [= <-]. pose proof (Fernet_decrypt_raises _ _ _ Ed) as ->.
      right. left. eauto.
  - intros [= <-]. left. split; [reflexivity|].
    destruct (encodable E) eqn:HE; [|reflexivity].
    apply utf8_encode_encodable in HE as [b Hb]. congruence.
Qed.

(** X15.  What [decrypt_password] accepts is a token: text that encodes
    and decodes from base64 to 57 octets and at least one block of
    ciphertext, beginning with the version octet and ending with the
    signature, under the manager's key, of all that precedes it. *)
Theorem decrypt_password_accepts_only_tokens self E P :
  decrypt_password self E = Ok P ->
  exists token data k,
    encode E = Ok token /\
    urlsafe_b64decode token = Some data /\
    length data = (57 + 16 * S k)%nat /\
    hd x00 data = x80 /\
    skipn (length data - 32) data =
      hmac_sha256 (_signing_key (fernet self))
        (firstn (length data - 32) data).
Proof.
  unfold decrypt_password.
  destruct (encode E) as [token|] eqn:Et; cbn [rbind]; [|discriminate].
  destruct (Fernet_decrypt (fernet self) token) as [pt|] eqn:Ed;
    cbn [rbind]; [|discriminate].
  intros _. exists token. revert Ed.
  unfold Fernet_decrypt, _get_unverified_token_data.
  destruct (urlsafe_b64decode token) as [data|]; [|discriminate].
  destruct data as [|version data]; [discriminate|].
  destruct (Byte.eqb version x80) eqn:Ev; cbn [negb]; [|discriminate].
  apply Byte.byte_dec_bl in Ev as ->.
  destruct (Nat.ltb (length (x80 :: data)) 9); [discriminate|].
  cbn [rbind snd]. set (d := x80 :: data).
  unfold _decrypt_data, _verify_signature.
  destruct (bool_decide _) eqn:Hs; [|discriminate].
  apply bool_decide_eq_true in Hs. cbn [rbind].
  destruct (negb _); [discriminate|].
  unfold CBC_decrypt.
  destruct (negb _); [discriminate|].
  set (ct := firstn (length d - 32 - 25) (skipn 25 d)).
  destruct (Nat.eqb_spec (length ct mod block_size) 0) as [Hmod|];
    cbn [negb]; [|discriminate].
  intros Hun.
  assert (Hne : length ct <> 0%nat).
  { intros H0. rewrite H0 in Hun. cbn in Hun. discriminate. }
  assert (Hct : length ct = (length d - 57)%nat)
    by (unfold ct; rewrite length_take, length_drop; lia).
  unfold block_size in Hmod.
  pose proof (Nat.div_mod_eq (length ct) 16) as Hdiv.
  exists d, (length ct / 16 - 1)%nat.
  split; [reflexivity|]. split; [reflexivity|].
  split; [lia|]. split; [reflexivity | now symmetry].
Qed.

(** X16.  First run: when [_initialize_encryption], with no key file
    there, returns, it has written one of 44 characters of the url-safe
    base64 alphabet, the text of the 32 octets drawn, whose halves are
    the signing and the encryption key of the [Fernet] it returns, and
    it has changed nothing else.  At the empty path, which names no
    file, it raises the [FileNotFoundError] of [open] and changes
    nothing. *)
Theorem first_run_key_file kf rng (w : world) :
  (forall f w1,
     files w !! kf = None ->
     _initialize_encryption kf rng w = (Ok f, w1) ->
     exists content,
       files w1 !! kf = Some content /\
       length content = 44%nat /\
       forallb token_byte content = true /\
       urlsafe_b64decode content = Some (os_urandom rng 32) /\
       f = {| _signing_key := firstn 16 (os_urandom rng 32);
              _encryption_key := skipn 16 (os_urandom rng 32) |} /\
       (forall path, path <> kf -> files w1 !! path = files w !! path) /\
       passwords w1 = passwords w /\ sqlite_sequence w1 = sqlite_sequence w /\
       connected w1 = connected w /\
       stdin w1 = stdin w /\ stdout w1 = stdout w) /\
  (files w !! [] = None ->
   _initialize_encryption [] rng w = (Raise FileNotFoundError, w)).
Proof.
  split; [|apply key_not_written].
  intros f w1 Hk H.
  destruct (key_created_inv _ _ _ _ _ Hk H) as (_ & -> & ->).
  cbn [files passwords sqlite_sequence connected stdin stdout set_files].
  exists (generate_key rng).
  split; [apply lookup_insert_eq|].
  split; [unfold generate_key;
          now rewrite urlsafe_b64encode_length, os_urandom_length|].
  split; [apply urlsafe_b64encode_token_bytes|].
  split; [apply urlsafe_b64decode_encode|].
  split; [reflexivity|].
  split; [intros path Hne; now apply lookup_insert_ne|].
  auto 6.
Qed.

(** ** The policy looks at the length and at which characters occur *)

Lemma re_search_app class s t :
  re_search class (s ++ t) = re_search class s || re_search class t.
Proof. apply existsb_app. Qed.

Lemma re_search_Permutation class s t :
  Permutation s t -> re_search class s = re_search class t.
Proof.
  intros H. unfold re_search.
  destruct (existsb class s) eqn:Es, (existsb class t) eqn:Et;
    try reflexivity; exfalso.
  - apply existsb_exists in Es as (c & Hc & Hx).
    assert (existsb class t = true)
      by (apply existsb_exists; exists c; split;
          [now apply (Permutation_in _ H) | exact Hx]).
    congruence.
  - apply existsb_exists in Et as (c & Hc & Hx).
    assert (existsb class s = true)
      by (apply existsb_exists; exists c; split;
          [now apply (Permutation_in _ (Permutation_sym H)) | exact Hx]).
    congruence.
Qed.

Lemma errors_in_policy password m :
  In m (snd (validate_password password)) -> In m policy_messages.
Proof.
  intros H. apply list_elem_of_In.
  eapply elem_of_sublist; [|exact (validate_password_order password)].
  now apply list_elem_of_In.
Qed.

(** X17.  Typing more never adds a violation: every message given for a
    password with characters added, before or after, is given for the
    password itself; so a password that passes keeps passing. *)
Theorem validate_password_monotone before password after m :
  In m (snd (validate_password (before ++ password ++ after))) ->
  In m (snd (validate_password password)).
Proof.
  intros H. pose proof (errors_in_policy _ _ H) as Hm.
  pose proof (validate_password_errors (before ++ password ++ after)) as Hl.
  pose proof (validate_password_errors password) as Hs.
  destruct (validate_password (before ++ password ++ after)) as [ok1 e1].
  destruct (validate_password password) as [ok2 e2].
  cbn [snd] in *.
  destruct Hl as (_ & L1 & L2 & L3 & L4 & L5).
  destruct Hs as (_ & S1 & S2 & S3 & S4 & S5).
  rewrite !re_search_app, !orb_false_iff in *.
  rewrite !length_app, Nat.ltb_lt in L1. rewrite Nat.ltb_lt in S1.
  unfold policy_messages in Hm. cbn [In] in Hm.
  destruct Hm as [<-|[<-|[<-|[<-|[<-|[]]]]]].
  - apply S1. apply L1 in H. lia.
  - apply S2. now apply L2 in H.
  - apply S3. now apply L3 in H.
  - apply S4. now apply L4 in H.
  - apply S5. now apply L5 in H.
Qed.

(** X18.  The order of the characters does not matter: a password and
    any rearrangement of it get the same verdict and the same messages. *)
Theorem validate_password_rearranged password password' :
  Permutation password password' ->
  validate_password password = validate_password password'.
Proof.
  intros H. unfold validate_password.
  rewrite (Permutation_length H).
  now rewrite !(re_search_Permutation _ _ _ H).
Qed.

(** ** The command loop *)

Lemma bind_raise {A B} (m : M A) (k : A -> M B) w e w' :
  m w = (Raise e, w') -> bind m k w = (Raise e, w').
Proof. intros H. unfold bind. now rewrite H. Qed.

Lemma show_menu {A} (k : M A) w :
  (let* _ := print (nl ++ lit "=== Password Manager ===") in
   let* _ := print (lit "1. Add password") in
   let* _ := print (lit "2. Get password") in
   let* _ := print (lit "3. Exit") in
   k) w
  = k (set_stdout w (stdout w ++ menu)).
Proof.
  unfold bind, print. cbn [stdout set_stdout]. f_equal.
  unfold set_stdout. cbn [files passwords sqlite_sequence connected stdin].
  unfold menu. now rewrite <- !app_assoc.
Qed.

Lemma input_typed prompt (w : world) typed rest :
  stdin w = typed :: rest ->
  input prompt w = (Ok typed, set_stdin w rest).
Proof. intros H. unfold input. now rewrite H. Qed.

Lemma input_eof prompt (w : world) :
  stdin w = [] -> input prompt w = (Raise EOFError, w).
Proof. intros H. unfold input. now rewrite H. Qed.

(** One pass of the loop, by what is typed. *)
Lemma main_loop_eof isspace fuel pm clock entropy turn (w : world) :
  stdin w = [] ->
  main_loop isspace (S fuel) pm clock entropy turn w =
  (Raise EOFError, set_stdout w (stdout w ++ menu)).
Proof.
  intros H. cbn [main_loop]. rewrite show_menu.
  apply bind_raise, input_eof. exact H.
Qed.

Lemma main_loop_choice isspace fuel pm clock entropy turn (w : world)
    typed rest :
  stdin w = typed :: rest ->
  main_loop isspace (S fuel) pm clock entropy turn w =
  (if bool_decide (strip isspace typed = lit "1") then
     let* _ := print advice in
     let* service_name :=
       input (lit "Enter service name (e.g., gmail.com): ") in
     let* _ := add_password pm service_name (clock turn) (entropy turn) in
     main_loop isspace fuel pm clock entropy (S turn)
   else if bool_decide (strip isspace typed = lit "2") then
     let* service_name :=
       input (lit "Enter service name (e.g., gmail.com): ") in
     let* _ := get_password pm service_name in
     main_loop isspace fuel pm clock entropy (S turn)
   else if bool_decide (strip isspace typed = lit "3") then
     let* _ := print (lit "Goodbye!") in
     let* _ := close in
     ret (Some tt)
   else
     let* _ := print (lit "Invalid choice. Try again.") in
     main_loop isspace fuel pm clock entropy (S turn))
    (set_stdin (set_stdout w (stdout w ++ menu)) rest).
Proof.
  intros H. cbn [main_loop]. rewrite show_menu.
  erewrite bind_ok; [reflexivity|]. apply input_typed. exact H.
Qed.

(** One pass either ends the run, whatever the number of turns allowed,
    or hands over to the next pass with no more lines left than it
    found after the choice. *)
Lemma main_loop_pass isspace pm clock entropy turn (w : world) typed rest :
  stdin w = typed :: rest ->
  (exists r,
     ended r /\
     forall fuel, main_loop isspace (S fuel) pm clock entropy turn w = r) \/
  (exists w',
     (length (stdin w') <= length rest)%nat /\
     forall fuel,
       main_loop isspace (S fuel) pm clock entropy turn w =
       main_loop isspace fuel pm clock entropy (S turn) w').
Proof.
  intros H.
  destruct (bool_decide (strip isspace typed = lit "1")) eqn:C1;
    [|destruct (bool_decide (strip isspace typed = lit "2")) eqn:C2;
      [|destruct (bool_decide (strip isspace typed = lit "3")) eqn:C3]].
  - destruct rest as [|service rest'].
    + left. eexists. split.
      2:{ intros fuel. rewrite (main_loop_choice _ _ _ _ _ _ _ _ _ H), C1.
          erewrite bind_ok; [|apply print_run].
          apply bind_raise, input_eof. reflexivity. }
      right. now split.
    + set (w3 := set_stdin
                   (set_stdout
                      (set_stdin (set_stdout w (stdout w ++ menu))
                         (service :: rest'))
                      ((stdout w ++ menu) ++ [Text advice])) rest').
      destruct (add_password pm service (clock turn) (entropy turn) w3)
        as [[[]|e] w4] eqn:Ea.
      * right. exists w4. split.
        { destruct (reads_add_password_loop pm service (clock turn)
                      (entropy turn) (seq 1 3) 3 w3) as (n & _ & _ & Hn).
          fold (add_password pm service (clock turn) (entropy turn)) in Hn.
          rewrite Ea in Hn. cbn [snd] in Hn. rewrite Hn, length_drop.
          cbn [stdin w3 set_stdin length]. lia. }
        intros fuel. rewrite (main_loop_choice _ _ _ _ _ _ _ _ _ H), C1.
        erewrite bind_ok; [|apply print_run].
        erewrite bind_ok; [|apply input_typed; reflexivity].
        erewrite bind_ok; [reflexivity | exact Ea].
      * left. exists (Raise e, w4). split.
        { destruct (eof_only_add_password_loop pm service (clock turn)
                      (entropy turn) (seq 1 3) 3 w3 e) as [-> Hn].
          - fold (add_password pm service (clock turn) (entropy turn)).
            now rewrite Ea.
          - fold (add_password pm service (clock turn) (entropy turn)) in Hn.
            rewrite Ea in Hn. right. now split. }
        intros fuel. rewrite (main_loop_choice _ _ _ _ _ _ _ _ _ H), C1.
        erewrite bind_ok; [|apply print_run].
        erewrite bind_ok; [|apply input_typed; reflexivity].
        apply bind_raise. exact Ea.
  - destruct rest as [|service rest'].
    + left. eexists. split.
      2:{ intros fuel.
          rewrite (main_loop_choice _ _ _ _ _ _ _ _ _ H), C1, C2.
          apply bind_raise, input_eof. reflexivity. }
      right. now split.
    + set (w3 := set_stdin
                   (set_stdin (set_stdout w (stdout w ++ menu))
                      (service :: rest')) rest').
      destruct (get_password pm service w3) as [[found|e] w4] eqn:Eg.
      * right. exists w4. split.
        { destruct (reads_get_password pm service w3) as (n & _ & _ & Hn).
          rewrite Eg in Hn. cbn [snd] in Hn. rewrite Hn, length_drop.
          cbn [stdin w3 set_stdin length]. lia. }
        intros fuel.
        rewrite (main_loop_choice _ _ _ _ _ _ _ _ _ H), C1, C2.
        erewrite bind_ok; [|apply input_typed; reflexivity].
        erewrite bind_ok; [reflexivity | exact Eg].
      * exfalso. apply (never_raises_get_password pm service w3 e).
        now rewrite Eg.
  - left. eexists. split.
    2:{ intros fuel.
        rewrite (main_loop_choice _ _ _ _ _ _ _ _ _ H), C1, C2, C3.
        erewrite bind_ok; [|apply print_run].
        erewrite bind_ok; [|reflexivity]. reflexivity. }
    left. split; [reflexivity|]. split; [reflexivity|].
    eexists. reflexivity.
  - right. eexists. split.
    2:{ intros fuel.
        rewrite (main_loop_choice _ _ _ _ _ _ _ _ _ H), C1, C2, C3.
        erewrite bind_ok; [|apply print_run]. reflexivity. }
    cbn [stdin set_stdout set_stdin]. lia.
Qed.

Lemma main_loop_ends isspace pm clock entropy fuel :
  forall turn (w : world),
    (length (stdin w) < fuel)%nat ->
    ended (main_loop isspace fuel pm clock entropy turn w).
Proof.
  induction fuel as [|fuel IH]; intros turn w Hlt; [lia|].
  destruct (stdin w) as [|typed rest] eqn:E.
  - rewrite (main_loop_eof _ _ _ _ _ _ _ E). right. now split.
  - destruct (main_loop_pass isspace pm clock entropy turn w typed rest E)
      as [(r & Hr & Hrun)|(w' & Hlen & Hrun)]; rewrite Hrun;
      [exact Hr | apply IH; cbn [length] in Hlt; lia].
Qed.

Lemma main_loop_turns isspace pm clock entropy fuel :
  forall fuel' turn (w : world),
    (length (stdin w) < fuel)%nat ->
    (length (stdin w) < fuel')%nat ->
    main_loop isspace fuel pm clock entropy turn w =
    main_loop isspace fuel' pm clock entropy turn w.
Proof.
  induction fuel as [|fuel IH]; intros fuel' turn w Hlt Hlt'; [lia|].
  destruct fuel' as [|fuel']; [lia|].
  destruct (stdin w) as [|typed rest] eqn:E.
  - now rewrite !(main_loop_eof _ _ _ _ _ _ _ E).
  - destruct (main_loop_pass isspace pm clock entropy turn w typed rest E)
      as [(r & Hr & Hrun)|(w' & Hlen & Hrun)]; rewrite !Hrun;
      [reflexivity | apply IH; cbn [length] in Hlt, Hlt'; lia].
Qed.

Lemma init_terminal db kf rng (w : world) :
  stdin (snd (__init__ db kf rng w)) = stdin w /\
  stdout (snd (__init__ db kf rng w)) = stdout w.
Proof.
  destruct (files w !! kf) as [content|] eqn:Hk.
  - destruct (Fernet__init__ content) as [f|e] eqn:Hf.
    + rewrite (init_existing_key db kf rng w content f Hk Hf).
      now destruct (passwords w).
    + now rewrite (init_corrupt_key db kf rng w content e Hk Hf).
  - destruct (decide (kf = [])) as [->|Hne];
      [now rewrite (init_no_key_path db rng w Hk)|].
    rewrite (init_first_run db kf rng w Hk Hne). now destruct (passwords w).
Qed.

Lemma init_raises db kf rng (w : world) e :
  kf <> [] ->
  fst (__init__ db kf rng w) = Raise e ->
  e = ValueError /\
  exists content,
    files w !! kf = Some content /\
    Fernet__init__ content = Raise ValueError.
Proof.
  intros Hne. destruct (files w !! kf) as [content|] eqn:Hk.
  - destruct (Fernet__init__ content) as [f|e'] eqn:Hf.
    + now rewrite (init_existing_key db kf rng w content f Hk Hf).
    + rewrite (init_corrupt_key db kf rng w content e' Hk Hf).
      cbn [fst]. intros [= <-].
      pose proof (Fernet__init__ValueError _ _ Hf) as ->. eauto.
  - now rewrite (init_first_run db kf rng w Hk Hne).
Qed.

(** X19.  Every run of [main] ends: allowed more passes than there are
    lines typed, it never uses them up, and allowing still more changes
    nothing.  It ends with the choice of leaving (the connection closed,
    [Goodbye!] printed last), or with [EOFError] when the input runs
    out at a prompt, or at once with the [ValueError] of a key file that
    holds no key, nothing printed. *)
Theorem main_ends isspace fuel rng clock entropy (w : world) :
  (length (stdin w) < fuel)%nat ->
  (ended (main isspace fuel rng clock entropy w) \/
   (fst (main isspace fuel rng clock entropy w) = Raise ValueError /\
    stdout (snd (main isspace fuel rng clock entropy w)) = stdout w /\
    exists content,
      files w !! lit "encryption.key" = Some content /\
      Fernet__init__ content = Raise ValueError)) /\
  (forall fuel',
     (length (stdin w) < fuel')%nat ->
     main isspace fuel' rng clock entropy w
     = main isspace fuel rng clock entropy w).
Proof.
  intros Hlt. unfold main.
  pose proof (init_terminal (lit "passwords.db") (lit "encryption.key")
                rng w) as [Hin Hout].
  pose proof (fun e =>
                init_raises (lit "passwords.db") (lit "encryption.key")
                  rng w e ltac:(discriminate)) as Hraise.
  destruct (__init__ (lit "passwords.db") (lit "encryption.key") rng w)
    as [[pm|e] w1] eqn:E; cbn [fst snd] in *.
  - rewrite (bind_ok _ _ _ _ _ E). split.
    + left. apply main_loop_ends. now rewrite Hin.
    + intros fuel' Hlt'. rewrite (bind_ok _ _ _ _ _ E).
      apply main_loop_turns; now rewrite Hin.
  - rewrite (bind_raise _ _ _ _ _ E).
    destruct (Hraise e eq_refl) as [-> Hc]. split.
    + right. cbn [fst snd]. auto.
    + intros fuel' _. now rewrite (bind_raise _ _ _ _ _ E).
Qed.

(** ** The store through a run *)

Lemma keeps_store_quiet {A} (m : M A) : quiet m -> keeps_store m.
Proof.
  intros H w. split; [apply grows_same_store, H|].
  apply unique_same_store, H.
Qed.

Lemma keeps_store_puts S {A} (m : M A) : puts S m -> keeps_store m.
Proof.
  intros H w. split; [eapply grows_put_effect, H|].
  intros Hu. eapply unique_put_effect; [apply H | exact Hu].
Qed.

Lemma keeps_store_bind {A B} (m : M A) (k : A -> M B) :
  keeps_store m -> (forall a, keeps_store (k a)) ->
  keeps_store (bind m k).
Proof.
  intros Hm Hk w. unfold bind. specialize (Hm w).
  destruct (m w) as [[a|e] w1]; cbn [snd] in *; [|exact Hm].
  destruct Hm as [G1 U1]. destruct (Hk a w1) as [G2 U2].
  split; [eapply grows_trans; eassumption | auto].
Qed.

Lemma keeps_store_input prompt : keeps_store (input prompt).
Proof. apply keeps_store_quiet, (quiet_getpass prompt). Qed.

Lemma keeps_store_print s : keeps_store (print s).
Proof. apply keeps_store_quiet, quiet_print. Qed.

Lemma keeps_store_operation {A} (m : M A) :
  (forall w, operation w (snd (m w))) -> keeps_store m.
Proof.
  intros H w. split; [apply grows_operation, H|].
  intros Hu. eapply operation_preserves; [exact Hu | apply H].
Qed.

Lemma keeps_store_main_loop isspace pm clock entropy fuel :
  forall turn, keeps_store (main_loop isspace fuel pm clock entropy turn).
Proof.
  induction fuel as [|fuel IH]; intros turn; cbn [main_loop];
    [apply keeps_store_quiet, quiet_ret|].
  do 4 (apply keeps_store_bind; [apply keeps_store_print | intros _]).
  apply keeps_store_bind; [apply keeps_store_input | intros typed].
  destruct (bool_decide (strip isspace typed = lit "1"));
    [|destruct (bool_decide (strip isspace typed = lit "2"));
      [|destruct (bool_decide (strip isspace typed = lit "3"))]].
  - apply keeps_store_bind; [apply keeps_store_print | intros _].
    apply keeps_store_bind; [apply keeps_store_input | intros service].
    apply keeps_store_bind; [|intros _; apply IH].
    eapply keeps_store_puts, puts_add_password.
  - apply keeps_store_bind; [apply keeps_store_input | intros service].
    apply keeps_store_bind; [|intros _; apply IH].
    apply keeps_store_quiet, quiet_get_password.
  - apply keeps_store_bind; [apply keeps_store_print | intros _].
    apply keeps_store_bind; [|intros _; apply keeps_store_quiet, quiet_ret].
    apply keeps_store_operation. intros w. apply op_close.
  - apply keeps_store_bind; [apply keeps_store_print | intros _]. apply IH.
Qed.

(** X20.  Whatever is typed, a run of [main] takes nothing away from the
    store and keeps the service names of the table distinct: the
    records it found are still there, in place, and so is every file. *)
Theorem main_keeps_store isspace fuel rng clock entropy (w : world) :
  grows w (snd (main isspace fuel rng clock entropy w)) /\
  (unique_services w ->
   unique_services (snd (main isspace fuel rng clock entropy w))).
Proof.
  apply (keeps_store_bind
           (__init__ (lit "passwords.db") (lit "encryption.key") rng)
           (fun pm => main_loop isspace fuel pm clock entropy 0)).
  - apply keeps_store_operation. intros w'. apply op_init.
  - intros pm. apply keeps_store_main_loop.
Qed.

(** ** Sessions *)

Lemma other_choice (choice other : str) :
  choice <> other -> bool_decide (choice = other) = false.
Proof. intros H. now apply bool_decide_eq_false_2. Qed.

Lemma init_ok_state db kf rng (w : world) pm w1 :
  __init__ db kf rng w = (Ok pm, w1) ->
  connected w1 = true /\
  passwords w1 = Some (default [] (passwords w)) /\
  stdin w1 = stdin w /\ stdout w1 = stdout w /\
  exists content,
    files w1 !! kf = Some content /\
    Fernet__init__ content = Ok (fernet pm).
Proof.
  intros Hinit. destruct (files w !! kf) as [content|] eqn:Hk.
  - destruct (Fernet__init__ content) as [f|e] eqn:Hf.
    + rewrite (init_existing_key db kf rng w content f Hk Hf) in Hinit.
      injection Hinit as <- <-.
      destruct (passwords w) as [rows|] eqn:Hp;
        cbn [connected passwords files fernet stdin stdout set_table
             set_connected default];
        rewrite ?Hp; eauto 8.
    + rewrite (init_corrupt_key db kf rng w content e Hk Hf) in Hinit.
      discriminate.
  - destruct (decide (kf = [])) as [->|Hne];
      [rewrite (init_no_key_path db rng w Hk) in Hinit; discriminate|].
    rewrite (init_first_run db kf rng w Hk Hne) in Hinit.
    injection Hinit as <- <-.
    destruct (passwords w) as [rows|] eqn:Hp;
      cbn [connected passwords files fernet stdin stdout set_table
           set_files set_connected default];
      rewrite ?Hp;
      (split; [reflexivity|]); (split; [reflexivity|]);
      (split; [reflexivity|]); (split; [reflexivity|]);
      exists (generate_key rng);
      (split; [apply lookup_insert_eq | apply generate_key_accepted]).
Qed.

Lemma main_loop_leaves isspace pm clock entropy bad :
  forall fuel turn (w : world) quit rest,
    stdin w = bad ++ quit :: rest ->
    Forall (fun typed =>
              ~ In (strip isspace typed) [lit "1"; lit "2"; lit "3"]) bad ->
    strip isspace quit = lit "3" ->
    (length bad < fuel)%nat ->
    main_loop isspace fuel pm clock entropy turn w =
    (Ok (Some tt),
     set_connected
       (set_stdout (set_stdin w rest)
          (stdout w
             ++ concat
                  (map (fun _ =>
                          menu ++ [Text (lit "Invalid choice. Try again.")])
                     bad)
             ++ menu ++ [Text (lit "Goodbye!")]))
       false).
Proof.
  induction bad as [|b bad IH]; intros fuel turn w quit rest Hin Hbad Hq Hlt;
    (destruct fuel as [|fuel]; [cbn [length] in Hlt; lia|]);
    cbn [app] in Hin.
  - rewrite (main_loop_choice _ _ _ _ _ _ _ _ _ Hin), Hq.
    rewrite !other_choice by (vm_compute; congruence).
    rewrite bool_decide_true by reflexivity.
    erewrite bind_ok; [|apply print_run].
    erewrite bind_ok; [|reflexivity].
    unfold ret, set_connected, set_stdout, set_stdin.
    cbn [files passwords sqlite_sequence connected stdin stdout concat map
         app].
    now rewrite <- !app_assoc.
  - apply Forall_cons in Hbad as [Hb Hbad]. cbn [In] in Hb.
    rewrite (main_loop_choice _ _ _ _ _ _ _ _ _ Hin).
    rewrite !other_choice by (intros Heq; apply Hb; rewrite Heq; tauto).
    erewrite bind_ok; [|apply print_run].
    erewrite (IH fuel (S turn) _ quit rest);
      [|reflexivity | exact Hbad | exact Hq | cbn [length] in Hlt; lia].
    unfold set_connected, set_stdout, set_stdin.
    cbn [files passwords sqlite_sequence connected stdin stdout concat map].
    now rewrite <- !app_assoc.
Qed.

(** X21.  Choices other than 1, 2 and 3 are answered with the message
    and the menu again, and the choice of leaving, typed with any white
    space around it, ends the run: the connection is closed, the lines
    typed after it are not read, and the store is as the constructor
    left it. *)
Theorem main_leaves_on_choice_3 isspace fuel rng clock entropy (w : world)
    pm w1 bad quit rest :
  __init__ (lit "passwords.db") (lit "encryption.key") rng w = (Ok pm, w1) ->
  stdin w = bad ++ quit :: rest ->
  Forall (fun typed =>
            ~ In (strip isspace typed) [lit "1"; lit "2"; lit "3"]) bad ->
  strip isspace quit = lit "3" ->
  (length bad < fuel)%nat ->
  main isspace fuel rng clock entropy w =
  (Ok (Some tt),
   set_connected
     (set_stdout (set_stdin w1 rest)
        (stdout w
           ++ concat
                (map (fun _ =>
                        menu ++ [Text (lit "Invalid choice. Try again.")])
                   bad)
           ++ menu ++ [Text (lit "Goodbye!")]))
     false).
Proof.
  intros Hinit Hin Hbad Hq Hlt. unfold main.
  rewrite (bind_ok _ _ _ _ _ Hinit).
  destruct (init_ok_state _ _ _ _ _ _ Hinit) as (_ & _ & Hi & Ho & _).
  rewrite <- Ho.
  apply (main_loop_leaves isspace pm clock entropy bad fuel 0 w1 quit rest);
    [now rewrite Hi | exact Hbad | exact Hq | exact Hlt].
Qed.

(** X22.  A whole session: on a store where the name is free, adding a
    password (typed twice), asking for it and leaving prints exactly
    the menu, the advice and the confirmation, the menu, the name and
    the password that was typed, the menu and the farewell (prompts
    apart); the record is added to the table, the connection is closed,
    and the lines typed after the choice of leaving are not read. *)
Theorem main_add_then_get isspace fuel rng clock entropy (w : world) pm w1
    c1 c2 c3 S Y rest :
  __init__ (lit "passwords.db") (lit "encryption.key") rng w = (Ok pm, w1) ->
  stdin w = c1 :: S :: Y :: Y :: c2 :: S :: c3 :: rest ->
  strip isspace c1 = lit "1" ->
  strip isspace c2 = lit "2" ->
  strip isspace c3 = lit "3" ->
  (forall rows,
     passwords w1 = Some rows -> ~ (exists r, In r rows /\ service r = S)) ->
  encodable S = true ->
  fst (validate_password Y) = true ->
  encodable Y = true ->
  (clock 0%nat < 2 ^ 64)%N ->
  (2 < fuel)%nat ->
  fst (main isspace fuel rng clock entropy w) = Ok (Some tt) /\
  stdout (snd (main isspace fuel rng clock entropy w)) =
    stdout w
      ++ menu ++ [Text advice; Text (saved_message S)]
      ++ menu ++ [Text (nl ++ lit "Service: " ++ S);
                  Text (lit "Password: " ++ Y)]
      ++ menu ++ [Text (lit "Goodbye!")] /\
  stdin (snd (main isspace fuel rng clock entropy w)) = rest /\
  connected (snd (main isspace fuel rng clock entropy w)) = false /\
  exists E,
    encrypt_password pm (clock 0%nat) (entropy 0%nat) Y = Ok E /\
    passwords (snd (main isspace fuel rng clock entropy w)) =
      Some (default [] (passwords w)
              ++ [{| row_id := N.succ (sqlite_sequence w1);
                     service := S; password := E |}]).
Proof using aes_block_length aes_decrypt_encrypt hmac_length.
  intros Hinit Hin H1 H2 H3 Hfree HS Hv HY Hnow Hlt. unfold main.
  rewrite (bind_ok _ _ _ _ _ Hinit).
  destruct (init_ok_state _ _ _ _ _ _ Hinit)
    as (Hc & Hp & Hi & Ho & content & Hk & Hf).
  rewrite Hin in Hi. rewrite <- Ho. clear Ho Hin Hinit.
  set (rows := default [] (passwords w)) in *.
  assert (Hn : existsb (same_service S) rows = false).
  { destruct (existsb (same_service S) rows) eqn:E; [|reflexivity].
    apply stored_iff in E. now apply (Hfree rows Hp) in E. }
  destruct (validate_password Y) as [ok errors] eqn:Ev.
  cbn [fst] in Hv. subst ok.
  destruct (encrypt_password_encodable content pm (clock 0%nat)
              (entropy 0%nat) Y Hf HY Hnow) as (E & Enc & HE & Dec).
  destruct fuel as [|[|[|fuel]]]; try lia.
  (* first pass: the password is added *)
  rewrite (main_loop_choice _ _ _ _ _ _ _ _ _ Hi), H1.
  rewrite bool_decide_true by reflexivity.
  erewrite bind_ok; [|apply print_run].
  erewrite bind_ok; [|apply input_typed; reflexivity].
  erewrite bind_ok.
  2:{ erewrite add_password_confirmed; [|reflexivity | exact Ev].
      apply (save_password_new pm S (clock 0%nat) (entropy 0%nat) Y E _ rows);
        [exact Hc | exact Hp | exact HS | exact HE | exact Hn | exact Enc]. }
  (* second pass: it is retrieved *)
  erewrite main_loop_choice; [|reflexivity]. rewrite H2.
  rewrite other_choice by (vm_compute; congruence).
  rewrite bool_decide_true by reflexivity.
  erewrite bind_ok; [|apply input_typed; reflexivity].
  erewrite bind_ok.
  2:{ eapply get_password_found;
        [reflexivity | reflexivity | exact HS
        | apply (find_app_new S rows _ Hn); reflexivity | exact Dec]. }
  (* third pass: leaving *)
  erewrite main_loop_choice; [|reflexivity]. rewrite H3.
  rewrite !other_choice by (vm_compute; congruence).
  rewrite bool_decide_true by reflexivity.
  erewrite bind_ok; [|apply print_run].
  erewrite bind_ok; [|reflexivity].
  unfold ret.
  cbn [fst snd files passwords sqlite_sequence connected stdin stdout
       set_stdout set_stdin set_connected close].
  split; [reflexivity|]. split.
  { unfold menu. rewrite <- !app_assoc. reflexivity. }
  split; [reflexivity|]. split; [reflexivity|].
  exists E. now split.
Qed.

(** ** The table and the constructor, run again *)

(** X23.  [create_table] needs an open connection, on which it never
    fails: it creates the table empty when there is none and leaves an
    existing one with its records; run again it changes nothing.  On a
    closed connection it raises [ProgrammingError] and changes nothing. *)
Theorem create_table_idempotent (w : world) :
  create_table (snd (create_table w)) = create_table w /\
  (connected w = true ->
   fst (create_table w) = Ok tt /\
   passwords (snd (create_table w)) = Some (default [] (passwords w)) /\
   sqlite_sequence (snd (create_table w)) = sqlite_sequence w) /\
  (connected w = false -> create_table w = (Raise ProgrammingError, w)).
Proof.
  split; [|split].
  - destruct (connected w) eqn:Hc.
    + rewrite (create_table_run w Hc). cbn [snd].
      destruct (passwords w) as [rows|] eqn:Hp.
      * now rewrite (create_table_run w Hc), Hp.
      * now rewrite create_table_run by exact Hc.
    + assert (E : create_table w = (Raise ProgrammingError, w))
        by (unfold create_table, execute_create_table, bind; now rewrite Hc).
      now rewrite E.
  - intros Hc. rewrite (create_table_run w Hc). cbn [fst snd].
    destruct (passwords w) as [rows|] eqn:Hp;
      cbn [passwords sqlite_sequence set_table default]; auto.
  - intros Hc. unfold create_table, execute_create_table, bind.
    now rewrite Hc.
Qed.

End Program.

(** ** The stand-in primitives satisfy what is assumed *)

Import Blocks Base64.

Lemma xor_cipher_length key block :
  length key = 16%nat -> length block = 16%nat ->
  length (xor_cipher key block) = 16%nat.
Proof.
  intros Hk Hb. unfold xor_cipher. rewrite xor_bytes_length; lia.
Qed.

Lemma xor_cipher_inverse key block :
  length key = 16%nat -> length block = 16%nat ->
  xor_cipher key (xor_cipher key block) = block.
Proof.
  intros Hk Hb. unfold xor_cipher. apply xor_bytes_cancel. lia.
Qed.

Lemma xor_mac_length key msg : length (xor_mac key msg) = 32%nat.
Proof. unfold xor_mac. apply repeat_length. Qed.

Lemma ascii_digit_ascii c :
  (c < 128)%N -> ascii_digit c = ((48 <=? c) && (c <=? 57))%N.
Proof. reflexivity. Qed.

Lemma sample_key_accepted :
  Fernet__init__ sample_key = Ok (fernet sample_manager).
Proof. apply generate_key_accepted. Qed.

(** ** The statements at sample inputs *)

Lemma decrypt_encrypt_password_witness :
  exists E,
    encrypt_password xor_cipher xor_mac sample_manager 1700000000
      sample_rng (lit "MyPass123!") = Ok E /\
    decrypt_password xor_cipher xor_mac sample_manager E
    = Ok (lit "MyPass123!").
Proof.
  apply (decrypt_encrypt_password xor_cipher xor_cipher xor_mac
           xor_cipher_length xor_cipher_inverse xor_mac_length sample_key).
  - exact sample_key_accepted.
  - vm_compute. reflexivity.
  - lia.
Defined.

Lemma encrypt_password_fresh_witness :
  exists E1 E2,
    encrypt_password xor_cipher xor_mac sample_manager 1700000000
      sample_rng (lit "TestPassword123!") = Ok E1 /\
    encrypt_password xor_cipher xor_mac sample_manager 1700000000
      other_rng (lit "TestPassword123!") = Ok E2 /\
    E1 <> E2 /\
    decrypt_password xor_cipher xor_mac sample_manager E1
    = Ok (lit "TestPassword123!") /\
    decrypt_password xor_cipher xor_mac sample_manager E2
    = Ok (lit "TestPassword123!").
Proof.
  apply (encrypt_password_fresh xor_cipher xor_cipher xor_mac
           xor_cipher_length xor_cipher_inverse xor_mac_length sample_key).
  - exact sample_key_accepted.
  - vm_compute. reflexivity.
  - lia.
  - lia.
  - vm_compute. discriminate.
Defined.


Lemma corrupt_key_file_detected_witness :
  ((exists k,
      urlsafe_b64decode (list_byte_of_string "not a key") = Some k /\
      length k = 32%nat) ->
   exists f,
     _initialize_encryption (lit "encryption.key") sample_rng
       (set_files fresh_world
          {[ lit "encryption.key" := list_byte_of_string "not a key" ]})
     = (Ok f,
        set_files fresh_world
          {[ lit "encryption.key" := list_byte_of_string "not a key" ]})) /\
  (~ (exists k,
        urlsafe_b64decode (list_byte_of_string "not a key") = Some k /\
        length k = 32%nat) ->
   _initialize_encryption (lit "encryption.key") sample_rng
     (set_files fresh_world
        {[ lit "encryption.key" := list_byte_of_string "not a key" ]})
   = (Raise ValueError,
      set_files fresh_world
        {[ lit "encryption.key" := list_byte_of_string "not a key" ]})).
Proof.
  apply (corrupt_key_file_detected (lit "encryption.key") sample_rng).
  vm_compute. reflexivity.
Defined.

(** C6 as stated fails: the key file the program itself writes holds 44
    octets, not 32, and is loaded without error. *)
Lemma corrupt_key_counterexample :
  files (store [] []) !! lit "encryption.key" = Some sample_key /\
  length sample_key = 44%nat /\
  _initialize_encryption (lit "encryption.key") other_rng (store [] [])
  = (Ok sample_fernet, store [] []).
Proof. vm_compute. auto. Qed.

Lemma validate_password_policy_witness :
  validate_password ascii_digit (lit "MyPass123!") = (true, []) /\
  validate_password ascii_digit (lit "Ab1!") = (false, [msg_length]).
Proof.
  pose proof (validate_password_policy ascii_digit ascii_digit_ascii
                (lit "MyPass123!")) as H.
  destruct (validate_password ascii_digit (lit "MyPass123!")) as [ok errors].
  destruct H as (_ & _ & _ & _ & _ & _ & _ & _ & H1 & _ & _ & _ & _ & H6).
  exact (conj H6 H1).
Defined.

Lemma duplicate_put_no_mutation_witness :
  let typed := [lit "MyPass123!"; lit "MyPass123!";
                lit "Different456!"; lit "Different456!"] in
  let w1 :=
    snd (add_password xor_cipher xor_mac ascii_digit sample_manager
           (lit "svc") 1700000000 sample_rng (store [] typed)) in
  let w2 :=
    snd (add_password xor_cipher xor_mac ascii_digit sample_manager
           (lit "svc") 1700000001 other_rng w1) in
  same_store w1 w2 /\
  stdout w2 = [Text (saved_message (lit "svc"));
               Text (exists_message (lit "svc"))] /\
  fst (get_password xor_cipher xor_mac sample_manager (lit "svc") w2)
  = Ok (Some (lit "MyPass123!")).
Proof.
  cbv zeta.
  set (w1 := snd (add_password xor_cipher xor_mac ascii_digit sample_manager
                    (lit "svc") 1700000000 sample_rng _)).
  destruct (duplicate_put_no_mutation xor_cipher xor_cipher xor_mac
              ascii_digit xor_cipher_length xor_cipher_inverse xor_mac_length
              sample_key sample_manager (lit "svc") 1700000001 other_rng w1
              (default [] (passwords w1)))
    as (A & B & _ & D).
  - exact sample_key_accepted.
  - vm_compute. reflexivity.
  - vm_compute. reflexivity.
  - vm_compute. eexists. split; [left; reflexivity | reflexivity].
  - split; [exact A|]. split.
    + rewrite (D (lit "Different456!") []); vm_compute; reflexivity || lia.
    + rewrite B. vm_compute. reflexivity.
Defined.

Lemma add_password_any_service_witness :
  exists E,
    encrypt_password xor_cipher xor_mac sample_manager 1700000000 sample_rng
      (lit "MyPass123!") = Ok E /\
    add_password xor_cipher xor_mac ascii_digit sample_manager [] 1700000000
      sample_rng (store [] [lit "MyPass123!"; lit "MyPass123!"])
    = (Ok tt,
       {| files := files (store [] []);
          passwords :=
            Some [{| row_id := 1; service := []; password := E |}];
          sqlite_sequence := 1;
          connected := true;
          stdin := [];
          stdout := [Text (saved_message [])] |}).
Proof.
  apply (add_password_any_service xor_cipher xor_cipher xor_mac ascii_digit
           xor_cipher_length xor_cipher_inverse xor_mac_length sample_key
           sample_manager [] 1700000000 sample_rng
           (store [] [lit "MyPass123!"; lit "MyPass123!"]) []
           (lit "MyPass123!") []).
  - exact sample_key_accepted.
  - reflexivity.
  - reflexivity.
  - intros (r & [] & _).
  - reflexivity.
  - reflexivity.
  - vm_compute. reflexivity.
  - vm_compute. reflexivity.
  - lia.
Defined.

(** C7 as stated fails: with the empty service name, a valid password
    typed and confirmed is stored under the empty name and reported as
    saved. *)
Lemma empty_service_counterexample :
  let w :=
    add_password xor_cipher xor_mac ascii_digit sample_manager [] 1700000000
      sample_rng (store [] [lit "MyPass123!"; lit "MyPass123!"]) in
  fst w = Ok tt /\
  option_map (map service) (passwords (snd w)) = Some [[]] /\
  stdout (snd w) = [Text (lit "Password for  saved successfully")].
Proof. vm_compute. auto. Qed.

Lemma unique_services_invariant_witness :
  unique_services
    (snd (add_password xor_cipher xor_mac ascii_digit sample_manager
            (lit "svc") 1700000000 sample_rng
            (snd (__init__ (lit "passwords.db") (lit "encryption.key")
                    sample_rng
                    (set_stdin fresh_world
                       [lit "MyPass123!"; lit "MyPass123!"]))))).
Proof.
  apply (proj1 (unique_services_invariant xor_cipher xor_cipher xor_mac
                  ascii_digit)).
  eapply reachable_step; [|apply op_add_password].
  eapply reachable_step; [|apply op_init].
  apply reachable_fresh. reflexivity.
Defined.

Lemma decryption_failure_reported_witness :
  get_password xor_cipher xor_mac sample_manager (lit "svc")
    (store [garbage_row] [])
  = (Ok None,
     set_stdout (store [garbage_row] [])
       [TextExn (lit "Error retrieving password: ") InvalidToken]).
Proof.
  apply (decryption_failure_reported xor_cipher xor_mac sample_manager
           (lit "svc") (store [garbage_row] []) [garbage_row] garbage_row
           InvalidToken).
  - reflexivity.
  - reflexivity.
  - cbn [map]. apply NoDup_singleton.
  - now left.
  - reflexivity.
  - reflexivity.
  - vm_compute. reflexivity.
Defined.

(** C5 as stated fails: a stored text that is no token makes
    [decrypt_password] raise [InvalidToken], yet [get_password] raises
    nothing and returns [None], as it does for a service that has no
    record. *)
Lemma propagation_counterexample :
  decrypt_password xor_cipher xor_mac sample_manager (password garbage_row)
  = Raise InvalidToken /\
  fst (get_password xor_cipher xor_mac sample_manager (lit "svc")
         (store [garbage_row] [])) = Ok None /\
  fst (get_password xor_cipher xor_mac sample_manager (lit "svc")
         (store [] [])) = Ok None.
Proof. vm_compute. auto. Qed.

(** ** The model on known values *)

Example base64_known_values :
  urlsafe_b64encode (list_byte_of_string "Man") = list_byte_of_string "TWFu"
  /\ urlsafe_b64encode (list_byte_of_string "Ma")
     = list_byte_of_string "TWE="
  /\ urlsafe_b64encode (list_byte_of_string "M") = list_byte_of_string "TQ=="
  /\ urlsafe_b64encode [xfb; xff] = list_byte_of_string "-_8=".
Proof. vm_compute. auto. Qed.

(** The decoder is lenient about foreign bytes and strict about the
    number of sextets and pads. *)
Example base64_lenient_decoding :
  urlsafe_b64decode (list_byte_of_string "TW.Fu") =
    Some (list_byte_of_string "Man")
  /\ urlsafe_b64decode (list_byte_of_string "+/8=") = Some [xfb; xff]
  /\ urlsafe_b64decode (list_byte_of_string "TQ=") = None
  /\ urlsafe_b64decode (list_byte_of_string "TWFuT") = None
  /\ urlsafe_b64decode (list_byte_of_string "garbage") = None.
Proof. vm_compute. auto. Qed.

Example utf8_known_values :
  encode [0xE9%N] = Ok [xc3; xa9]
  /\ encode [0x20AC%N] = Ok [xe2; x82; xac]
  /\ encode [0x1F600%N] = Ok [xf0; x9f; x98; x80]
  /\ encode [0xD800%N] = Raise UnicodeEncodeError
  /\ decode [xc3; xa9] = Ok [0xE9%N]
  /\ decode [xc0; x80] = Raise UnicodeDecodeError
  /\ decode [xed; xa0; x80] = Raise UnicodeDecodeError
  /\ decode [xf4; x90; x80; x80] = Raise UnicodeDecodeError.
Proof. vm_compute. repeat split. Qed.

Example pkcs7_known_values :
  pkcs7_pad (list_byte_of_string "abc")
  = list_byte_of_string "abc" ++ repeat x0d 13
  /\ length (pkcs7_pad (list_byte_of_string "0123456789abcdef")) = 32%nat.
Proof. vm_compute. auto. Qed.

(** A token made in November 2023 starts with the familiar letters. *)
Example token_prefix :
  exists rest,
    encrypt_password xor_cipher xor_mac sample_manager 1700000000 sample_rng
      (lit "MyPass123!") = Ok (lit "gAAAAABl" ++ rest).
Proof. vm_compute. eexists. reflexivity. Qed.

(** No key file can be created at the empty path: the constructor
    raises after connecting, and no table is created. *)
Example empty_key_path :
  __init__ (lit "passwords.db") [] sample_rng fresh_world
  = (Raise FileNotFoundError, set_connected fresh_world true).
Proof. vm_compute. reflexivity. Qed.

(** Names that differ in case are different names: both are stored. *)
Example case_sensitive_names :
  let typed := [lit "MyPass123!"; lit "MyPass123!";
                lit "MyPass123!"; lit "MyPass123!"] in
  let w1 :=
    snd (add_password xor_cipher xor_mac ascii_digit sample_manager
           (lit "gmail.com") 1700000000 sample_rng (store [] typed)) in
  let w2 :=
    snd (add_password xor_cipher xor_mac ascii_digit sample_manager
           (lit "Gmail.com") 1700000001 other_rng w1) in
  option_map (map service) (passwords w2)
  = Some [lit "gmail.com"; lit "Gmail.com"].
Proof. vm_compute. reflexivity. Qed.

(** The whole life of a store: first run, a put, a duplicate put, a get,
    a restart with the same files, and a get again. *)
Example restart_scenario :
  let typed := [lit "Secret123!"; lit "Secret123!";
                lit "Other456!x"; lit "Other456!x"] in
  let name := lit "svc" in
  match __init__ (lit "passwords.db") (lit "encryption.key") sample_rng
          (set_stdin fresh_world typed) with
  | (Ok pm, w1) =>
      let w2 := snd (add_password xor_cipher xor_mac ascii_digit pm name
                       1700000000 sample_rng w1) in
      let w3 := snd (add_password xor_cipher xor_mac ascii_digit pm name
                       1700000001 other_rng w2) in
      let w4 := snd (close w3) in
      match __init__ (lit "passwords.db") (lit "encryption.key") other_rng
              w4 with
      | (Ok pm', w5) =>
          fernet pm' = fernet pm /\
          fst (get_password xor_cipher xor_mac pm' name w5)
          = Ok (Some (lit "Secret123!")) /\
          fst (get_password xor_cipher xor_mac pm' (lit "nonexistent") w5)
          = Ok None /\
          fst (get_password xor_cipher xor_mac pm name w4) = Ok None
      | _ => False
      end
  | _ => False
  end.
Proof. vm_compute. auto. Qed.

(** ** Further statements at sample inputs *)

Lemma add_password_gives_up_on_policy_witness :
  let w :=
    add_password xor_cipher xor_mac ascii_digit sample_manager (lit "svc")
      1700000000 sample_rng
      (store [] [lit "short"; lit "nodigits!"; lit "NOLOWER1!";
                 lit "unread"]) in
  fst w = Ok tt /\ stdin (snd w) = [lit "unread"] /\
  passwords (snd w) = Some [] /\
  List.last (stdout (snd w)) (Text []) = Text (failed_message 3).
Proof.
  cbv zeta.
  rewrite (add_password_gives_up_on_policy xor_cipher xor_mac ascii_digit
             sample_manager (lit "svc") 1700000000 sample_rng
             (store [] [lit "short"; lit "nodigits!"; lit "NOLOWER1!";
                        lit "unread"])
             (lit "short") (lit "nodigits!") (lit "NOLOWER1!")
             [lit "unread"]);
    [|reflexivity | vm_compute; reflexivity ..].
  vm_compute. auto.
Defined.

Lemma add_password_gives_up_on_confirmation_witness :
  let w :=
    add_password xor_cipher xor_mac ascii_digit sample_manager (lit "svc")
      1700000000 sample_rng
      (store [] [lit "MyPass123!"; lit "MyPass123"; lit "mypass123!";
                 lit "MyPass123?"; lit "unread"]) in
  fst w = Ok tt /\ stdin (snd w) = [lit "unread"] /\
  passwords (snd w) = Some [] /\
  List.last (stdout (snd w)) (Text []) = Text (failed_message 3).
Proof.
  cbv zeta.
  rewrite (add_password_gives_up_on_confirmation xor_cipher xor_mac
             ascii_digit sample_manager (lit "svc") 1700000000 sample_rng
             (store [] [lit "MyPass123!"; lit "MyPass123"; lit "mypass123!";
                        lit "MyPass123?"; lit "unread"])
             (lit "MyPass123!") (lit "MyPass123") (lit "mypass123!")
             (lit "MyPass123?") [lit "unread"]);
    [|reflexivity | vm_compute; reflexivity
     | vm_compute; discriminate ..].
  vm_compute. auto.
Defined.

Lemma add_password_after_retries_witness :
  exists E out,
    encrypt_password xor_cipher xor_mac sample_manager 1700000000 sample_rng
      (lit "MyPass123!") = Ok E /\
    add_password xor_cipher xor_mac ascii_digit sample_manager (lit "svc")
      1700000000 sample_rng
      (store [] [lit "short"; lit "MyPass123!"; lit "MyPass123";
                 lit "MyPass123!"; lit "unread"])
    = (Ok tt,
       {| files := files (store [] []);
          passwords :=
            Some [{| row_id := 1; service := lit "svc"; password := E |}];
          sqlite_sequence := 1;
          connected := true;
          stdin := [lit "unread"];
          stdout := out ++ [Text (saved_message (lit "svc"))] |}).
Proof.
  apply (add_password_after_retries xor_cipher xor_cipher xor_mac ascii_digit
           xor_cipher_length xor_cipher_inverse xor_mac_length sample_key
           sample_manager (lit "svc") 1700000000 sample_rng
           (store [] [lit "short"; lit "MyPass123!"; lit "MyPass123";
                      lit "MyPass123!"; lit "unread"])
           [] [lit "short"] [lit "MyPass123"] (lit "MyPass123!")
           [lit "unread"]).
  - exact sample_key_accepted.
  - reflexivity.
  - reflexivity.
  - intros (r & [] & _).
  - reflexivity.
  - reflexivity.
  - cbn [length]. lia.
  - constructor; [vm_compute; reflexivity | constructor].
  - cbn [length]. lia.
  - constructor; [vm_compute; discriminate | constructor].
  - vm_compute. reflexivity.
  - vm_compute. reflexivity.
  - lia.
Defined.

Lemma use_after_close_witness :
  get_password xor_cipher xor_mac sample_manager (lit "svc")
    (snd (close (store [] [])))
  = (Ok None,
     set_stdout (snd (close (store [] [])))
       [TextExn (lit "Error retrieving password: ") ProgrammingError]).
Proof.
  exact (proj1 (proj2 (use_after_close xor_cipher xor_cipher xor_mac
                         ascii_digit xor_cipher_length xor_cipher_inverse
                         xor_mac_length sample_key sample_manager (lit "svc")
                         1700000000 sample_rng (store [] [])
                         sample_key_accepted))).
Defined.

Lemma unencodable_text_not_saved_witness :
  add_password xor_cipher xor_mac ascii_digit sample_manager (lit "svc")
    1700000000 sample_rng
    (store [] [lit "MyPass123!" ++ [0xD800%N]; lit "MyPass123!" ++ [0xD800%N]])
  = (Ok tt,
     set_stdout (store [] [])
       [TextExn (lit "Error saving password: ") UnicodeEncodeError]).
Proof.
  apply (unencodable_text_not_saved xor_cipher xor_cipher xor_mac ascii_digit
           xor_cipher_length xor_cipher_inverse xor_mac_length sample_key
           sample_manager (lit "svc") 1700000000 sample_rng
           (store [] [lit "MyPass123!" ++ [0xD800%N];
                      lit "MyPass123!" ++ [0xD800%N]])
           [] (lit "MyPass123!" ++ [0xD800%N]) []).
  - reflexivity.
  - vm_compute. reflexivity.
  - left. vm_compute. reflexivity.
Defined.

Lemma put_leaves_other_services_witness :
  fst (get_password xor_cipher xor_mac sample_manager (lit "other")
         (snd (add_password xor_cipher xor_mac ascii_digit sample_manager
                 (lit "svc") 1700000000 sample_rng
                 (store [garbage_row] [lit "MyPass123!"; lit "MyPass123!"]))))
  = fst (get_password xor_cipher xor_mac sample_manager (lit "other")
           (store [garbage_row] [lit "MyPass123!"; lit "MyPass123!"])).
Proof.
  apply (put_leaves_other_services xor_cipher xor_cipher xor_mac ascii_digit
           sample_manager sample_manager (lit "svc") (lit "other")).
  vm_compute. discriminate.
Defined.


Lemma init_corrupt_key_file_witness :
  let w :=
    set_files fresh_world
      {[ lit "encryption.key" := list_byte_of_string "not a key" ]} in
  fst (__init__ (lit "passwords.db") (lit "encryption.key") sample_rng w)
  = Raise ValueError /\
  files (snd (__init__ (lit "passwords.db") (lit "encryption.key")
                sample_rng w)) = files w /\
  passwords (snd (__init__ (lit "passwords.db") (lit "encryption.key")
                    sample_rng w)) = passwords w /\
  connected (snd (__init__ (lit "passwords.db") (lit "encryption.key")
                    sample_rng w)) = true.
Proof.
  cbv zeta.
  apply (init_corrupt_key_file (lit "passwords.db") (lit "encryption.key")
           sample_rng
           (set_files fresh_world
              {[ lit "encryption.key" := list_byte_of_string "not a key" ]})
           (list_byte_of_string "not a key")).
  - vm_compute. reflexivity.
  - intros (k & Hk & _). vm_compute in Hk. discriminate.
Defined.



Lemma ciphertext_shape_witness :
  exists E data,
    encrypt_password xor_cipher xor_mac sample_manager 1700000000 sample_rng
      (lit "MyPass123!") = Ok E /\
    encode (lit "MyPass123!") = Ok data /\
    (exists token,
       E = map Byte.to_N token /\ forallb token_byte token = true) /\
    length E = token_length (length data) /\
    (100 <= length E)%nat /\
    (length (lit "MyPass123!") < length E)%nat /\
    E <> lit "MyPass123!".
Proof.
  apply (ciphertext_shape xor_cipher xor_cipher xor_mac xor_cipher_length
           xor_cipher_inverse xor_mac_length sample_key).
  - exact sample_key_accepted.
  - vm_compute. reflexivity.
  - lia.
Defined.

Lemma decrypt_password_raises_witness :
  (InvalidToken = UnicodeEncodeError /\
   encodable (password garbage_row) = false) \/
  (InvalidToken = InvalidToken /\
   exists token,
     encode (password garbage_row) = Ok token /\
     Fernet_decrypt xor_cipher xor_mac (fernet sample_manager) token
     = Raise InvalidToken) \/
  (InvalidToken = UnicodeDecodeError /\
   exists token data,
     encode (password garbage_row) = Ok token /\
     Fernet_decrypt xor_cipher xor_mac (fernet sample_manager) token
     = Ok data /\
     utf8_decode data = None).
Proof.
  apply (decrypt_password_raises xor_cipher xor_mac xor_mac_length
           sample_manager (password garbage_row) InvalidToken).
  vm_compute. reflexivity.
Defined.

Lemma decrypt_password_accepts_only_tokens_witness :
  let E :=
    match encrypt_password xor_cipher xor_mac sample_manager 1700000000
            sample_rng (lit "MyPass123!") with
    | Ok E => E
    | Raise _ => []
    end in
  exists token data k,
    encode E = Ok token /\
    urlsafe_b64decode token = Some data /\
    length data = (57 + 16 * S k)%nat /\
    hd x00 data = x80 /\
    skipn (length data - 32) data =
      xor_mac (_signing_key (fernet sample_manager))
        (firstn (length data - 32) data).
Proof.
  cbv zeta.
  apply (decrypt_password_accepts_only_tokens xor_cipher xor_mac
           sample_manager _ (lit "MyPass123!")).
  vm_compute. reflexivity.
Defined.

Lemma first_run_key_file_witness :
  exists content,
    files (snd (_initialize_encryption (lit "encryption.key") sample_rng
                  fresh_world)) !! lit "encryption.key" = Some content /\
    length content = 44%nat /\
    urlsafe_b64decode content = Some (os_urandom sample_rng 32).
Proof.
  destruct (proj1 (first_run_key_file (lit "encryption.key") sample_rng
                     fresh_world)
              sample_fernet
              (snd (_initialize_encryption (lit "encryption.key") sample_rng
                      fresh_world)))
    as (content & H1 & H2 & _ & H4 & _);
    [reflexivity | vm_compute; reflexivity|].
  exists content. split; [exact H1|]. split; [exact H2 | exact H4].
Defined.

Lemma validate_password_monotone_witness :
  In msg_upper (snd (validate_password ascii_digit (lit "abc"))).
Proof.
  apply (validate_password_monotone ascii_digit (lit "xx") (lit "abc")
           (lit "1!") msg_upper).
  vm_compute. auto.
Defined.

Lemma validate_password_rearranged_witness :
  validate_password ascii_digit (lit "MyPass123!")
  = validate_password ascii_digit (rev (lit "MyPass123!")).
Proof.
  apply (validate_password_rearranged ascii_digit (lit "MyPass123!")
           (rev (lit "MyPass123!"))).
  apply Permutation_rev.
Defined.

Lemma main_ends_witness :
  main xor_cipher xor_cipher xor_mac ascii_digit ascii_space 9 sample_rng
    sample_clock sample_entropy
    (set_stdin fresh_world [lit "2"; lit "gmail.com"; lit "3"])
  = main xor_cipher xor_cipher xor_mac ascii_digit ascii_space 4 sample_rng
      sample_clock sample_entropy
      (set_stdin fresh_world [lit "2"; lit "gmail.com"; lit "3"]).
Proof.
  apply (proj2 (main_ends xor_cipher xor_cipher xor_mac ascii_digit
                  ascii_space 4 sample_rng sample_clock sample_entropy
                  (set_stdin fresh_world
                     [lit "2"; lit "gmail.com"; lit "3"])
                  ltac:(cbn; lia)) 9).
  cbn. lia.
Defined.

Lemma main_leaves_on_choice_3_witness :
  let r :=
    main xor_cipher xor_cipher xor_mac ascii_digit ascii_space 2 sample_rng
      sample_clock sample_entropy
      (set_stdin fresh_world [lit "x"; lit " 3 "; lit "unread"]) in
  fst r = Ok (Some tt) /\ stdin (snd r) = [lit "unread"] /\
  connected (snd r) = false /\ passwords (snd r) = Some [] /\
  stdout (snd r) =
    menu ++ [Text (lit "Invalid choice. Try again.")]
      ++ menu ++ [Text (lit "Goodbye!")].
Proof.
  cbv zeta.
  rewrite (main_leaves_on_choice_3 xor_cipher xor_cipher xor_mac ascii_digit
             ascii_space 2 sample_rng sample_clock sample_entropy
             (set_stdin fresh_world [lit "x"; lit " 3 "; lit "unread"])
             sample_manager
             (snd (__init__ (lit "passwords.db") (lit "encryption.key")
                     sample_rng
                     (set_stdin fresh_world
                        [lit "x"; lit " 3 "; lit "unread"])))
             [lit "x"] (lit " 3 ") [lit "unread"]).
  - vm_compute. auto.
  - vm_compute. reflexivity.
  - reflexivity.
  - constructor; [|constructor].
    vm_compute. intros [H|[H|[H|[]]]]; discriminate.
  - vm_compute. reflexivity.
  - cbn. lia.
Defined.

Lemma main_add_then_get_witness :
  let r :=
    main xor_cipher xor_cipher xor_mac ascii_digit ascii_space 3 sample_rng
      sample_clock sample_entropy
      (set_stdin fresh_world
         [lit "1"; lit "gmail.com"; lit "MyPass123!"; lit "MyPass123!";
          lit " 2"; lit "gmail.com"; lit "3 "; lit "unread"]) in
  fst r = Ok (Some tt) /\
  stdout (snd r) =
    menu ++ [Text advice; Text (saved_message (lit "gmail.com"))]
      ++ menu ++ [Text (nl ++ lit "Service: " ++ lit "gmail.com");
                  Text (lit "Password: " ++ lit "MyPass123!")]
      ++ menu ++ [Text (lit "Goodbye!")] /\
  stdin (snd r) = [lit "unread"] /\
  connected (snd r) = false.
Proof.
  cbv zeta.
  destruct (main_add_then_get xor_cipher xor_cipher xor_mac ascii_digit
              xor_cipher_length xor_cipher_inverse xor_mac_length
              ascii_space 3 sample_rng sample_clock sample_entropy
              (set_stdin fresh_world
                 [lit "1"; lit "gmail.com"; lit "MyPass123!";
                  lit "MyPass123!"; lit " 2"; lit "gmail.com"; lit "3 ";
                  lit "unread"])
              sample_manager
              (snd (__init__ (lit "passwords.db") (lit "encryption.key")
                      sample_rng
                      (set_stdin fresh_world
                         [lit "1"; lit "gmail.com"; lit "MyPass123!";
                          lit "MyPass123!"; lit " 2"; lit "gmail.com";
                          lit "3 "; lit "unread"])))
              (lit "1") (lit " 2") (lit "3 ") (lit "gmail.com")
              (lit "MyPass123!") [lit "unread"])
    as (H1 & H2 & H3 & H4 & _).
  - vm_compute. reflexivity.
  - reflexivity.
  - vm_compute. reflexivity.
  - vm_compute. reflexivity.
  - vm_compute. reflexivity.
  - intros rows Hr (r & Hin & _). vm_compute in Hr.
    injection Hr as <-. destruct Hin.
  - vm_compute. reflexivity.
  - vm_compute. reflexivity.
  - vm_compute. reflexivity.
  - vm_compute. reflexivity.
  - lia.
  - split; [exact H1|]. split; [exact H2|]. split; [exact H3 | exact H4].
Defined.

